(** * VoxHype media pipeline: logger registry, frame sampler, video
      renderer and live preview

    A shallow embedding of [utils/logger.ts], [utils/mediaProcessing.ts],
    [utils/videoUtils.ts] and the preview / download handlers of [App.tsx],
    followed by the properties of the design document that concern them.

    Numbers.  A JavaScript number is modelled as a rational, plus the
    three non-finite values that the arithmetic of the program can produce
    (a division by zero, a remainder by zero).  The definitions of
    [VideoUtils], [MediaProcessing] and [App] compute on them exactly.
    [Binary64] defines the rounding of IEEE 754 binary64 (to nearest, ties
    to even, with subnormal numbers and overflow), and [Machine] gives the
    functions whose results depend on it with every [+], [-], [*] and [/]
    rounded.  The properties of the scene index and of the cover fit, and
    those of the positions, the number and the outcome of the sampler's
    captures, are stated of [Machine] over [Binary64.rnd]; the other
    properties are stated of the exact definitions.  The sign of zero is
    outside the model.

    Strings.  A string is a sequence of bytes.  The length and the prefix
    of a caption are stated for ASCII texts, whose bytes are the UTF-16
    code units that [length] and [substring] count. *)

From Stdlib Require Import ZArith QArith Qround Qabs Qminmax Qpower.
From Stdlib Require Import Lia Lqa List String Bool Sorted SpecFloat.
Import ListNotations.

Local Open Scope Q_scope.

(* ===================================================================== *)
(** * JavaScript numbers                                                  *)
(* ===================================================================== *)

Module JsNum.

Inductive num : Type :=
| Fin (q : Q)
| PInf
| NInf
| NaN.

Definition Qlt_bool (x y : Q) : bool := negb (Qle_bool y x).

(** Truncation toward zero, the rounding of the quotient in [%]. *)
Definition Qtrunc (q : Q) : Z := Z.quot (Qnum q) (Zpos (Qden q)).

Definition of_Z (z : Z) : num := Fin (inject_Z z).
Definition of_nat (n : nat) : num := Fin (inject_Z (Z.of_nat n)).

Definition jneg (x : num) : num :=
  match x with
  | Fin a => Fin (- a)
  | PInf => NInf
  | NInf => PInf
  | NaN => NaN
  end.

Definition jadd (x y : num) : num :=
  match x, y with
  | NaN, _ | _, NaN => NaN
  | Fin a, Fin b => Fin (a + b)
  | PInf, NInf | NInf, PInf => NaN
  | PInf, _ | _, PInf => PInf
  | NInf, _ | _, NInf => NInf
  end.

Definition jsub (x y : num) : num := jadd x (jneg y).

(** Sign of a number: [Some Gt], [Some Lt], [Some Eq] for zero, [None] for NaN. *)
Definition jsign (x : num) : option comparison :=
  match x with
  | Fin a => Some (0 ?= a)%Q
  | PInf => Some Lt
  | NInf => Some Gt
  | NaN => None
  end.

Definition signed_inf (pos : bool) : num := if pos then PInf else NInf.

Definition jmul (x y : num) : num :=
  match x, y with
  | Fin a, Fin b => Fin (a * b)
  | _, _ =>
      match jsign x, jsign y with
      | Some Eq, _ | _, Some Eq => NaN
      | Some s, Some t => signed_inf (match s, t with Lt, Lt | Gt, Gt => true | _, _ => false end)
      | _, _ => NaN
      end
  end.

Definition jdiv (x y : num) : num :=
  match x, y with
  | NaN, _ | _, NaN => NaN
  | Fin a, Fin b =>
      if Qeq_bool b 0 then
        if Qeq_bool a 0 then NaN else signed_inf (Qlt_bool 0 a)
      else Fin (a / b)
  | Fin _, _ => Fin 0
  | PInf, Fin b => signed_inf (Qle_bool 0 b)
  | NInf, Fin b => signed_inf (negb (Qle_bool 0 b))
  | _, _ => NaN
  end.

(** The [%] operator: the remainder has the sign of the dividend. *)
Definition jrem (x y : num) : num :=
  match x, y with
  | Fin a, Fin b =>
      if Qeq_bool b 0 then NaN else Fin (a - b * inject_Z (Qtrunc (a / b)))
  | Fin a, PInf | Fin a, NInf => Fin a
  | _, _ => NaN
  end.

Definition jfloor (x : num) : num :=
  match x with Fin a => Fin (inject_Z (Qfloor a)) | _ => x end.

(** [Math.round]: the nearest integer, a tie going up. *)
Definition jround (x : num) : num :=
  match x with Fin a => Fin (inject_Z (Qfloor (a + (1 # 2)))) | _ => x end.

Definition jabs (x : num) : num :=
  match x with Fin a => Fin (Qabs a) | NInf => PInf | _ => x end.

(** [x < y]; every comparison with NaN is false. *)
Definition jlt (x y : num) : bool :=
  match x, y with
  | NaN, _ | _, NaN => false
  | Fin a, Fin b => Qlt_bool a b
  | NInf, NInf | PInf, _ | _, NInf => false
  | _, _ => true
  end.

Definition jle (x y : num) : bool :=
  match x, y with
  | NaN, _ | _, NaN => false
  | Fin a, Fin b => Qle_bool a b
  | NInf, _ | _, PInf => true
  | _, _ => false
  end.

Definition jgt (x y : num) : bool := jlt y x.
Definition jge (x y : num) : bool := jle y x.

(** [Math.min] and [Math.max] of two arguments. *)
Definition jmin (x y : num) : num :=
  match x, y with
  | NaN, _ | _, NaN => NaN
  | _, _ => if jle x y then x else y
  end.

Definition jmax (x y : num) : num :=
  match x, y with
  | NaN, _ | _, NaN => NaN
  | _, _ => if jle x y then y else x
  end.

(** Truthiness of a number: zero and NaN are falsy. *)
Definition truthy (x : num) : bool :=
  match x with
  | Fin a => negb (Qeq_bool a 0)
  | NaN => false
  | _ => true
  end.

(** [o || d] for an optional numeric field [o]. *)
Definition or_default (o : option num) (d : num) : num :=
  match o with
  | Some v => if truthy v then v else d
  | None => d
  end.

(** The array index a number denotes as a property key, if any. *)
Definition as_index (x : num) : option nat :=
  match x with
  | Fin a =>
      if Qeq_bool a (inject_Z (Qfloor a)) && (0 <=? Qfloor a)%Z
      then Some (Z.to_nat (Qfloor a)) else None
  | _ => None
  end.

(** [arr[x]]: [None] is [undefined]. *)
Definition get {A : Type} (arr : list A) (x : num) : option A :=
  match as_index x with
  | Some i => nth_error arr i
  | None => None
  end.

(** Numeric equality of two values of the model (rationals up to [==]). *)
Definition num_eq (x y : num) : Prop :=
  match x, y with
  | Fin a, Fin b => a == b
  | PInf, PInf | NInf, NInf | NaN, NaN => True
  | _, _ => False
  end.

Definition num_eqb (x y : num) : bool :=
  match x, y with
  | Fin a, Fin b => Qeq_bool a b
  | PInf, PInf | NInf, NInf | NaN, NaN => true
  | _, _ => false
  end.

(** [x === y] on numbers: NaN differs from everything, itself included. *)
Definition jeq (x y : num) : bool :=
  match x, y with
  | Fin a, Fin b => Qeq_bool a b
  | PInf, PInf | NInf, NInf => true
  | _, _ => false
  end.

End JsNum.

Import JsNum.

(* ===================================================================== *)
(** * utils/logger.ts: the listener registry                              *)
(* ===================================================================== *)

Module Logger.

Inductive LogType : Type := info | success | error | warning | connect.

Record LogEntry : Type := mkLogEntry {
  id : string;
  timestamp : Z;
  message : string;
  type : LogType
}.

(** A listener is a function value; the registry compares listeners by
    identity ([indexOf] uses [===]), which the model renders as a name. *)
Definition Listener : Type := nat.

(** What a listener callback may do to the registry while it runs: call
    [subscribeToLogs], call an unsubscribe handle (a handle is determined
    by the listener it closes over), and finally return or throw. *)
Inductive RegOp : Type :=
| DoSubscribe (l : Listener)
| DoUnsubscribe (l : Listener).

Record Reaction : Type := mkReaction {
  ops : list RegOp;
  throws : bool
}.

Definition passive : Reaction := mkReaction [] false.

(** The module state: the [listeners] array, with the console lines and the
    callback invocations made so far (oldest first) as its observable trace. *)
Record Registry : Type := mkRegistry {
  listeners : list Listener;
  console : list string;
  delivered : list (Listener * LogEntry)
}.

Definition empty : Registry := mkRegistry [] [] [].

Definition type_name (t : LogType) : string :=
  match t with
  | info => "info"
  | success => "success"
  | error => "error"
  | warning => "warning"
  | connect => "connect"
  end.

Definition upper_ascii (c : Ascii.ascii) : Ascii.ascii :=
  let n := Ascii.nat_of_ascii c in
  if (97 <=? n)%nat && (n <=? 122)%nat then Ascii.ascii_of_nat (n - 32) else c.

Fixpoint toUpperCase (s : string) : string :=
  match s with
  | EmptyString => EmptyString
  | String c r => String (upper_ascii c) (toUpperCase r)
  end.

(** [listeners.indexOf(l)]: the first position holding [l]. *)
Fixpoint indexOf (ls : list Listener) (l : Listener) : option nat :=
  match ls with
  | [] => None
  | x :: r => if Nat.eqb x l then Some O else option_map S (indexOf r l)
  end.

(** [listeners.splice(i, 1)]. *)
Fixpoint splice1 (ls : list Listener) (i : nat) : list Listener :=
  match ls, i with
  | [], _ => []
  | _ :: r, O => r
  | x :: r, S j => x :: splice1 r j
  end.

Definition set_listeners (ls : list Listener) (st : Registry) : Registry :=
  mkRegistry ls (console st) (delivered st).

(** [subscribeToLogs(listener)]: the new state; the returned closure is
    [unsubscribe listener]. *)
Definition subscribeToLogs (l : Listener) (st : Registry) : Registry :=
  set_listeners (listeners st ++ [l]) st.

(** The closure returned by [subscribeToLogs(l)]. *)
Definition unsubscribe (l : Listener) (st : Registry) : Registry :=
  match indexOf (listeners st) l with
  | Some i => set_listeners (splice1 (listeners st) i) st
  | None => st
  end.

Definition run_op (o : RegOp) (st : Registry) : Registry :=
  match o with
  | DoSubscribe l => subscribeToLogs l st
  | DoUnsubscribe l => unsubscribe l st
  end.

Definition run_ops (os : list RegOp) (st : Registry) : Registry :=
  fold_left (fun s o => run_op o s) os st.

Section Delivery.

(** The behaviour of each listener on each entry. *)
Variable react : Listener -> LogEntry -> Reaction.

(** [listeners.forEach(l => l(entry))]: the bound is the length read
    before the first call; an index that is no longer present when its
    turn comes is skipped; an exception ends the loop.  The result is
    the state, and whether a callback threw. *)
Fixpoint forEach_from (todo k : nat) (entry : LogEntry) (st : Registry)
  : Registry * bool :=
  match todo with
  | O => (st, false)
  | S todo' =>
      match nth_error (listeners st) k with
      | None => forEach_from todo' (S k) entry st
      | Some l =>
          let called :=
            mkRegistry (listeners st) (console st) (delivered st ++ [(l, entry)]) in
          let after := run_ops (ops (react l entry)) called in
          if throws (react l entry) then (after, true)
          else forEach_from todo' (S k) entry after
      end
  end.

(** [addLog(message, type)]; [rnd] is the value of
    [Math.random().toString(36).substring(7)] and [now] of [Date.now()]. *)
Definition addLog (rnd : string) (now : Z) (msg : string) (ty : option LogType)
           (st : Registry) : Registry * bool :=
  let ty := match ty with Some t => t | None => info end in
  let entry := mkLogEntry rnd now msg ty in
  let line := ("[" ++ toUpperCase (type_name ty) ++ "] " ++ msg)%string in
  let st1 := mkRegistry (listeners st) (console st ++ [line]) (delivered st) in
  forEach_from (List.length (listeners st1)) 0 entry st1.

End Delivery.

End Logger.

(* ===================================================================== *)
(** * utils/mediaProcessing.ts: the frame sampler                         *)
(* ===================================================================== *)

Module MediaProcessing.

Record VideoFrame : Type := mkVideoFrame {
  timestamp : num;
  base64 : string
}.

(** The uploaded file as the sampler observes it through the [<video>]
    element: whether its metadata loads ([onloadedmetadata]) or not
    ([onerror]), its duration and natural size, and the payload that
    [drawImage] followed by [toDataURL] yields after a seek to a given
    position ([None]: one of the two throws). *)
Record VideoFile : Type := mkVideoFile {
  loads : bool;
  duration : num;
  videoWidth : num;
  videoHeight : num;
  still : num -> option string
}.

Inductive SampleError : Type :=
| LoadError
| CaptureError.

(** How the promise settles.  Both settlements are preceded by
    [URL.revokeObjectURL(videoUrl)]. *)
Inductive Outcome : Type :=
| Resolved (frames : list VideoFrame)
| Rejected (e : SampleError).

Definition ANALYZE_WIDTH : num := of_Z 320.

Definition canvas_height (f : VideoFile) : num :=
  jmul (jdiv (videoHeight f) (videoWidth f)) ANALYZE_WIDTH.

(** The [while (currentTime < duration)] loop of [onloadedmetadata].
    [ctx] tells whether [canvas.getContext('2d')] returned a context.
    [None] means the loop is still running when [fuel] iterations have
    been made. *)
Fixpoint sample_loop (fuel : nat) (ctx : bool) (f : VideoFile)
         (intervalSeconds currentTime : num) (frames : list VideoFrame)
  : option Outcome :=
  match fuel with
  | O => None
  | S fuel' =>
      if jlt currentTime (duration f) then
        if ctx then
          match still f currentTime with
          | Some data =>
              sample_loop fuel' ctx f intervalSeconds
                (jadd currentTime intervalSeconds)
                (frames ++ [mkVideoFrame (jround currentTime) data])
          | None => Some (Rejected CaptureError)
          end
        else
          sample_loop fuel' ctx f intervalSeconds
            (jadd currentTime intervalSeconds) frames
      else Some (Resolved frames)
  end.

(** [extractFramesFromVideo(videoFile, intervalSeconds = 3)]. *)
Definition extractFramesFromVideo (fuel : nat) (ctx : bool) (videoFile : VideoFile)
           (intervalSeconds : option num) : option Outcome :=
  let intervalSeconds :=
    match intervalSeconds with Some s => s | None => of_Z 3 end in
  if loads videoFile
  then sample_loop fuel ctx videoFile intervalSeconds (of_Z 0) []
  else Some (Rejected LoadError).

End MediaProcessing.

(* ===================================================================== *)
(** * types.ts, as far as the renderer and the preview use it             *)
(* ===================================================================== *)

Module Types.

(** Modelled from the spec: [types.ts] is not among the sources.  The
    four target platforms of the design document (two landscape, two
    portrait), under the names [videoUtils.ts] and [App.tsx] use. *)
Inductive Platform : Type := YOUTUBE | TIKTOK | INSTAGRAM | GENERIC.

(** Modelled from the spec: the closed set of asset kinds, [image] and
    [video], as the sources spell them. *)
Inductive AssetType : Type := image | video.

(** Modelled from the spec: the [VisualAsset] of the design document,
    whose declaration in [types.ts] is not among the sources.  The fields
    are those the sources read or write, under the names they use:
    [base64] is the image data, [videoUrl] the clip reference,
    [videoStart] and [videoEnd] the in and out points; all but [type],
    [description] and [prompt] may be absent. *)
Record VisualAsset : Type := mkVisualAsset {
  type : AssetType;
  base64 : option string;
  videoUrl : option string;
  videoStart : option num;
  videoEnd : option num;
  description : string;
  prompt : string
}.

Definition is_image (a : VisualAsset) : bool :=
  match type a with image => true | video => false end.

Definition is_video (a : VisualAsset) : bool :=
  match type a with video => true | image => false end.

(** Truthiness of an optional string field. *)
Definition truthy_string (o : option string) : bool :=
  match o with
  | Some EmptyString | None => false
  | Some _ => true
  end.

End Types.

(* ===================================================================== *)
(** * utils/videoUtils.ts: the compositor / recorder                      *)
(* ===================================================================== *)

Module VideoUtils.

Import Types.

(** A decoded [HTMLImageElement]. *)
Record Image : Type := mkImage {
  width : num;
  height : num
}.

(** What a tick reads from the [<video>] element. *)
Record VideoEl : Type := mkVideoEl {
  readyState : Z;
  currentTime : num;
  videoWidth : num;
  videoHeight : num
}.

Inductive Source : Type :=
| ImageSource (img : Image)
| VideoSource (v : VideoEl).

Record Blob : Type := mkBlob {
  parts : list Z;          (* the sizes of the recorded chunks, in order *)
  mime : string
}.

(** The calls the renderer makes on its collaborators. *)
Inductive Action : Type :=
| reject (msg : string)
| recorder_start
| source_start
| video_play
| onProgress (progress : num)
| setTimeout_stop (ms : Z)                 (* setTimeout(() => recorder.stop(), ms) *)
| fillRect (x y w h : num)
| drawImage (src : Source) (x y w h : num)
| seek (t : num)                           (* videoEl.currentTime = t *)
| requestAnimationFrame
| recorder_stop
| new_Blob (b : Blob)
| source_disconnect
| audioContext_close
| resolve (b : Blob).

(** The variables [drawFrame] closes over. *)
Record Env : Type := mkEnv {
  canvas_width : num;
  canvas_height : num;
  assets : list VisualAsset;
  imgs : list (option Image);
  duration : num;
  sceneDuration : num;
  startTime : num
}.

(** How one call of [drawFrame] ends: it asked for the next frame, it
    returned after arming the stop timer, or it threw a [TypeError]. *)
Inductive Completion : Type := Rescheduled | Returned | Threw.

Record Tick : Type := mkTick {
  actions : list Action;
  scene : option num;      (* the value of [safeIndex], once computed *)
  completion : Completion
}.

Definition half (x : num) : num := jdiv x (of_Z 2).

(** The position in the shared clip that a video asset shows at [elapsed]
    (the "local time within the clip" block of [drawFrame]). *)
Definition clip_targetTime (asset : VisualAsset) (elapsed sceneDuration : num) : num :=
  let timeInScene := jrem elapsed sceneDuration in
  let vStart := or_default (videoStart asset) (of_Z 0) in
  let vEnd := or_default (videoEnd asset) (jadd vStart (of_Z 5)) in
  let clipLen := jsub vEnd vStart in
  jadd vStart (jrem timeInScene clipLen).

(** The body of [drawFrame]; [now] is [audioContext.currentTime]. *)
Definition drawFrame (env : Env) (now : num) (videoEl : VideoEl) : Tick :=
  let elapsed := jsub now (startTime env) in
  let progress := jmin (of_Z 100) (jmul (jdiv elapsed (duration env)) (of_Z 100)) in
  if jge elapsed (duration env) then
    mkTick [onProgress progress; setTimeout_stop 500] None Returned
  else
    let index := jfloor (jdiv elapsed (sceneDuration env)) in
    let safeIndex :=
      jmin index (jsub (of_nat (List.length (assets env))) (of_Z 1)) in
    let clear :=
      [onProgress progress;
       fillRect (of_Z 0) (of_Z 0) (canvas_width env) (canvas_height env)] in
    match get (assets env) safeIndex with
    | None => mkTick clear (Some safeIndex) Threw
    | Some asset =>
        let body :=
          match is_image asset, get (imgs env) safeIndex with
          | true, Some (Some img) =>
              let scale := jmax (jdiv (canvas_width env) (width img))
                                (jdiv (canvas_height env) (height img)) in
              let x := jsub (half (canvas_width env)) (jmul (half (width img)) scale) in
              let y := jsub (half (canvas_height env)) (jmul (half (height img)) scale) in
              [drawImage (ImageSource img) x y
                 (jmul (width img) scale) (jmul (height img) scale)]
          | _, _ =>
              if is_video asset && (2 <=? readyState videoEl)%Z then
                let targetTime := clip_targetTime asset elapsed (sceneDuration env) in
                let sync :=
                  if jgt (jabs (jsub (currentTime videoEl) targetTime)) (Fin (2 # 10))
                  then [seek targetTime] else [] in
                let vw := videoWidth videoEl in
                let vh := videoHeight videoEl in
                let render :=
                  if jgt vw (of_Z 0) && jgt vh (of_Z 0) then
                    let scale := jmax (jdiv (canvas_width env) vw)
                                      (jdiv (canvas_height env) vh) in
                    let x := jsub (half (canvas_width env)) (jmul (half vw) scale) in
                    let y := jsub (half (canvas_height env)) (jmul (half vh) scale) in
                    [drawImage (VideoSource videoEl) x y (jmul vw scale) (jmul vh scale)]
                  else [] in
                sync ++ render
              else []
          end in
        mkTick (clear ++ body ++ [requestAnimationFrame]) (Some safeIndex) Rescheduled
    end.

(** ** The render session

    [renderVideo] runs its executor synchronously and then reacts to events
    of the host: the image preloads settling, animation frames, recorder
    data, the stop timer and the recorder's stop event.  The session keeps
    the closed-over variables, the phase the promise is in, and the log of
    the calls made so far, each stamped with the wall-clock time (ms) of
    the event during which it was made. *)

Record AudioBuffer : Type := mkAudioBuffer {
  buffer_duration : Q
}.

Record Host : Type := mkHost {
  context2d : bool;                        (* canvas.getContext('2d') is not null *)
  isTypeSupported : string -> bool         (* MediaRecorder.isTypeSupported *)
}.

Definition mimeTypes : list string :=
  ["video/mp4"; "video/webm;codecs=h264"; "video/webm;codecs=vp9"; "video/webm"]%string.

Definition selectedMimeType (host : Host) : string :=
  match find (isTypeSupported host) mimeTypes with
  | Some t => t
  | None => "video/webm"%string
  end.

Definition isLandscape (platform : Platform) : bool :=
  match platform with
  | YOUTUBE | GENERIC => true
  | _ => false
  end.

Inductive Phase : Type :=
| Failed (msg : string)      (* the promise is rejected *)
| Loading                    (* waiting for the preloads *)
| Recording                  (* an animation frame is requested *)
| Settling (due : Z)         (* the stop timer is armed *)
| Finalizing                 (* recorder.stop() was called *)
| Done (b : Blob)            (* the promise is resolved *)
| Crashed.                   (* a callback threw: nothing is pending, the promise stays pending *)

Record Session : Type := mkSession {
  env : Env;                 (* [imgs] and [startTime] are set when the preloads settle *)
  mimeType : string;
  videoAsset : option VisualAsset;
  phase : Phase;
  chunks : list Z;
  wall : Z;                  (* wall clock at the last event, ms *)
  clock : Q;                 (* audioContext.currentTime at the last event, s *)
  log : list (Z * Action)
}.

Definition stamp (t : Z) (acts : list Action) : list (Z * Action) :=
  map (fun a => (t, a)) acts.

(** [renderVideo(audioBuffer, assets, platform, onProgress)]: the executor
    of the promise, run at wall-clock time [t0]. *)
Definition renderVideo (host : Host) (t0 : Z) (clock0 : Q)
           (audioBuffer : AudioBuffer) (assets : list VisualAsset)
           (platform : Platform) : Session :=
  let w := if isLandscape platform then of_Z 1920 else of_Z 1080 in
  let h := if isLandscape platform then of_Z 1080 else of_Z 1920 in
  let duration := Fin (buffer_duration audioBuffer) in
  let sceneDuration := jdiv duration (of_nat (List.length assets)) in
  let env := mkEnv w h assets [] duration sceneDuration (of_Z 0) in
  let videoAsset := find is_video assets in
  if context2d host then
    mkSession env (selectedMimeType host) videoAsset Loading [] t0 clock0 []
  else
    mkSession env (selectedMimeType host) videoAsset
      (Failed "Could not get canvas context") [] t0 clock0
      [(t0, reject "Could not get canvas context")].

Inductive Event : Type :=
| ImagesSettled (loaded : list (option Image)) (videoEl : VideoEl)
| AnimationFrame (videoEl : VideoEl)
| DataAvailable (size : Z)
| TimerFired
| RecorderStopped.

Record Occurrence : Type := mkOccurrence {
  at_wall : Z;
  at_clock : Q;
  what : Event
}.

(** What [Promise.all] over the preload promises can deliver: one entry per
    asset, and a decoded image only for an image asset that has data. *)
Definition preload_ok (assets : list VisualAsset) (loaded : list (option Image)) : bool :=
  Nat.eqb (List.length loaded) (List.length assets)
  && forallb (fun p => match snd p with
                       | Some _ => is_image (fst p) && truthy_string (base64 (fst p))
                       | None => true
                       end)
             (combine assets loaded).

(** The delay of the stop timer armed by a tick, if it armed one. *)
Fixpoint armed (acts : list Action) : option Z :=
  match acts with
  | [] => None
  | setTimeout_stop ms :: _ => Some ms
  | _ :: r => armed r
  end.

Definition after_tick (t : Z) (tick : Tick) : Phase :=
  match completion tick with
  | Rescheduled => Recording
  | Returned =>
      match armed (actions tick) with
      | Some ms => Settling (t + ms)
      | None => Crashed
      end
  | Threw => Crashed
  end.

Definition advance (s : Session) (o : Occurrence) (e : Env) (p : Phase)
           (cs : list Z) (acts : list Action) : Session :=
  mkSession e (mimeType s) (videoAsset s) p cs (at_wall o) (at_clock o)
            (log s ++ stamp (at_wall o) acts).

(** One event.  [None]: the host cannot produce this event in this state
    (clocks do not run backwards, a timer does not fire early, no callback
    is registered for it). *)
Definition step (s : Session) (o : Occurrence) : option Session :=
  if negb ((wall s <=? at_wall o)%Z && Qle_bool (clock s) (at_clock o)) then None
  else
    match phase s, what o with
    | Loading, ImagesSettled loaded videoEl =>
        if preload_ok (assets (env s)) loaded then
          let e := mkEnv (canvas_width (env s)) (canvas_height (env s))
                         (assets (env s)) loaded (duration (env s))
                         (sceneDuration (env s)) (Fin (at_clock o)) in
          let tick := drawFrame e (Fin (at_clock o)) videoEl in
          Some (advance s o e (after_tick (at_wall o) tick) (chunks s)
                  ([recorder_start; source_start]
                   ++ (match videoAsset s with Some _ => [video_play] | None => [] end)
                   ++ actions tick))
        else None
    | Recording, AnimationFrame videoEl =>
        let tick := drawFrame (env s) (Fin (at_clock o)) videoEl in
        Some (advance s o (env s) (after_tick (at_wall o) tick) (chunks s)
                (actions tick))
    | Recording, DataAvailable size
    | Settling _, DataAvailable size
    | Finalizing, DataAvailable size
    | Crashed, DataAvailable size =>
        Some (advance s o (env s) (phase s)
                (if (0 <? size)%Z then chunks s ++ [size] else chunks s) [])
    | Settling due, TimerFired =>
        if (due <=? at_wall o)%Z
        then Some (advance s o (env s) Finalizing (chunks s) [recorder_stop])
        else None
    | Finalizing, RecorderStopped =>
        let blob := mkBlob (chunks s) (mimeType s) in
        Some (advance s o (env s) (Done blob) (chunks s)
                [new_Blob blob; source_disconnect; audioContext_close; resolve blob])
    | _, _ => None
    end.

Fixpoint run (s : Session) (os : list Occurrence) : option Session :=
  match os with
  | [] => Some s
  | o :: r =>
      match step s o with
      | Some s' => run s' r
      | None => None
      end
  end.

End VideoUtils.

(* ===================================================================== *)
(** * App.tsx: the live preview and the download handler                  *)
(* ===================================================================== *)

Module App.

Import Types.

(** What [updateSlideshow] reads from [videoPreviewRef.current]. *)
Record PreviewVideo : Type := mkPreviewVideo {
  currentTime : num;
  paused : bool
}.

Inductive UiAction : Type :=
| setCurrentAssetIndex (i : num)
| seek (t : num)                       (* videoPreviewRef.current.currentTime = t *)
| play
| pause
| requestAnimationFrame
| setIsRendering (b : bool)
| setRenderProgress (p : num)
| pauseAudio.

(** The position in the clip that the preview shows at [elapsed]. *)
Definition preview_targetTime (asset : VisualAsset) (elapsed sceneDuration : num) : num :=
  let timeInScene := jrem elapsed sceneDuration in
  let clipDuration :=
    jsub (or_default (videoEnd asset) (of_Z 10))
         (or_default (videoStart asset) (of_Z 0)) in
  jadd (or_default (videoStart asset) (of_Z 0)) (jrem timeInScene clipDuration).

(** [updateSlideshow()].  [audioContext] is [audioContextRef.current]
    reduced to its [currentTime]; [startTime] is [startTimeRef.current]. *)
Definition updateSlideshow (audioContext : option num)
           (audioBuffer : option VideoUtils.AudioBuffer)
           (assets : list VisualAsset) (startTime currentAssetIndex : num)
           (videoPreview : option PreviewVideo) (isPlaying : bool)
  : list UiAction :=
  match audioContext, audioBuffer with
  | Some now, Some buffer =>
      if Nat.eqb (List.length assets) 0 then []
      else
        let elapsed := jsub now startTime in
        let duration := Fin (VideoUtils.buffer_duration buffer) in
        let sceneDuration := jdiv duration (of_nat (List.length assets)) in
        let index :=
          jrem (jfloor (jdiv elapsed sceneDuration)) (of_nat (List.length assets)) in
        let changed :=
          if negb (jeq index currentAssetIndex) then [setCurrentAssetIndex index] else [] in
        let video_part :=
          match videoPreview with
          | Some v =>
              match get assets index with
              | Some asset =>
                  if is_video asset then
                    let targetTime := preview_targetTime asset elapsed sceneDuration in
                    (if jgt (jabs (jsub (currentTime v) targetTime)) (Fin (5 # 10))
                     then [seek targetTime] else [])
                    ++ (if paused v then [play] else [])
                  else if negb (paused v) then [pause] else []
              | None => if negb (paused v) then [pause] else []
              end
          | None => []
          end in
        changed ++ video_part ++ (if isPlaying then [requestAnimationFrame] else [])
  | _, _ => []
  end.

(** [handleDownloadVideo()] up to its [await]: either the guard returns,
    or the render is started. *)
Inductive Download : Type :=
| Ignored
| Started (ui : list UiAction) (session : VideoUtils.Session).

Definition handleDownloadVideo (host : VideoUtils.Host) (t0 : Z) (clock0 : Q)
           (audioBuffer : option VideoUtils.AudioBuffer)
           (assets : list VisualAsset) (selectedPlatform : Platform)
           (isPlaying : bool) : Download :=
  match audioBuffer with
  | None => Ignored
  | Some buffer =>
      if Nat.eqb (List.length assets) 0 then Ignored
      else
        Started ([setIsRendering true; setRenderProgress (of_Z 0)]
                 ++ (if isPlaying then [pauseAudio] else []))
                (VideoUtils.renderVideo host t0 clock0 buffer assets selectedPlatform)
  end.

(** [handleVideoUpload] samples the uploaded file every 4 seconds. *)
Definition handleVideoUpload (fuel : nat) (ctx : bool) (file : MediaProcessing.VideoFile)
  : option MediaProcessing.Outcome :=
  MediaProcessing.extractFramesFromVideo fuel ctx file (Some (of_Z 4)).

End App.

(* ===================================================================== *)
(** * utils/mediaProcessing.ts: the placeholder image                     *)
(* ===================================================================== *)

Module Placeholder.

(** The calls [generatePlaceholderImage] makes on the 2d context. *)
Inductive CanvasCall : Type :=
| fillGradient (x y w h : num)                    (* the background, top to bottom *)
| fillText (text : string) (font_px : num) (x y : num).

(** The description as it is written on the image. *)
Definition displayText (text : string) : string :=
  if (50 <? String.length text)%nat
  then (String.substring 0 47 text ++ "...")%string
  else text.

Definition fontSize (width height : num) : num :=
  jfloor (jmul (jmin width height) (Fin (5 # 100))).

Definition placeholder_calls (text : string) (width height : num) : list CanvasCall :=
  let size := fontSize width height in
  [fillGradient (of_Z 0) (of_Z 0) width height;
   fillText "SCENE VISUAL" (jfloor (jmul size (Fin (8 # 10))))
            (jdiv width (of_Z 2)) (jsub (jdiv height (of_Z 2)) (jmul size (of_Z 2)));
   fillText (displayText text) size (jdiv width (of_Z 2)) (jdiv height (of_Z 2));
   fillText "(AI Generation Quota Reached)" (jfloor (jmul size (Fin (6 # 10))))
            (jdiv width (of_Z 2)) (jadd (jdiv height (of_Z 2)) (jmul size (of_Z 2)))].

(** [generatePlaceholderImage(text, width, height)].  [ctx] tells whether
    the canvas gave a 2d context; [encode] stands for
    [canvas.toDataURL('image/jpeg', 0.8).split(',')[1]] of a canvas of the
    given size after the given calls. *)
Definition generatePlaceholderImage (ctx : bool)
           (encode : num -> num -> list CanvasCall -> string)
           (text : string) (width height : num) : string :=
  if ctx then encode width height (placeholder_calls text width height)
  else EmptyString.

End Placeholder.

(* ===================================================================== *)
(** * App.tsx: assembling the assets of a plan                            *)
(* ===================================================================== *)

Module Generation.

Import Types.

(** Modelled from the spec: the items of the visual plan come from
    [geminiService], which is not among the sources; [description] is the
    one field of an item that [App.tsx] reads. *)
Record PlanItem : Type := mkPlanItem {
  description : string
}.

(** The size [handleGenerateContent] asks placeholders in. *)
Definition placeholder_width (selectedPlatform : Platform) : num :=
  match selectedPlatform with
  | TIKTOK | INSTAGRAM => of_Z 1080
  | _ => of_Z 1920
  end.

Definition placeholder_height (selectedPlatform : Platform) : num :=
  match selectedPlatform with
  | TIKTOK | INSTAGRAM => of_Z 1920
  | _ => of_Z 1080
  end.

(** The asset pushed when [generateAsset] threw or returned nothing. *)
Definition fallback (placeholder : string) (item : PlanItem) : VisualAsset :=
  mkVisualAsset image (Some placeholder) None None None
                (description item ++ " (Fallback)")%string "Fallback"%string.

Section Loop.

(** [generateAsset(item, platform)] of [geminiService]: [None] when the
    call throws or returns nothing. *)
Variable generateAsset : PlanItem -> Platform -> option VisualAsset.

(** [generatePlaceholderImage] with the page's canvas. *)
Variable makePlaceholder : string -> num -> num -> string.

Variable selectedPlatform : Platform.

(** The [for (const [index, item] of plan.entries())] loop from [index]
    on, for a plan of [total] items: the assets pushed, and the delays
    (ms) waited for, in order. *)
Fixpoint generate_from (total index : nat) (plan : list PlanItem)
  : list VisualAsset * list Z :=
  match plan with
  | [] => ([], [])
  | item :: rest =>
      let asset :=
        match generateAsset item selectedPlatform with
        | Some a => a
        | None =>
            fallback (makePlaceholder (description item)
                        (placeholder_width selectedPlatform)
                        (placeholder_height selectedPlatform)) item
        end in
      let wait := if (index <? total - 1)%nat then [5000%Z] else [] in
      let (assets, waits) := generate_from total (S index) rest in
      (asset :: assets, wait ++ waits)
  end.

(** [generatedAssets.forEach(a => { if (a.type === 'video') a.videoUrl = videoUrl })],
    done when a demo video was uploaded. *)
Definition attach_video (videoUrl : option string) (assets : list VisualAsset)
  : list VisualAsset :=
  match videoUrl with
  | Some url =>
      map (fun a =>
             if is_video a
             then mkVisualAsset (type a) (base64 a) (Some url) (videoStart a)
                                (videoEnd a) (Types.description a) (prompt a)
             else a)
          assets
  | None => assets
  end.

(** The part of [handleGenerateContent] between the plan and [setAssets]:
    the error message thrown, or the list handed to [setAssets], with the
    delays waited for. *)
Definition assemble (plan : list PlanItem) (videoUrl : option string)
  : string + (list VisualAsset * list Z) :=
  let (generatedAssets, waits) := generate_from (List.length plan) 0 plan in
  let generatedAssets := attach_video videoUrl generatedAssets in
  if Nat.eqb (List.length generatedAssets) 0
  then inl "Failed to generate visuals."%string
  else inr (generatedAssets, waits).

End Loop.

End Generation.

(* ===================================================================== *)
(** * App.tsx: playing and pausing the preview                            *)
(* ===================================================================== *)

Module Player.

Import VideoUtils.

(** The refs and the flag that [playAudio] and [pauseAudio] share. *)
Record Refs : Type := mkRefs {
  startTimeRef : num;
  pauseTimeRef : num;
  sourceNodeRef : bool;        (* [sourceNodeRef.current] is set *)
  isPlaying : bool
}.

Inductive Call : Type :=
| context_resume
| source_start (offset : num)          (* source.start(0, offset), looping *)
| source_stop
| cancelAnimationFrame
| video_pause
| run_loop.                            (* loop(): updateSlideshow, then the next frame *)

Definition initial : Refs := mkRefs (of_Z 0) (of_Z 0) false false.

(** [playAudio()].  [audioContext] is [audioContextRef.current], reduced
    to its [currentTime] and to whether it is suspended. *)
Definition playAudio (audioContext : option (num * bool))
           (audioBuffer : option AudioBuffer) (r : Refs) : Refs * list Call :=
  match audioContext, audioBuffer with
  | Some (currentTime, suspended), Some buffer =>
      let offset := jrem (pauseTimeRef r) (Fin (buffer_duration buffer)) in
      (mkRefs (jsub currentTime offset) (pauseTimeRef r) true true,
       (if suspended then [context_resume] else [])
       ++ [source_start offset; cancelAnimationFrame; run_loop])
  | _, _ => (r, [])
  end.

(** [pauseAudio()].  [audioContext] is the [currentTime] of
    [audioContextRef.current]; [videoPreview] tells whether the preview
    video element is mounted. *)
Definition pauseAudio (audioContext : option num) (videoPreview : bool) (r : Refs)
  : Refs * list Call :=
  if sourceNodeRef r then
    (mkRefs (startTimeRef r)
            (match audioContext with
             | Some currentTime => jsub currentTime (startTimeRef r)
             | None => pauseTimeRef r
             end)
            true false,
     [source_stop; cancelAnimationFrame] ++ (if videoPreview then [video_pause] else []))
  else (r, []).

(** The part of [reset()] that concerns the refs. *)
Definition reset (r : Refs) : Refs :=
  mkRefs (startTimeRef r) (of_Z 0) (sourceNodeRef r) (isPlaying r).

End Player.

(* ===================================================================== *)
(** * App.tsx: after the render                                           *)
(* ===================================================================== *)

Module Download.

Import VideoUtils.

Inductive Call : Type :=
| createObjectURL (b : Blob)
| anchor_click (download : string)
| revokeObjectURL
| console_error
| alert (msg : string)
| setIsRendering (b : bool).

(** The name given to the downloaded file; [platform] is the string value
    of the selected platform. *)
Definition download_name (platform : string) : string :=
  ("voxhype-" ++ platform ++ "-video.webm")%string.

(** What [handleDownloadVideo] does once [await renderVideo(...)] returns
    or throws; nothing as long as the promise is pending. *)
Definition afterRender (platform : string) (s : Session) : list Call :=
  match phase s with
  | Done b =>
      [createObjectURL b; anchor_click (download_name platform); revokeObjectURL;
       setIsRendering false]
  | Failed _ =>
      [console_error; alert "Failed to render video."; setIsRendering false]
  | _ => []
  end.

End Download.
(* ===================================================================== *)
(** * Binary64: the rounding of the arithmetic                            *)
(* ===================================================================== *)

Module Binary64.

(** [floor(log2 x)] for a positive rational [x]. *)
Definition Qlog2 (x : Q) : Z :=
  let k := (Z.log2 (Qnum x) - Z.log2 (Zpos (Qden x)))%Z in
  if Qle_bool (2 ^ k) x then k else (k - 1)%Z.

(** The nearest integer, a tie going to the even one. *)
Definition rne (y : Q) : Z :=
  let f := Qfloor y in
  match Qcompare (y - inject_Z f) (1 # 2) with
  | Lt => f
  | Gt => (f + 1)%Z
  | Eq => if Z.even f then f else (f + 1)%Z
  end.

(** The exponent of the last place of the binary64 numbers around [x]:
    53 significant bits, and no exponent below that of the subnormal
    numbers. *)
Definition ulp_exponent (x : Q) : Z := Z.max (Qlog2 (Qabs x) - 52) (-1074).

(** [x] rounded to a multiple of its unit in the last place. *)
Definition rounded (x : Q) : Q :=
  inject_Z (rne (x / 2 ^ ulp_exponent x)) * 2 ^ ulp_exponent x.

(** Rounding to nearest, ties to even, of a real result to binary64; a
    result that rounds to [2 ^ 1024] or beyond overflows to an infinity. *)
Definition round64 (x : Q) : num :=
  let x := Qred x in
  if Qeq_bool x 0 then Fin 0
  else
    let r := Qred (rounded x) in
    if Qle_bool (2 ^ 1024) (Qabs r)
    then (if Qle_bool 0 x then PInf else NInf)
    else Fin r.

(** The rounding of the result of an operation. *)
Definition rnd (x : num) : num :=
  match x with
  | Fin q => round64 q
  | _ => x
  end.

(** [q] is a binary64 number: rounding leaves it as it is. *)
Definition representable (q : Q) : Prop := num_eq (round64 q) (Fin q).

(** The unit roundoff: half the distance between 1 and the next number. *)
Definition u : Q := 2 ^ (-53).

(** The value of a binary64 number as the Standard Library's
    specification of IEEE 754 represents it, and the number of that
    specification with a given integer significand and exponent. *)
Definition of_spec (f : spec_float) : num :=
  match f with
  | S754_zero _ => Fin 0
  | S754_infinity false => PInf
  | S754_infinity true => NInf
  | S754_nan => NaN
  | S754_finite s m e =>
      Fin (Qred ((if s then - inject_Z (Zpos m) else inject_Z (Zpos m)) * 2 ^ e))
  end.

Definition dyadic (m e : Z) : spec_float := binary_normalize 53 1024 m e false.

Definition dyadic_value (m e : Z) : Q := inject_Z m * 2 ^ e.

End Binary64.
(* ===================================================================== *)
(** * The arithmetic of the program, rounded                              *)
(* ===================================================================== *)

(** The functions of the sources whose results depend on the rounding of
    the arithmetic, over an arbitrary rounding [rnd] of the result of each
    [+], [-], [*] and [/].  The remainder [%], [Math.floor], [Math.round],
    [Math.min], [Math.max], [Math.abs] and the comparisons are exact on
    binary64 numbers and are not rounded.  With the identity for [rnd]
    these are the definitions of [VideoUtils] and [MediaProcessing]; with
    [Binary64.rnd] they are the program. *)
Module Machine.

Import Types VideoUtils.

Section Arith.

Variable rnd : num -> num.

Definition add (x y : num) : num := rnd (jadd x y).
Definition sub (x y : num) : num := rnd (jsub x y).
Definition mul (x y : num) : num := rnd (jmul x y).
Definition div (x y : num) : num := rnd (jdiv x y).

(** A decimal literal of the source text. *)
Definition literal (q : Q) : num := rnd (Fin q).

Definition half (x : num) : num := div x (of_Z 2).

Definition clip_targetTime (asset : VisualAsset) (elapsed sceneDuration : num) : num :=
  let timeInScene := jrem elapsed sceneDuration in
  let vStart := or_default (videoStart asset) (of_Z 0) in
  let vEnd := or_default (videoEnd asset) (add vStart (of_Z 5)) in
  let clipLen := sub vEnd vStart in
  add vStart (jrem timeInScene clipLen).

(** The body of [drawFrame]; [now] is [audioContext.currentTime]. *)
Definition drawFrame (env : Env) (now : num) (videoEl : VideoEl) : Tick :=
  let elapsed := sub now (startTime env) in
  let progress := jmin (of_Z 100) (mul (div elapsed (duration env)) (of_Z 100)) in
  if jge elapsed (duration env) then
    mkTick [onProgress progress; setTimeout_stop 500] None Returned
  else
    let index := jfloor (div elapsed (sceneDuration env)) in
    let safeIndex :=
      jmin index (sub (of_nat (List.length (assets env))) (of_Z 1)) in
    let clear :=
      [onProgress progress;
       fillRect (of_Z 0) (of_Z 0) (canvas_width env) (canvas_height env)] in
    match get (assets env) safeIndex with
    | None => mkTick clear (Some safeIndex) Threw
    | Some asset =>
        let body :=
          match is_image asset, get (imgs env) safeIndex with
          | true, Some (Some img) =>
              let scale := jmax (div (canvas_width env) (width img))
                                (div (canvas_height env) (height img)) in
              let x := sub (half (canvas_width env)) (mul (half (width img)) scale) in
              let y := sub (half (canvas_height env)) (mul (half (height img)) scale) in
              [drawImage (ImageSource img) x y
                 (mul (width img) scale) (mul (height img) scale)]
          | _, _ =>
              if is_video asset && (2 <=? readyState videoEl)%Z then
                let targetTime := clip_targetTime asset elapsed (sceneDuration env) in
                let sync :=
                  if jgt (jabs (sub (currentTime videoEl) targetTime)) (literal (2 # 10))
                  then [seek targetTime] else [] in
                let vw := videoWidth videoEl in
                let vh := videoHeight videoEl in
                let render :=
                  if jgt vw (of_Z 0) && jgt vh (of_Z 0) then
                    let scale := jmax (div (canvas_width env) vw)
                                      (div (canvas_height env) vh) in
                    let x := sub (half (canvas_width env)) (mul (half vw) scale) in
                    let y := sub (half (canvas_height env)) (mul (half vh) scale) in
                    [drawImage (VideoSource videoEl) x y (mul vw scale) (mul vh scale)]
                  else [] in
                sync ++ render
              else []
          end in
        mkTick (clear ++ body ++ [requestAnimationFrame]) (Some safeIndex) Rescheduled
    end.

(** The scene duration as [renderVideo] computes it. *)
Definition scene_duration (duration : num) (assets : list VisualAsset) : num :=
  div duration (of_nat (List.length assets)).

(** The [while (currentTime < duration)] loop of the frame sampler. *)
Fixpoint sample_loop (fuel : nat) (ctx : bool) (f : MediaProcessing.VideoFile)
         (intervalSeconds currentTime : num) (frames : list MediaProcessing.VideoFrame)
  : option MediaProcessing.Outcome :=
  match fuel with
  | O => None
  | S fuel' =>
      if jlt currentTime (MediaProcessing.duration f) then
        if ctx then
          match MediaProcessing.still f currentTime with
          | Some data =>
              sample_loop fuel' ctx f intervalSeconds
                (add currentTime intervalSeconds)
                (frames ++ [MediaProcessing.mkVideoFrame (jround currentTime) data])
          | None => Some (MediaProcessing.Rejected MediaProcessing.CaptureError)
          end
        else
          sample_loop fuel' ctx f intervalSeconds
            (add currentTime intervalSeconds) frames
      else Some (MediaProcessing.Resolved frames)
  end.

(** [extractFramesFromVideo(videoFile, intervalSeconds = 3)]. *)
Definition extractFramesFromVideo (fuel : nat) (ctx : bool)
           (videoFile : MediaProcessing.VideoFile)
           (intervalSeconds : option num) : option MediaProcessing.Outcome :=
  let intervalSeconds :=
    match intervalSeconds with Some s => s | None => of_Z 3 end in
  if MediaProcessing.loads videoFile
  then sample_loop fuel ctx videoFile intervalSeconds (of_Z 0) []
  else Some (MediaProcessing.Rejected MediaProcessing.LoadError).

End Arith.

End Machine.

(* ===================================================================== *)
(** * The vocabulary of the design document                               *)
(* ===================================================================== *)

Module Design.

Import Types VideoUtils.

Definition clampZ (lo hi x : Z) : Z := Z.max lo (Z.min x hi).

(** The active scene index as the design document defines it:
    [clamp(floor(t / (D / n)), 0, n - 1)]. *)
Definition spec_scene_index (D : Q) (n : nat) (t : Q) : Z :=
  clampZ 0 (Z.of_nat n - 1) (Qfloor (t / (D / inject_Z (Z.of_nat n)))).

(** The mathematical remainder, [a mod b] in [[0, b)] for [b > 0]. *)
Definition Qmod (a b : Q) : Q := a - b * inject_Z (Qfloor (a / b)).

Definition from_option (d : Q) (o : option Q) : Q :=
  match o with Some q => q | None => d end.

(** The target position as the design document defines it; [clipEnd]
    is [None] when the asset does not set it. *)
Definition spec_targetTime (clipStart : Q) (clipEnd : option Q)
           (elapsed sceneDuration : Q) : Q :=
  let clipEnd := match clipEnd with Some e => e | None => clipStart + 5 end in
  clipStart + Qmod (Qmod elapsed sceneDuration) (clipEnd - clipStart).


(** The values [drawFrame] works with at a given clock reading. *)
Definition elapsed_of (env : Env) (now : num) : num := jsub now (startTime env).

Definition safeIndex_of (env : Env) (now : num) : num :=
  jmin (jfloor (jdiv (elapsed_of env now) (sceneDuration env)))
       (jsub (of_nat (List.length (assets env))) (of_Z 1)).

Definition progress_of (env : Env) (now : num) : num :=
  jmin (of_Z 100) (jmul (jdiv (elapsed_of env now) (duration env)) (of_Z 100)).



(** The percentages reported so far, oldest first. *)
Fixpoint reports (log : list (Z * Action)) : list num :=
  match log with
  | [] => []
  | (_, onProgress p) :: r => p :: reports r
  | _ :: r => reports r
  end.

(** When the stop timer was armed, and with which delay. *)
Fixpoint timers (log : list (Z * Action)) : list (Z * Z) :=
  match log with
  | [] => []
  | (t, setTimeout_stop ms) :: r => (t, ms) :: timers r
  | _ :: r => timers r
  end.

(** When [recorder.stop()] was called. *)
Fixpoint stops (log : list (Z * Action)) : list Z :=
  match log with
  | [] => []
  | (t, recorder_stop) :: r => t :: stops r
  | _ :: r => stops r
  end.

(** When the output blob was assembled, and from what. *)
Fixpoint blobs (log : list (Z * Action)) : list (Z * Blob) :=
  match log with
  | [] => []
  | (t, new_Blob b) :: r => (t, b) :: blobs r
  | _ :: r => blobs r
  end.

(** The calls of a tick that draws: everything but timer and recorder calls. *)
Definition draws (a : Action) : bool :=
  match a with
  | onProgress _ | fillRect _ _ _ _ | drawImage _ _ _ _ _
  | VideoUtils.seek _ | requestAnimationFrame => true
  | _ => false
  end.

(** The variables every tick of a render of [assets] over [audioBuffer]
    for [platform] closes over: the surface of the platform, the asset
    list, the duration and the equal share of it per asset. *)
Definition render_env (audioBuffer : AudioBuffer) (assets : list VisualAsset)
           (platform : Platform) (e : Env) : Prop :=
  canvas_width e = (if isLandscape platform then of_Z 1920 else of_Z 1080)
  /\ canvas_height e = (if isLandscape platform then of_Z 1080 else of_Z 1920)
  /\ VideoUtils.assets e = assets
  /\ duration e = Fin (buffer_duration audioBuffer)
  /\ sceneDuration e
     = jdiv (Fin (buffer_duration audioBuffer)) (of_nat (List.length assets))
  /\ exists st, startTime e = Fin st.

(** The order of finalization, as a property of a session: the timer is
    armed at most once, with a delay of 500 ms; the recorder is stopped at
    most once, not before the delay has passed; the blob is assembled at
    most once, after the stop, from the chunks accumulated by then. *)
Definition finalizes_in_order (s : Session) : Prop :=
  match phase s with
  | Settling due =>
      exists tf, timers (log s) = [(tf, 500%Z)] /\ due = (tf + 500)%Z
                 /\ stops (log s) = [] /\ blobs (log s) = []
  | Finalizing =>
      exists tf ts, timers (log s) = [(tf, 500%Z)] /\ stops (log s) = [ts]
                    /\ (tf + 500 <= ts)%Z /\ (ts <= wall s)%Z
                    /\ blobs (log s) = []
  | Done b =>
      exists tf ts tb, timers (log s) = [(tf, 500%Z)] /\ stops (log s) = [ts]
                       /\ blobs (log s) = [(tb, b)]
                       /\ (tf + 500 <= ts)%Z /\ (ts <= tb)%Z
                       /\ b = mkBlob (chunks s) (mimeType s)
  | _ => timers (log s) = [] /\ stops (log s) = [] /\ blobs (log s) = []
  end.




(** The timestamps the design document promises for a source of duration
    [d] sampled every [s] seconds: [round(k * s)] for [k] below
    [ceil(d / s)], where [round] is the nearest integer, a tie going up. *)
Definition spec_frame_count (d s : Q) : nat := Z.to_nat (Qceiling (d / s)).

Definition spec_timestamp (s : Q) (k : nat) : num :=
  of_Z (Qfloor (inject_Z (Z.of_nat k) * s + (1 # 2))).

Definition spec_timestamps (d s : Q) : list num :=
  map (spec_timestamp s) (seq 0 (spec_frame_count d s)).

(** Removing the earliest occurrence of a listener from the registry. *)
Fixpoint remove_first (l : Logger.Listener) (ls : list Logger.Listener)
  : list Logger.Listener :=
  match ls with
  | [] => []
  | x :: r => if Nat.eqb x l then r else x :: remove_first l r
  end.

(** How often a listener is registered. *)
Definition registrations (ls : list Logger.Listener) (l : Logger.Listener) : nat :=
  count_occ Nat.eq_dec ls l.

End Design.

(* ===================================================================== *)
(** * Further vocabulary: views of logs, events and loops                 *)
(* ===================================================================== *)

Module Views.

Import Types VideoUtils.

(** The settlements of the promise among the calls made, oldest first. *)
Fixpoint settlements (log : list (Z * Action)) : list Action :=
  match log with
  | [] => []
  | (_, reject m) :: r => reject m :: settlements r
  | (_, resolve b) :: r => resolve b :: settlements r
  | _ :: r => settlements r
  end.

(** The chunks that [ondataavailable] keeps from a sequence of events:
    the sizes of the data events that are not empty, in order. *)
Fixpoint kept_data (os : list Occurrence) : list Z :=
  match os with
  | [] => []
  | o :: r =>
      match what o with
      | DataAvailable size => if (0 <? size)%Z then size :: kept_data r else kept_data r
      | _ => kept_data r
      end
  end.

(** The scene index expression of [updateSlideshow]. *)
Definition preview_index (assets : list VisualAsset) (buffer : AudioBuffer)
           (elapsed : num) : num :=
  let sceneDuration := jdiv (Fin (buffer_duration buffer)) (of_nat (List.length assets)) in
  jrem (jfloor (jdiv elapsed sceneDuration)) (of_nat (List.length assets)).




Definition is_seek (a : Action) : bool :=
  match a with VideoUtils.seek _ => true | _ => false end.

Definition is_frame_request (a : Action) : bool :=
  match a with requestAnimationFrame => true | _ => false end.

(** The settlements a session in a given phase has made. *)
Definition settled_as (p : Phase) : list Action :=
  match p with
  | Failed m => [reject m]
  | Done b => [resolve b]
  | _ => []
  end.

(** The asset that the assembly loop pushes for one item of the plan:
    the generated one, or the fallback with a placeholder of the size of
    the platform. *)
Definition pushed (generateAsset : Generation.PlanItem -> Platform -> option VisualAsset)
           (makePlaceholder : string -> num -> num -> string)
           (selectedPlatform : Platform) (item : Generation.PlanItem) : VisualAsset :=
  match generateAsset item selectedPlatform with
  | Some a => a
  | None =>
      Generation.fallback
        (makePlaceholder (Generation.description item)
           (Generation.placeholder_width selectedPlatform)
           (Generation.placeholder_height selectedPlatform)) item
  end.

(** What attaching the demo video does to one asset. *)
Definition with_video (videoUrl : option string) (a : VisualAsset) : VisualAsset :=
  match videoUrl with
  | Some url =>
      if is_video a
      then mkVisualAsset (type a) (base64 a) (Some url) (videoStart a)
                         (videoEnd a) (Types.description a) (prompt a)
      else a
  | None => a
  end.

(** The listeners a callback subscribes, in the order of its calls. *)
Fixpoint subscribed (os : list Logger.RegOp) : list Logger.Listener :=
  match os with
  | [] => []
  | Logger.DoSubscribe l :: r => l :: subscribed r
  | Logger.DoUnsubscribe _ :: r => subscribed r
  end.

(** A callback that returns without an exception and without calling an
    unsubscribe handle; it may subscribe listeners. *)
Definition keeps_registrations (r : Logger.Reaction) : bool :=
  negb (Logger.throws r)
  && forallb (fun o => match o with
                       | Logger.DoSubscribe _ => true
                       | Logger.DoUnsubscribe _ => false
                       end) (Logger.ops r).

(** A text all of whose characters are ASCII: its characters are its
    UTF-16 code units, so that [String.length] is the [length] of the
    JavaScript string and [String.substring] its [substring]. *)
Fixpoint ascii_only (s : string) : bool :=
  match s with
  | EmptyString => true
  | String c r => (Ascii.nat_of_ascii c <? 128)%nat && ascii_only r
  end.

End Views.
(* ===================================================================== *)
(** * Vocabulary for the rounded arithmetic                               *)
(* ===================================================================== *)

Module MachineViews.

Import Types VideoUtils.

Section Arith.

Variable rnd : num -> num.

(** The values [drawFrame] works with at a given clock reading. *)
Definition elapsed_of (env : Env) (now : num) : num :=
  Machine.sub rnd now (startTime env).

Definition quotient_of (env : Env) (now : num) : num :=
  Machine.div rnd (elapsed_of env now) (sceneDuration env).

Definition last_index (env : Env) : num :=
  Machine.sub rnd (of_nat (List.length (assets env))) (of_Z 1).

Definition safeIndex_of (env : Env) (now : num) : num :=
  jmin (jfloor (quotient_of env now)) (last_index env).

Definition progress_of (env : Env) (now : num) : num :=
  jmin (of_Z 100)
       (Machine.mul rnd (Machine.div rnd (elapsed_of env now) (duration env)) (of_Z 100)).

(** The four geometric arguments of a cover-fit [drawImage] of a [sw] by
    [sh] source on a [cw] by [ch] surface. *)
Definition cover_fit (cw ch sw sh : num) : num * num * num * num :=
  let scale := jmax (Machine.div rnd cw sw) (Machine.div rnd ch sh) in
  (Machine.sub rnd (Machine.half rnd cw) (Machine.mul rnd (Machine.half rnd sw) scale),
   Machine.sub rnd (Machine.half rnd ch) (Machine.mul rnd (Machine.half rnd sh) scale),
   Machine.mul rnd sw scale,
   Machine.mul rnd sh scale).

(** The value of [currentTime] at the start of iteration [k] of the
    sampling loop: [0] followed by [k] rounded additions of the step. *)
Fixpoint position (step : num) (k : nat) : num :=
  match k with
  | O => of_Z 0
  | S k' => Machine.add rnd (position step k') step
  end.

End Arith.

(** The rational value of a finite number. *)
Definition finite (x : num) : Q :=
  match x with
  | Fin r => r
  | _ => 0
  end.

(** The number nearest to a decimal literal. *)
Definition double (q : Q) : Q := finite (Binary64.round64 q).

End MachineViews.

(* ===================================================================== *)
(** * Sample data used by the examples                                    *)
(* ===================================================================== *)

Module Samples.

Import Types VideoUtils.

Local Open Scope string_scope.

Definition still_image (b : string) : VisualAsset :=
  mkVisualAsset image (Some b) None None None "a still" "prompt".

(** A clip asset whose [videoEnd] is not set. *)
Definition open_clip (start : Z) : VisualAsset :=
  mkVisualAsset video None (Some "blob:demo") (Some (of_Z start)) None
                "a clip" "prompt".

Definition clip (start stop : Z) : VisualAsset :=
  mkVisualAsset video None (Some "blob:demo") (Some (of_Z start))
                (Some (of_Z stop)) "a clip" "prompt".

Definition three_stills : list VisualAsset :=
  [still_image "a"; still_image "b"; still_image "c"].

Definition photo : Image := mkImage (of_Z 800) (of_Z 600).

(** A playing video element with decoded frames. *)
Definition ready_video (position : Q) : VideoEl :=
  mkVideoEl 4 (Fin position) (of_Z 640) (of_Z 480).

(** A video element that has not buffered a frame yet. *)
Definition cold_video : VideoEl :=
  mkVideoEl 1 (of_Z 0) (of_Z 0) (of_Z 0).

(** The closed-over variables of a 20 second render of one clip asset
    that starts at second 2 and does not set its end. *)
Definition env_clip : Env :=
  mkEnv (of_Z 1920) (of_Z 1080) [open_clip 2] [None]
        (of_Z 20) (jdiv (of_Z 20) (of_nat 1)) (of_Z 0).

(** A 10 second upload whose frames all encode. *)
Definition upload10 : MediaProcessing.VideoFile :=
  MediaProcessing.mkVideoFile true (of_Z 10) (of_Z 640) (of_Z 480)
                              (fun _ => Some "jpeg").

Definition any_host : Host := mkHost true (fun _ => false).

Definition headless_host : Host := mkHost false (fun _ => false).

(** A complete 30 second render of the three stills: the preloads settle
    one second into the audio clock, three frames are drawn, the fourth
    tick sees the end of the narration, the timer fires 500 ms later, the
    recorder delivers its data and stops. *)
Definition render30_events : list Occurrence :=
  [mkOccurrence 100 1 (ImagesSettled [Some photo; Some photo; Some photo] (ready_video 0));
   mkOccurrence 5100 6 (AnimationFrame (ready_video 0));
   mkOccurrence 10100 11 (AnimationFrame (ready_video 0));
   mkOccurrence 25100 26 (AnimationFrame (ready_video 0));
   mkOccurrence 30100 31 (AnimationFrame (ready_video 0));
   mkOccurrence 30600 (63 # 2) TimerFired;
   mkOccurrence 30601 (63 # 2) (DataAvailable 4096);
   mkOccurrence 30602 (63 # 2) RecorderStopped].

Definition render30_start : Session :=
  renderVideo any_host 0 0 (mkAudioBuffer 30) three_stills YOUTUBE.

Definition render30_end : Session :=
  match run render30_start render30_events with
  | Some s => s
  | None => render30_start
  end.

(** A listener (number 1) that calls its own unsubscribe handle when it is
    handed an entry; every other listener only reads the entry. *)
Definition leaves_on_first_log (l : Logger.Listener) (_ : Logger.LogEntry)
  : Logger.Reaction :=
  if Nat.eqb l 1 then Logger.mkReaction [Logger.DoUnsubscribe 1%nat] false
  else Logger.passive.

Definition readers (_ : Logger.Listener) (_ : Logger.LogEntry) : Logger.Reaction :=
  Logger.passive.

End Samples.

(* ===================================================================== *)
(** * Further sample data                                                 *)
(* ===================================================================== *)

Module Samples2.

Import Types VideoUtils.

Local Open Scope string_scope.

(** A host whose recorder supports the two WebM entries without H.264. *)
Definition vp9_host : Host :=
  mkHost true (fun t => String.eqb t "video/webm;codecs=vp9" || String.eqb t "video/webm").

(** A portrait render called with no asset: the preloads settle, then the
    recorder delivers some data. *)
Definition empty_render_start : Session :=
  renderVideo Samples.any_host 0 0 (mkAudioBuffer 30) [] TIKTOK.

Definition empty_render_events : list Occurrence :=
  [mkOccurrence 100 1 (ImagesSettled [] (Samples.ready_video 0));
   mkOccurrence 900 2 (DataAvailable 512)].

Definition empty_render_end : Session :=
  match run empty_render_start empty_render_events with
  | Some s => s
  | None => empty_render_start
  end.

(** A 10 second upload whose frame at second 4 cannot be encoded. *)
Definition flaky10 : MediaProcessing.VideoFile :=
  MediaProcessing.mkVideoFile true (of_Z 10) (of_Z 640) (of_Z 480)
    (fun t => if num_eqb t (of_Z 4) then None else Some "jpeg").

(** Listener 2 throws when it is handed an entry; the others read it. *)
Definition second_throws (l : Logger.Listener) (_ : Logger.LogEntry)
  : Logger.Reaction :=
  if Nat.eqb l 2 then Logger.mkReaction [] true else Logger.passive.

Definition three_listeners : Logger.Registry :=
  Logger.subscribeToLogs 3%nat
    (Logger.subscribeToLogs 2%nat (Logger.subscribeToLogs 1%nat Logger.empty)).

(** A plan of three scenes. *)
Definition plan3 : list Generation.PlanItem :=
  [Generation.mkPlanItem "intro"; Generation.mkPlanItem "demo";
   Generation.mkPlanItem "outro"].

(** An asset service that delivers a clip for the scene called [demo] and
    fails for every other scene. *)
Definition only_demo (item : Generation.PlanItem) (_ : Platform) : option VisualAsset :=
  if String.eqb (Generation.description item) "demo"
  then Some (mkVisualAsset video None None (Some (of_Z 2)) (Some (of_Z 5)) "demo" "clip")
  else None.

(** A placeholder maker that returns the description it was given. *)
Definition echo_placeholder (text : string) (_ _ : num) : string := text.

(** The refs while a preview that was started at second 3 is playing. *)
Definition playing_since_3 : Player.Refs :=
  Player.mkRefs (of_Z 3) (of_Z 0) true true.

(** A host whose recorder supports MP4. *)
Definition mp4_host : Host :=
  mkHost true (fun t => String.eqb t "video/mp4").

(** The render of three stills on the MP4 host, run to its end. *)
Definition mp4_render_end : Session :=
  match run (renderVideo mp4_host 0 0 (mkAudioBuffer 30) Samples.three_stills YOUTUBE)
            Samples.render30_events with
  | Some s => s
  | None => renderVideo mp4_host 0 0 (mkAudioBuffer 30) Samples.three_stills YOUTUBE
  end.

(** A portrait placeholder as the page decodes it, and a portrait render
    of one fallback asset whose preload has settled. *)
Definition portrait_placeholder : Image := mkImage (of_Z 1080) (of_Z 1920).

Definition fallback_render : Session :=
  let start :=
    renderVideo Samples.any_host 0 0 (mkAudioBuffer 30)
                [Generation.fallback "data" (Generation.mkPlanItem "intro")] TIKTOK in
  match run start [mkOccurrence 100 1 (ImagesSettled [Some portrait_placeholder]
                                                      (Samples.cold_video))] with
  | Some s => s
  | None => start
  end.

(** Listener 1 subscribes listener 9 when it is handed an entry; the
    others read it. *)
Definition invites_on_first_log (l : Logger.Listener) (_ : Logger.LogEntry)
  : Logger.Reaction :=
  if Nat.eqb l 1 then Logger.mkReaction [Logger.DoSubscribe 9%nat] false
  else Logger.passive.

End Samples2.

(* ===================================================================== *)
(** * Sample data for the rounded arithmetic                              *)
(* ===================================================================== *)

Module Samples64.

Import Types VideoUtils MachineViews.

Local Open Scope string_scope.

Definition stills (n : nat) : list VisualAsset := repeat (Samples.still_image "a") n.

Definition photos (n : nat) : list (option Image) := repeat (Some Samples.photo) n.

(** The closed-over variables of a landscape render of [n] stills over a
    narration of [seconds] seconds that started at clock reading 0, as
    [renderVideo] sets them. *)
Definition render_env (seconds : Z) (n : nat) : Env :=
  mkEnv (of_Z 1920) (of_Z 1080) (stills n) (photos n) (of_Z seconds)
        (Machine.scene_duration Binary64.rnd (of_Z seconds) (stills n)) (of_Z 0).

(** The last clock reading before second 7, [6.999999999999999]. *)
Definition just_before_7 : Q := double (6999999999999999 # 1000000000000000).

(** The last clock reading before second 3.5, [3.4999999999999996]. *)
Definition just_before_3_5 : Q := double (34999999999999996 # 10000000000000000).

(** An 832 by 1216 portrait image, and a landscape render of it. *)
Definition tall_photo : Image := mkImage (of_Z 832) (of_Z 1216).

Definition tall_env : Env :=
  mkEnv (of_Z 1920) (of_Z 1080) (stills 1) [Some tall_photo] (of_Z 7)
        (Machine.scene_duration Binary64.rnd (of_Z 7) (stills 1)) (of_Z 0).

(** A 20 second landscape render of one clip that starts at second 2. *)
Definition clip_env : Env :=
  mkEnv (of_Z 1920) (of_Z 1080) [Samples.open_clip 2] [None] (of_Z 20)
        (Machine.scene_duration Binary64.rnd (of_Z 20) [Samples.open_clip 2]) (of_Z 0).

(** A one second upload whose frames all encode. *)
Definition upload1 : MediaProcessing.VideoFile :=
  MediaProcessing.mkVideoFile true (of_Z 1) (of_Z 640) (of_Z 480)
                              (fun _ => Some "jpeg").

(** A ten second upload whose canvas cannot be read back: the capture
    throws at every position. *)
Definition unreadable10 : MediaProcessing.VideoFile :=
  MediaProcessing.mkVideoFile true (of_Z 10) (of_Z 640) (of_Z 480)
                              (fun _ => None).

End Samples64.

(* ===================================================================== *)
(** * Facts about the arithmetic                                           *)
(* ===================================================================== *)

Module JsNumFacts.

Lemma Qlt_bool_iff (x y : Q) : Qlt_bool x y = true <-> x < y.
Proof.
  unfold Qlt_bool. rewrite negb_true_iff, <- not_true_iff_false, Qle_bool_iff.
  split; [apply Qnot_le_lt | apply Qlt_not_le].
Qed.

Lemma Qle_bool_false (x y : Q) : Qle_bool x y = false <-> y < x.
Proof.
  rewrite <- not_true_iff_false, Qle_bool_iff.
  split; [apply Qnot_le_lt | apply Qlt_not_le].
Qed.

Lemma Qeq_bool_false (x y : Q) : Qeq_bool x y = false <-> ~ x == y.
Proof. rewrite <- not_true_iff_false, Qeq_bool_iff. tauto. Qed.

Lemma jdiv_fin (a b : Q) : ~ b == 0 -> jdiv (Fin a) (Fin b) = Fin (a / b).
Proof.
  intros Hb. unfold jdiv. apply Qeq_bool_false in Hb. now rewrite Hb.
Qed.

Lemma Qtrunc_nonneg (q : Q) : 0 <= q -> Qtrunc q = Qfloor q.
Proof.
  destruct q as [n d]. unfold Qtrunc, Qfloor, Qle. simpl. intros H.
  apply Z.quot_div_nonneg; lia.
Qed.

Lemma Qdiv_nonneg (a b : Q) : 0 <= a -> 0 < b -> 0 <= a / b.
Proof.
  intros Ha Hb. unfold Qdiv. apply Qmult_le_0_compat; [exact Ha|].
  apply Qlt_le_weak, Qinv_lt_0_compat, Hb.
Qed.

Lemma Qdiv_pos (a b : Q) : 0 < a -> 0 < b -> 0 < a / b.
Proof.
  intros Ha Hb. unfold Qdiv. apply Qmult_lt_0_compat; [exact Ha|].
  apply Qinv_lt_0_compat, Hb.
Qed.

Lemma Qdiv_cancel (a b : Q) : ~ b == 0 -> (a / b) * b == a.
Proof. intros. field. assumption. Qed.

Lemma Qfloor_nonneg (q : Q) : 0 <= q -> (0 <= Qfloor q)%Z.
Proof. intros H. apply (Qfloor_resp_le 0 q) in H. exact H. Qed.

Lemma Qfloor_lt_Z (q : Q) (z : Z) : q < inject_Z z -> (Qfloor q < z)%Z.
Proof.
  intros H. rewrite Zlt_Qlt.
  eapply Qle_lt_trans; [apply Qfloor_le | exact H].
Qed.

Lemma Qfloor_ge_Z (q : Q) (z : Z) : inject_Z z <= q -> (z <= Qfloor q)%Z.
Proof.
  intros H. apply Qfloor_resp_le in H. now rewrite Qfloor_Z in H.
Qed.

End JsNumFacts.
(* ===================================================================== *)
(** * Facts about the rounding                                            *)
(* ===================================================================== *)

Module Binary64Facts.

Import JsNumFacts Binary64.

Lemma pow2_pos (e : Z) : 0 < 2 ^ e.
Proof. apply Qpower_0_lt. reflexivity. Qed.

Lemma pow2_nonzero (e : Z) : ~ 2 ^ e == 0.
Proof. intros E. pose proof (pow2_pos e) as H. rewrite E in H. discriminate. Qed.

Lemma pow2_plus (a b : Z) : 2 ^ (a + b) == 2 ^ a * 2 ^ b.
Proof. apply Qpower_plus. discriminate. Qed.

Lemma pow2_succ (e : Z) : 2 ^ (e + 1) == 2 * 2 ^ e.
Proof. rewrite pow2_plus. change (2 ^ 1) with 2. ring. Qed.

Lemma pow2_le (a b : Z) : (a <= b)%Z -> 2 ^ a <= 2 ^ b.
Proof. intros H. apply Qpower_le_compat_l; [exact H | discriminate]. Qed.

Lemma pow2_lt (a b : Z) : (a < b)%Z -> 2 ^ a < 2 ^ b.
Proof. intros H. apply Qpower_lt_compat_l; [exact H | reflexivity]. Qed.

Lemma pow2_Z (a : Z) : (0 <= a)%Z -> inject_Z (2 ^ a) == 2 ^ a.
Proof. intros H. now rewrite Zpower_Qpower. Qed.

Lemma Qlog2_spec (x : Q) :
  0 < x -> 2 ^ Qlog2 x <= x /\ x < 2 ^ (Qlog2 x + 1).
Proof.
  intros Hx. unfold Qlog2.
  destruct x as [n d]. cbn [Qnum Qden].
  assert (Hn : (0 < n)%Z) by (unfold Qlt in Hx; cbn in Hx; lia).
  set (a := Z.log2 n). set (b := Z.log2 (Zpos d)).
  assert (Ha0 : (0 <= a)%Z) by apply Z.log2_nonneg.
  assert (Hb0 : (0 <= b)%Z) by apply Z.log2_nonneg.
  destruct (Z.log2_spec n Hn) as [La Ua]. fold a in La, Ua.
  destruct (Z.log2_spec (Zpos d) ltac:(lia)) as [Lb Ub]. fold b in Lb, Ub.
  unfold Z.succ in Ua, Ub.
  rewrite Zle_Qle, pow2_Z in La by lia. rewrite Zlt_Qlt, pow2_Z, pow2_succ in Ua by lia.
  rewrite Zle_Qle, pow2_Z in Lb by lia. rewrite Zlt_Qlt, pow2_Z, pow2_succ in Ub by lia.
  assert (Ex : (n # d) * inject_Z (Zpos d) == inject_Z n).
  { rewrite (Qmake_Qdiv n d). field. discriminate. }
  assert (Ek : 2 ^ (a - b) * 2 ^ b == 2 ^ a).
  { rewrite <- pow2_plus. replace (a - b + b)%Z with a by lia. reflexivity. }
  assert (Ek1 : 2 ^ (a - b - 1) * 2 == 2 ^ (a - b)).
  { replace (a - b)%Z with (a - b - 1 + 1)%Z at 2 by lia. rewrite pow2_succ. ring. }
  pose proof (pow2_pos a). pose proof (pow2_pos b).
  pose proof (pow2_pos (a - b)). pose proof (pow2_pos (a - b - 1)).
  set (x := n # d) in *. set (dq := inject_Z (Zpos d)) in *.
  set (nq := inject_Z n) in *.
  set (A := 2 ^ a) in *. set (B := 2 ^ b) in *.
  set (P := 2 ^ (a - b)) in *. set (P1 := 2 ^ (a - b - 1)) in *.
  destruct (Qle_bool P x) eqn:E.
  - apply Qle_bool_iff in E. split; [exact E|].
    rewrite pow2_succ. fold P. nra.
  - assert (E' : x < P).
    { destruct (Qlt_le_dec x P) as [L|L]; [exact L|].
      apply Qle_bool_iff in L. congruence. }
    replace (a - b - 1 + 1)%Z with (a - b)%Z by lia. fold P. fold P1.
    split; [|exact E']. nra.
Qed.

Lemma Qlog2_unique (x : Q) (e : Z) :
  2 ^ e <= x -> x < 2 ^ (e + 1) -> Qlog2 x = e.
Proof.
  intros Lo Hi.
  assert (Hx : 0 < x) by (pose proof (pow2_pos e); lra).
  destruct (Qlog2_spec x Hx) as [Lo' Hi'].
  assert (H1 : (Qlog2 x < e + 1)%Z).
  { apply (Qpower_lt_compat_l_inv 2); [|reflexivity]. lra. }
  assert (H2 : (e < Qlog2 x + 1)%Z).
  { apply (Qpower_lt_compat_l_inv 2); [|reflexivity]. lra. }
  lia.
Qed.

Lemma rne_comp (x y : Q) : x == y -> rne x = rne y.
Proof.
  intros E. unfold rne.
  assert (F : Qfloor x = Qfloor y) by (now rewrite E).
  rewrite F.
  assert (C : Qcompare (x - inject_Z (Qfloor y)) (1 # 2)
              = Qcompare (y - inject_Z (Qfloor y)) (1 # 2)) by (now rewrite E).
  now rewrite C.
Qed.

Lemma rne_near (y : Q) :
  - (1 # 2) <= inject_Z (rne y) - y /\ inject_Z (rne y) - y <= 1 # 2.
Proof.
  unfold rne. pose proof (Qfloor_le y) as Lo. pose proof (Qlt_floor y) as Hi.
  rewrite inject_Z_plus in Hi. change (inject_Z 1) with 1 in Hi.
  set (f := Qfloor y) in *.
  destruct (Qcompare (y - inject_Z f) (1 # 2)) eqn:C.
  - apply Qeq_alt in C. destruct (Z.even f); [|rewrite inject_Z_plus; change (inject_Z 1) with 1];
      split; lra.
  - apply Qlt_alt in C. split; lra.
  - apply Qgt_alt in C. rewrite inject_Z_plus. change (inject_Z 1) with 1. split; lra.
Qed.

Lemma rne_Z (k : Z) : rne (inject_Z k) = k.
Proof.
  unfold rne. rewrite Qfloor_Z.
  assert (C : Qcompare (inject_Z k - inject_Z k) (1 # 2) = Lt).
  { apply (proj1 (Qlt_alt _ _)). ring_simplify (inject_Z k - inject_Z k). reflexivity. }
  now rewrite C.
Qed.

Lemma rne_nonneg (y : Q) : 0 <= y -> (0 <= rne y)%Z.
Proof.
  intros Hy. unfold rne.
  assert (Hf : (0 <= Qfloor y)%Z).
  { change 0%Z with (Qfloor 0). now apply Qfloor_resp_le. }
  destruct (Qcompare _ _); [destruct (Z.even _)| |]; lia.
Qed.

Lemma rne_nonpos (y : Q) : y <= 0 -> (rne y <= 0)%Z.
Proof.
  intros Hy. unfold rne.
  assert (Hf : (Qfloor y <= 0)%Z).
  { change 0%Z with (Qfloor 0). now apply Qfloor_resp_le. }
  pose proof (Qfloor_le y) as Lo.
  destruct (Z.eq_dec (Qfloor y) 0) as [E|N].
  - rewrite E in *. assert (Ey : y == 0) by (change (inject_Z 0) with 0 in Lo; lra).
    assert (C : Qcompare (y - inject_Z 0) (1 # 2) = Lt).
    { apply (proj1 (Qlt_alt _ _)). change (inject_Z 0) with 0. lra. }
    rewrite C. lia.
  - destruct (Qcompare _ _); [destruct (Z.even _)| |]; lia.
Qed.

Lemma rne_monotone (x y : Q) : x <= y -> (rne x <= rne y)%Z.
Proof.
  intros H.
  destruct (Z_le_gt_dec (rne x) (rne y)) as [L|G]; [exact L|exfalso].
  pose proof (rne_near x) as [Lx Ux]. pose proof (rne_near y) as [Ly Uy].
  assert (G' : inject_Z (rne y) + 1 <= inject_Z (rne x)).
  { change 1 with (inject_Z 1). rewrite <- inject_Z_plus, <- Zle_Qle. lia. }
  (* then x = y - 1/2 ... both are ties around the same half-integer *)
  assert (Ex : inject_Z (rne x) - x == 1 # 2) by lra.
  assert (Ey : inject_Z (rne y) - y == - (1 # 2)) by lra.
  assert (Exy : x == y) by lra.
  rewrite (rne_comp x y Exy) in G. lia.
Qed.

Lemma Qlog2_comp (a b : Q) : 0 < a -> a == b -> Qlog2 a = Qlog2 b.
Proof.
  intros Ha E. destruct (Qlog2_spec a Ha) as [Lo Hi].
  symmetry. apply Qlog2_unique; now rewrite <- E.
Qed.

Lemma Qabs_nonzero (a : Q) : ~ a == 0 -> 0 < Qabs a.
Proof.
  intros N. destruct (Qlt_le_dec 0 a) as [P|P].
  - rewrite Qabs_pos; lra.
  - rewrite Qabs_neg by exact P.
    apply Qle_lteq in P. destruct P as [P|P]; [lra | contradiction].
Qed.

Lemma ulp_exponent_comp (a b : Q) : ~ a == 0 -> a == b -> ulp_exponent a = ulp_exponent b.
Proof.
  intros N E. unfold ulp_exponent.
  rewrite (Qlog2_comp (Qabs a) (Qabs b)); [reflexivity | now apply Qabs_nonzero | now rewrite E].
Qed.

Lemma rounded_zero (a : Q) : a == 0 -> rounded a == 0.
Proof.
  intros E. unfold rounded.
  pose proof (pow2_nonzero (ulp_exponent a)) as Np.
  set (p := 2 ^ ulp_exponent a) in *.
  assert (Ey : a / p == inject_Z 0).
  { rewrite E. change (inject_Z 0) with 0. field. exact Np. }
  rewrite (rne_comp _ _ Ey), rne_Z. change (inject_Z 0) with 0. ring.
Qed.

Lemma rounded_comp (a b : Q) : a == b -> rounded a == rounded b.
Proof.
  intros E. destruct (Qeq_dec a 0) as [Z0|N].
  - rewrite (rounded_zero a Z0), (rounded_zero b); [reflexivity | now rewrite <- E].
  - unfold rounded. rewrite (ulp_exponent_comp a b N E).
    set (p := 2 ^ ulp_exponent b).
    assert (Ey : a / p == b / p) by (now rewrite E).
    now rewrite (rne_comp _ _ Ey).
Qed.

Lemma round64_comp (x y : Q) : x == y -> round64 x = round64 y.
Proof. intros E. unfold round64. now rewrite (Qred_complete x y E). Qed.

Lemma round64_zero (x : Q) : x == 0 -> round64 x = Fin 0.
Proof.
  intros E. unfold round64.
  assert (B : Qeq_bool (Qred x) 0 = true) by (apply Qeq_bool_iff; now rewrite Qred_correct).
  now rewrite B.
Qed.

(** The three ways a rounding can end. *)
Lemma round64_cases (x : Q) :
  ~ x == 0 ->
  (exists r, round64 x = Fin r /\ r == rounded x /\ Qabs (rounded x) < 2 ^ 1024)
  \/ (round64 x = PInf /\ 0 < x /\ 2 ^ 1024 <= Qabs (rounded x))
  \/ (round64 x = NInf /\ x < 0 /\ 2 ^ 1024 <= Qabs (rounded x)).
Proof.
  intros N. unfold round64.
  assert (B : Qeq_bool (Qred x) 0 = false).
  { destruct (Qeq_bool (Qred x) 0) eqn:E; [|reflexivity].
    apply Qeq_bool_iff in E. rewrite Qred_correct in E. contradiction. }
  rewrite B.
  assert (R : Qred (rounded (Qred x)) == rounded x).
  { rewrite Qred_correct. apply rounded_comp, Qred_correct. }
  destruct (Qle_bool (2 ^ 1024) (Qabs (Qred (rounded (Qred x))))) eqn:O.
  - apply Qle_bool_iff in O. rewrite R in O. right.
    destruct (Qle_bool 0 (Qred x)) eqn:S.
    + apply Qle_bool_iff in S. rewrite Qred_correct in S. left.
      repeat split; [|exact O]. apply Qle_lteq in S. destruct S as [S|S]; [exact S|].
      elim N. now symmetry.
    + right. repeat split; [|exact O].
      destruct (Qlt_le_dec x 0) as [L|L]; [exact L|].
      rewrite <- (Qred_correct x) in L. apply Qle_bool_iff in L. congruence.
  - left. eexists. split; [reflexivity|]. split; [exact R|].
    destruct (Qlt_le_dec (Qabs (rounded x)) (2 ^ 1024)) as [L|L]; [exact L|].
    rewrite <- R in L. apply Qle_bool_iff in L. congruence.
Qed.

Lemma rounded_nonneg (x : Q) : 0 <= x -> 0 <= rounded x.
Proof.
  intros H. unfold rounded. pose proof (pow2_pos (ulp_exponent x)) as P.
  assert (Hy : 0 <= x / 2 ^ ulp_exponent x).
  { apply Qle_shift_div_l; [exact P|]. lra. }
  apply rne_nonneg in Hy. rewrite (Zle_Qle 0) in Hy.
  change (inject_Z 0) with 0 in Hy. nra.
Qed.

Lemma rounded_nonpos (x : Q) : x <= 0 -> rounded x <= 0.
Proof.
  intros H. unfold rounded. pose proof (pow2_pos (ulp_exponent x)) as P.
  assert (Hy : x / 2 ^ ulp_exponent x <= 0).
  { apply Qle_shift_div_r; [exact P|]. lra. }
  apply rne_nonpos in Hy. rewrite Zle_Qle in Hy.
  change (inject_Z 0) with 0 in Hy. nra.
Qed.

(** Rounding keeps the sign. *)
Lemma round64_nonneg (x : Q) :
  0 <= x -> round64 x = PInf \/ exists r, round64 x = Fin r /\ 0 <= r.
Proof.
  intros H. destruct (Qeq_dec x 0) as [E|N].
  - right. exists 0. split; [now apply round64_zero | lra].
  - destruct (round64_cases x N) as [(r & E & Hr & _)|[[E _]|[_ [L _]]]].
    + right. exists r. split; [exact E|]. rewrite Hr. now apply rounded_nonneg.
    + now left.
    + lra.
Qed.

Lemma round64_nonpos (x : Q) :
  x <= 0 -> round64 x = NInf \/ exists r, round64 x = Fin r /\ r <= 0.
Proof.
  intros H. destruct (Qeq_dec x 0) as [E|N].
  - right. exists 0. split; [now apply round64_zero | lra].
  - destruct (round64_cases x N) as [(r & E & Hr & _)|[[_ [L _]]|[E _]]].
    + right. exists r. split; [exact E|]. rewrite Hr. now apply rounded_nonpos.
    + lra.
    + now left.
Qed.

(** The distance to the rounded value is at most half a unit in the last
    place. *)
Lemma rounded_near (x : Q) :
  - (2 ^ ulp_exponent x) <= 2 * (rounded x - x)
  /\ 2 * (rounded x - x) <= 2 ^ ulp_exponent x.
Proof.
  unfold rounded. pose proof (pow2_pos (ulp_exponent x)) as P.
  set (p := 2 ^ ulp_exponent x) in *.
  assert (Np : ~ p == 0) by (intros E; rewrite E in P; discriminate).
  destruct (rne_near (x / p)) as [Lo Hi].
  assert (E : x / p * p == x) by (field; exact Np).
  set (y := x / p) in *. set (m := inject_Z (rne y)) in *. nra.
Qed.

Lemma Qabs_inject_Z (m : Z) : Qabs (inject_Z m) == inject_Z (Z.abs m).
Proof. unfold inject_Z. symmetry. apply Zabs_Qabs. Qed.

(** A number with at most 53 significant bits, whose last bit is not
    below that of the subnormal numbers, rounds to itself. *)
Lemma rounded_dyadic (m e : Z) :
  (Z.abs m < 2 ^ 53)%Z -> (-1074 <= e)%Z ->
  rounded (inject_Z m * 2 ^ e) == inject_Z m * 2 ^ e.
Proof.
  intros Hm He. set (x := inject_Z m * 2 ^ e).
  pose proof (pow2_pos e) as Pe.
  destruct (Z.eq_dec m 0) as [->|Nm].
  { rewrite rounded_zero; unfold x; change (inject_Z 0) with 0; ring. }
  assert (Hax : Qabs x == inject_Z (Z.abs m) * 2 ^ e).
  { unfold x. rewrite Qabs_Qmult, (Qabs_pos (2 ^ e)) by lra.
    now rewrite Qabs_inject_Z. }
  assert (Hpos : 0 < Qabs x).
  { rewrite Hax. assert (0 < inject_Z (Z.abs m)) by (rewrite <- (Zlt_Qlt 0); lia). nra. }
  assert (HE : (ulp_exponent x <= e)%Z).
  { unfold ulp_exponent. destruct (Qlog2_spec _ Hpos) as [Lo _].
    assert (Hlt : 2 ^ Qlog2 (Qabs x) < 2 ^ (53 + e)).
    { eapply Qle_lt_trans; [exact Lo|]. rewrite Hax, pow2_plus.
      assert (inject_Z (Z.abs m) < 2 ^ 53).
      { rewrite <- pow2_Z by lia. rewrite <- Zlt_Qlt. exact Hm. }
      pose proof (pow2_pos 53). nra. }
    apply Qpower_lt_compat_l_inv in Hlt; [|reflexivity]. lia. }
  set (E := ulp_exponent x) in *.
  assert (Hy : x / 2 ^ E == inject_Z (m * 2 ^ (e - E))).
  { rewrite inject_Z_mult, pow2_Z by lia. unfold x.
    replace e with ((e - E) + E)%Z at 1 by lia. rewrite pow2_plus.
    field. apply pow2_nonzero. }
  unfold rounded. fold E. rewrite (rne_comp _ _ Hy), rne_Z, <- Hy.
  field. apply pow2_nonzero.
Qed.

Lemma representable_dyadic (q : Q) (m e : Z) :
  q == inject_Z m * 2 ^ e ->
  (Z.abs m < 2 ^ 53)%Z -> (-1074 <= e)%Z -> Qabs q < 2 ^ 1024 ->
  representable q.
Proof.
  intros Eq Hm He Hov. unfold representable.
  destruct (Qeq_dec q 0) as [E|N].
  { rewrite (round64_zero q E). cbn. now symmetry. }
  assert (R : rounded q == q).
  { rewrite (rounded_comp _ _ Eq), rounded_dyadic by assumption. now symmetry. }
  destruct (round64_cases q N) as [(r & -> & Hr & _)|[[_ [_ O]]|[_ [_ O]]]].
  - cbn. now rewrite Hr.
  - rewrite R in O. lra.
  - rewrite R in O. lra.
Qed.

(** Every integer below [2 ^ 53] in absolute value is a binary64 number. *)
Lemma representable_Z (k : Z) : (Z.abs k < 2 ^ 53)%Z -> representable (inject_Z k).
Proof.
  intros Hk. apply (representable_dyadic _ k 0); try lia.
  - change (2 ^ 0) with 1. ring.
  - rewrite Qabs_inject_Z.
    assert (inject_Z (Z.abs k) < 2 ^ 53).
    { rewrite <- pow2_Z by lia. now rewrite <- Zlt_Qlt. }
    pose proof (pow2_lt 53 1024 ltac:(lia)). lra.
Qed.

Lemma round64_Z (k : Z) :
  (Z.abs k < 2 ^ 53)%Z -> exists r, round64 (inject_Z k) = Fin r /\ r == inject_Z k.
Proof.
  intros Hk. pose proof (representable_Z k Hk) as H. unfold representable in H.
  destruct (round64 (inject_Z k)) as [r| | |]; try contradiction. now exists r.
Qed.

(** In the normal range the relative error of a rounding is at most the
    unit roundoff, and a result below [2 ^ 1023] does not overflow. *)
Lemma round64_relative (x : Q) :
  2 ^ (-1022) <= x -> x < 2 ^ 1023 ->
  exists r, round64 x = Fin r /\ x * (1 - u) <= r /\ r <= x * (1 + u).
Proof.
  intros Lo Hi.
  pose proof (pow2_pos (-1022)) as P0.
  assert (Hx : 0 < x) by lra.
  assert (N : ~ x == 0) by (intros E; rewrite E in Hx; discriminate).
  assert (Hax : Qabs x == x) by (apply Qabs_pos; lra).
  assert (L : Qlog2 (Qabs x) = Qlog2 x) by (apply Qlog2_comp; [rewrite Hax|]; assumption).
  destruct (Qlog2_spec x Hx) as [Lx Ux].
  assert (HL1 : (-1022 <= Qlog2 x)%Z).
  { assert (H : 2 ^ (-1022) < 2 ^ (Qlog2 x + 1)) by lra.
    apply Qpower_lt_compat_l_inv in H; [lia | reflexivity]. }
  assert (HL2 : (Qlog2 x < 1023)%Z).
  { assert (H : 2 ^ Qlog2 x < 2 ^ 1023) by lra.
    apply Qpower_lt_compat_l_inv in H; [lia | reflexivity]. }
  assert (HE : ulp_exponent x = (Qlog2 x - 52)%Z).
  { unfold ulp_exponent. rewrite L. lia. }
  destruct (rounded_near x) as [Nlo Nhi]. rewrite HE in Nlo, Nhi.
  assert (Eu : 2 ^ (Qlog2 x - 52) == 2 * u * 2 ^ Qlog2 x).
  { unfold u. replace (Qlog2 x - 52)%Z with (1 + (-53) + Qlog2 x)%Z by lia.
    rewrite !pow2_plus. change (2 ^ 1) with 2. ring. }
  assert (Hu : 0 < u) by apply pow2_pos.
  assert (Hu1 : u < 1) by (unfold u; change 1 with (2 ^ 0); apply pow2_lt; lia).
  assert (B1 : x * (1 - u) <= rounded x) by nra.
  assert (B2 : rounded x <= x * (1 + u)) by nra.
  destruct (round64_cases x N) as [(r & E & Hr & _)|[[_ [_ O]]|[_ [L0 _]]]].
  - exists r. split; [exact E|]. rewrite Hr. now split.
  - exfalso. assert (A : Qabs (rounded x) == rounded x) by (apply Qabs_pos; nra).
    rewrite A in O.
    assert (E24 : 2 ^ 1024 == 2 * 2 ^ 1023) by (apply (pow2_succ 1023)).
    pose proof (pow2_pos 1023). nra.
  - lra.
Qed.

Lemma pow2_range_div (p q p' q' : Z) (a b : Q) :
  2 ^ p <= a -> a <= 2 ^ q -> 2 ^ p' <= b -> b <= 2 ^ q' ->
  2 ^ (p - q') <= a / b /\ a / b <= 2 ^ (q - p').
Proof.
  intros La Ua Lb Ub.
  pose proof (pow2_pos p'). pose proof (pow2_pos (p - q')). pose proof (pow2_pos (q - p')).
  assert (Hb : 0 < b) by lra.
  assert (E1 : 2 ^ (p - q') * 2 ^ q' == 2 ^ p).
  { rewrite <- pow2_plus. now replace (p - q' + q')%Z with p by lia. }
  assert (E2 : 2 ^ (q - p') * 2 ^ p' == 2 ^ q).
  { rewrite <- pow2_plus. now replace (q - p' + p')%Z with q by lia. }
  split.
  - apply Qle_shift_div_l; [exact Hb|]. nra.
  - apply Qle_shift_div_r; [exact Hb|]. nra.
Qed.

Lemma pow2_range_mul (p q p' q' : Z) (a b : Q) :
  2 ^ p <= a -> a <= 2 ^ q -> 2 ^ p' <= b -> b <= 2 ^ q' ->
  2 ^ (p + p') <= a * b /\ a * b <= 2 ^ (q + q').
Proof.
  intros La Ua Lb Ub. rewrite !pow2_plus.
  pose proof (pow2_pos p). pose proof (pow2_pos p'). split; nra.
Qed.

Lemma u_small : 0 < u /\ u <= 1 # 2.
Proof.
  split; [apply pow2_pos|]. unfold u. change (1 # 2) with (2 ^ (-1)).
  apply pow2_le. lia.
Qed.

(** A rounding in the normal range moves a number by less than a factor
    of two. *)
Lemma relative_range (p q : Z) (x r : Q) :
  2 ^ p <= x -> x <= 2 ^ q -> x * (1 - u) <= r -> r <= x * (1 + u) ->
  2 ^ (p - 1) <= r /\ r <= 2 ^ (q + 1).
Proof.
  intros Lx Ux Lr Ur. destruct u_small as [U0 U1].
  pose proof (pow2_pos p). pose proof (pow2_pos (p - 1)).
  assert (E1 : 2 ^ p == 2 * 2 ^ (p - 1)).
  { rewrite <- pow2_succ. now replace (p - 1 + 1)%Z with p by lia. }
  rewrite pow2_succ. split; nra.
Qed.

Lemma div_value (a b : Q) :
  0 < b -> Machine.div rnd (Fin a) (Fin b) = round64 (a / b).
Proof.
  intros Hb. unfold Machine.div.
  rewrite jdiv_fin by (intros E; rewrite E in Hb; discriminate). reflexivity.
Qed.

Lemma jmax_fin (a b : Q) : exists m, jmax (Fin a) (Fin b) = Fin m /\ m == Qmax a b.
Proof.
  unfold jmax, jle. destruct (Qle_bool a b) eqn:E.
  - exists b. split; [reflexivity|]. apply Qle_bool_iff in E.
    symmetry. now apply Q.max_r.
  - exists a. split; [reflexivity|]. apply Qle_bool_false in E.
    symmetry. apply Q.max_l. lra.
Qed.

Lemma representable_value (q : Q) :
  representable q -> exists r, round64 q = Fin r /\ r == q.
Proof.
  unfold representable. destruct (round64 q) as [r| | |]; try contradiction.
  intros H. now exists r.
Qed.

(** The rounding agrees with the operations of the Standard Library's
    specification of binary64 ([SFadd], [SFsub], [SFmul], [SFdiv] at
    precision 53 and maximal exponent 1024): on ordinary quotients, on a
    sum that rounds, on ties in the last place (to even), on subnormal
    results and on overflow. *)
Example round64_agrees_with_SpecFloat :
  of_spec (SFdiv 53 1024 (dyadic 7 0) (dyadic 5 0)) = round64 (7 / 5)
  /\ of_spec (SFdiv 53 1024 (dyadic 1 0) (dyadic 3 0)) = round64 (1 / 3)
  /\ of_spec (SFdiv 53 1024 (dyadic 1 0) (dyadic 10 0)) = round64 (1 / 10)
  /\ of_spec (SFadd 53 1024 (dyadic 3602879701896397 (-55))
                            (dyadic 3602879701896397 (-54)))
     = round64 (dyadic_value 3602879701896397 (-55)
                + dyadic_value 3602879701896397 (-54))
  /\ of_spec (SFsub 53 1024 (dyadic 1 0) (dyadic 3602879701896397 (-55)))
     = round64 (1 - dyadic_value 3602879701896397 (-55))
  /\ of_spec (SFmul 53 1024 (dyadic 832 0)
                     (SFdiv 53 1024 (dyadic 1920 0) (dyadic 832 0)))
     = rnd (jmul (Fin 832) (round64 (1920 / 832)))
  /\ of_spec (SFadd 53 1024 (dyadic 9007199254740992 0) (dyadic 1 0))
     = round64 (9007199254740992 + 1)
  /\ of_spec (SFadd 53 1024 (dyadic 9007199254740992 0) (dyadic 3 0))
     = round64 (9007199254740992 + 3)
  /\ of_spec (SFdiv 53 1024 (dyadic 1 (-1074)) (dyadic 2 0))
     = round64 (dyadic_value 1 (-1074) / 2)
  /\ of_spec (SFdiv 53 1024 (dyadic 3 (-1074)) (dyadic 2 0))
     = round64 (dyadic_value 3 (-1074) / 2)
  /\ of_spec (SFmul 53 1024 (dyadic 1 1023) (dyadic 2 0))
     = round64 (dyadic_value 1 1023 * 2)
  /\ of_spec (SFmul 53 1024 (dyadic (-1) 1023) (dyadic 2 0))
     = round64 (dyadic_value (-1) 1023 * 2).
Proof. repeat split; vm_compute; reflexivity. Qed.

End Binary64Facts.

(* ===================================================================== *)
(** * The exact definitions are the rounded ones without rounding         *)
(* ===================================================================== *)

Module MachineFacts.

Lemma drawFrame_exact env now v :
  Machine.drawFrame (fun x => x) env now v = VideoUtils.drawFrame env now v.
Proof. reflexivity. Qed.

Lemma sample_loop_exact (fuel : nat) :
  forall ctx f step c frames,
    Machine.sample_loop (fun x => x) fuel ctx f step c frames
    = MediaProcessing.sample_loop fuel ctx f step c frames.
Proof.
  induction fuel as [|fuel IH]; intros ctx f step c frames; [reflexivity|].
  cbn [Machine.sample_loop MediaProcessing.sample_loop]. unfold Machine.add.
  destruct (jlt c (MediaProcessing.duration f)); [|reflexivity].
  destruct ctx; [|apply IH].
  destruct (MediaProcessing.still f c); [apply IH | reflexivity].
Qed.

Lemma extractFramesFromVideo_exact fuel ctx f step :
  Machine.extractFramesFromVideo (fun x => x) fuel ctx f step
  = MediaProcessing.extractFramesFromVideo fuel ctx f step.
Proof.
  unfold Machine.extractFramesFromVideo, MediaProcessing.extractFramesFromVideo.
  destruct (MediaProcessing.loads f); [apply sample_loop_exact | reflexivity].
Qed.

End MachineFacts.

(* ===================================================================== *)
(** * Properties of the compositor / recorder                             *)
(* ===================================================================== *)

Module RendererProps.

Import JsNumFacts.

Lemma as_index_integer (q : Q) (z : Z) :
  q == inject_Z z -> (0 <= z)%Z -> as_index (Fin q) = Some (Z.to_nat z).
Proof.
  intros E Hz. unfold as_index.
  assert (F : Qfloor q = z) by (rewrite E; apply Qfloor_Z).
  rewrite F.
  assert (B : Qeq_bool q (inject_Z z) = true) by (apply Qeq_bool_iff, E).
  rewrite B. apply Z.leb_le in Hz. now rewrite Hz.
Qed.

End RendererProps.

(* ===================================================================== *)
(** * The scene index in binary64                                         *)
(* ===================================================================== *)

Module SceneIndex.

Import Types VideoUtils JsNumFacts Design Binary64 Binary64Facts MachineViews.

Lemma drawFrame_scene f env now v :
  scene (Machine.drawFrame f env now v) =
  if jge (elapsed_of f env now) (duration env) then None
  else Some (safeIndex_of f env now).
Proof.
  unfold Machine.drawFrame, safeIndex_of, quotient_of, last_index, elapsed_of.
  destruct (jge _ _); [reflexivity|].
  destruct (get (assets env) _); reflexivity.
Qed.

Lemma drawFrame_end f env now v :
  jge (elapsed_of f env now) (duration env) = true ->
  Machine.drawFrame f env now v
  = mkTick [onProgress (progress_of f env now); setTimeout_stop 500] None Returned.
Proof.
  intros H. unfold Machine.drawFrame, progress_of, elapsed_of in *. cbv zeta.
  now rewrite H.
Qed.

Lemma drawFrame_completion f env now v :
  completion (Machine.drawFrame f env now v) =
  if jge (elapsed_of f env now) (duration env) then Returned
  else match get (assets env) (safeIndex_of f env now) with
       | Some _ => Rescheduled
       | None => Threw
       end.
Proof.
  unfold Machine.drawFrame, safeIndex_of, quotient_of, last_index, elapsed_of.
  destruct (jge _ _); [reflexivity|].
  destruct (get (assets env) _); reflexivity.
Qed.

(** [assets.length - 1] is computed exactly. *)
Lemma last_index_value (n : nat) :
  (0 < n)%nat -> (Z.of_nat n < 2 ^ 53)%Z ->
  exists r, Machine.sub rnd (of_nat n) (of_Z 1) = Fin r
            /\ r == inject_Z (Z.of_nat n - 1).
Proof.
  intros Hn Hb. unfold Machine.sub, of_nat, of_Z. cbn [jsub jadd jneg rnd].
  assert (E : inject_Z (Z.of_nat n) + - inject_Z 1 == inject_Z (Z.of_nat n - 1)).
  { unfold Z.sub. rewrite inject_Z_plus, inject_Z_opp. reflexivity. }
  rewrite (round64_comp _ _ E). apply round64_Z. lia.
Qed.

(** The rounded quotient of a non-negative time by a positive scene
    duration is a non-negative number or [+Infinity]. *)
Lemma quotient_value (e sd : Q) :
  0 <= e -> 0 < sd ->
  Machine.div rnd (Fin e) (Fin sd) = PInf
  \/ exists q, Machine.div rnd (Fin e) (Fin sd) = Fin q /\ 0 <= q.
Proof.
  intros He Hsd. unfold Machine.div.
  rewrite jdiv_fin by (intros E; rewrite E in Hsd; discriminate).
  cbn [rnd]. apply round64_nonneg. now apply Qdiv_nonneg.
Qed.

(** The clamped index is an index of the list. *)
Lemma safeIndex_value (n : nat) (e sd : Q) :
  (0 < n)%nat -> (Z.of_nat n < 2 ^ 53)%Z -> 0 <= e -> 0 < sd ->
  let q := Machine.div rnd (Fin e) (Fin sd) in
  exists (k : Z) (r : Q),
    jmin (jfloor q) (Machine.sub rnd (of_nat n) (of_Z 1)) = Fin r
    /\ r == inject_Z k /\ (0 <= k <= Z.of_nat n - 1)%Z
    /\ (k = (Z.of_nat n - 1)%Z /\ (q = PInf \/ exists x, q = Fin x /\ (k <= Qfloor x)%Z)
        \/ exists x, q = Fin x /\ k = Qfloor x).
Proof.
  intros Hn Hb He Hsd q.
  destruct (last_index_value n Hn Hb) as (r & -> & Hr).
  destruct (quotient_value e sd He Hsd) as [E|(x & E & Hx)]; subst q; rewrite E.
  - exists (Z.of_nat n - 1)%Z, r. cbn. repeat split; try assumption; try lia.
    left. split; [reflexivity | now left].
  - cbn [jfloor jmin jle].
    pose proof (Qfloor_nonneg x Hx) as Hf.
    destruct (Qle_bool (inject_Z (Qfloor x)) r) eqn:C.
    + apply Qle_bool_iff in C. rewrite Hr, <- Zle_Qle in C.
      exists (Qfloor x), (inject_Z (Qfloor x)). repeat split; try reflexivity; try lia.
      right. exists x. now split.
    + apply Qle_bool_false in C. rewrite Hr, <- Zlt_Qlt in C.
      exists (Z.of_nat n - 1)%Z, r. repeat split; try assumption; try lia.
      left. split; [reflexivity|]. right. exists x. split; [reflexivity | lia].
Qed.

(** At the very end of the narration the clamp absorbs the rounding: the
    index expression has the value [n - 1] at [elapsed = duration]. *)
Lemma safeIndex_at_end (n : nat) (D sd : Q) :
  (0 < n)%nat -> (Z.of_nat n <= 2 ^ 52)%Z ->
  2 ^ (-1022) <= D / inject_Z (Z.of_nat n) -> D < 2 ^ 1023 ->
  Machine.div rnd (Fin D) (of_nat n) = Fin sd ->
  num_eq (jmin (jfloor (Machine.div rnd (Fin D) (Fin sd)))
               (Machine.sub rnd (of_nat n) (of_Z 1)))
         (of_Z (Z.of_nat n - 1)).
Proof.
  intros Hn Hb Hlo Hhi Hsd.
  set (N := inject_Z (Z.of_nat n)) in *.
  assert (HN : 1 <= N).
  { unfold N. change 1 with (inject_Z 1). rewrite <- Zle_Qle. lia. }
  assert (HNu : 2 * N * u <= 1).
  { assert (Hb' : N <= 2 ^ 52).
    { unfold N. rewrite <- pow2_Z by lia. rewrite <- Zle_Qle. exact Hb. }
    assert (Eu : 2 * 2 ^ 52 * u == 1).
    { unfold u. rewrite <- (pow2_succ 52), <- pow2_plus. reflexivity. }
    assert (0 < u) by apply pow2_pos. nra. }
  assert (Hu : 0 < u) by apply pow2_pos.
  assert (Hu1 : u <= 1 # 2) by nra.
  pose proof (pow2_pos (-1022)) as P0.
  assert (NN : ~ N == 0) by (intros E; rewrite E in HN; lra).
  assert (HDN : D / N * N == D) by (field; exact NN).
  assert (HD : 0 < D) by nra.
  (* the scene duration *)
  unfold Machine.div, of_nat in Hsd. fold N in Hsd.
  rewrite jdiv_fin in Hsd by exact NN. cbn [rnd] in Hsd.
  assert (Hq1 : D / N < 2 ^ 1023) by nra.
  destruct (round64_relative (D / N) Hlo Hq1) as (sd' & Esd & Slo & Shi).
  rewrite Esd in Hsd. injection Hsd as ->.
  assert (Hsd : 0 < sd) by nra.
  assert (Nsd : ~ sd == 0) by (intros E; rewrite E in Hsd; discriminate).
  assert (Hx : D / sd * sd == D) by (field; exact Nsd).
  set (x := D / sd) in *. set (y := D / N) in *.
  assert (Hx0 : 0 < x) by nra.
  assert (Hx1 : N <= x * (1 + u)) by nra.
  assert (Hx2 : x * (1 - u) <= N) by nra.
  (* the quotient at the end *)
  assert (Xlo : 2 ^ (-1022) <= x).
  { assert (2 ^ (-1022) <= 1 # 2).
    { change (1 # 2) with (2 ^ (-1)). apply pow2_le. lia. }
    nra. }
  assert (Xhi : x < 2 ^ 1023).
  { assert (2 ^ 53 < 2 ^ 1023) by (apply pow2_lt; lia).
    assert (N <= 2 ^ 52).
    { unfold N. rewrite <- pow2_Z by lia. rewrite <- Zle_Qle. exact Hb. }
    assert (E53 : 2 ^ 53 == 2 * 2 ^ 52) by apply (pow2_succ 52).
    nra. }
  destruct (round64_relative x Xlo Xhi) as (q & Eq & Qlo & Qhi).
  assert (Hq : inject_Z (Z.of_nat n - 1) <= q).
  { unfold Z.sub. rewrite inject_Z_plus, inject_Z_opp. fold N.
    change (inject_Z 1) with 1.
    assert (A : (N + - 1) * (1 + u) <= N * (1 - u)).
    { clear - HNu Hu. set (m := N * u) in *.
      setoid_replace ((N + - 1) * (1 + u)) with (N + m - 1 - u) by (unfold m; ring).
      setoid_replace (N * (1 - u)) with (N - m) by (unfold m; ring).
      setoid_replace (2 * N * u) with (2 * m) in HNu by (unfold m; ring). lra. }
    assert (B : N * (1 - u) <= x * (1 - u) * (1 + u)).
    { setoid_replace (x * (1 - u) * (1 + u)) with (x * (1 + u) * (1 - u)) by ring.
      apply Qmult_le_compat_r; [exact Hx1 | lra]. }
    assert (C : (N + - 1) * (1 + u) <= x * (1 - u) * (1 + u)) by lra.
    apply Qmult_lt_0_le_reg_r in C; [lra | lra]. }
  assert (Hb53 : (Z.of_nat n < 2 ^ 53)%Z).
  { assert (2 ^ 52 < 2 ^ 53)%Z by reflexivity. lia. }
  assert (Hq0 : 0 <= x) by lra.
  destruct (safeIndex_value n D sd Hn Hb53 ltac:(lra) Hsd)
    as (k & r & E & Hr & Hk & Hcase).
  rewrite E. cbn. rewrite Hr.
  assert (k = Z.of_nat n - 1)%Z; [|now subst k].
  destruct Hcase as [[-> _]|(x' & Ex' & ->)]; [reflexivity|].
  unfold Machine.div in Ex'. rewrite jdiv_fin in Ex' by exact Nsd.
  cbn [rnd] in Ex'. fold x in Ex'. rewrite Eq in Ex'. injection Ex' as <-.
  apply Qfloor_ge_Z in Hq. lia.
Qed.

(** C1, as the program computes it.  While the narration plays
    ([0 <= elapsed < duration], both as computed) the tick selects the
    scene [min(floor(elapsed / sceneDuration), n - 1)], each operation in
    binary64: an index of the asset list, whose asset it finds, after
    which it asks for the next frame.  Without the clamp the index would
    leave the list before the end of the narration.  When the two
    divisions are exact this is [clamp(floor(t / (D / n)), 0, n - 1)] of
    the design document.  From [elapsed = duration] on the tick selects no
    scene: it reports the progress, arms the stop timer and returns; the
    index expression itself has the value [n - 1] there. *)
Theorem scene_index_binary64 env now v (e D sd : Q) :
  let n := List.length (assets env) in
  let tick := Machine.drawFrame rnd env now v in
  let index := safeIndex_of rnd env now in
  assets env <> [] -> (Z.of_nat n <= 2 ^ 52)%Z ->
  duration env = Fin D ->
  sceneDuration env = Fin sd -> 0 < sd ->
  elapsed_of rnd env now = Fin e -> 0 <= e ->
  (e < D ->
   exists k : Z,
     scene tick = Some index
     /\ num_eq index (of_Z k) /\ (0 <= k <= Z.of_nat n - 1)%Z
     /\ get (assets env) index = nth_error (assets env) (Z.to_nat k)
     /\ (exists asset, get (assets env) index = Some asset)
     /\ completion tick = Rescheduled
     /\ (forall x, quotient_of rnd env now = Fin x ->
                   k = Z.min (Qfloor x) (Z.of_nat n - 1))
     /\ (quotient_of rnd env now = PInf -> k = (Z.of_nat n - 1)%Z))
  /\ (D <= e ->
      scene tick = None /\ completion tick = Returned
      /\ actions tick = [onProgress (progress_of rnd env now); setTimeout_stop 500])
  /\ (e < D -> sd == D / inject_Z (Z.of_nat n) -> representable (e / sd) ->
      num_eq index (of_Z (spec_scene_index D n e)))
  /\ (e == D -> sceneDuration env = Machine.scene_duration rnd (duration env) (assets env) ->
      2 ^ (-1022) <= D / inject_Z (Z.of_nat n) -> D < 2 ^ 1023 ->
      num_eq index (of_Z (Z.of_nat n - 1))).
Proof.
  intros n tick index Hne Hb HD Hsd Hsdpos He He0.
  assert (Hn : (0 < n)%nat).
  { subst n. destruct (assets env); [congruence | simpl; lia]. }
  assert (Hb53 : (Z.of_nat n < 2 ^ 53)%Z).
  { assert (2 ^ 52 < 2 ^ 53)%Z by reflexivity. lia. }
  assert (Hidx : index = jmin (jfloor (Machine.div rnd (Fin e) (Fin sd)))
                              (Machine.sub rnd (of_nat n) (of_Z 1))).
  { subst index. unfold safeIndex_of, quotient_of, last_index. now rewrite He, Hsd. }
  assert (Hquot : quotient_of rnd env now = Machine.div rnd (Fin e) (Fin sd)).
  { unfold quotient_of. now rewrite He, Hsd. }
  destruct (safeIndex_value n e sd Hn Hb53 He0 Hsdpos) as (k & r & E & Hr & Hk & Hcase).
  assert (Hget : get (assets env) index = nth_error (assets env) (Z.to_nat k)).
  { rewrite Hidx, E. unfold get.
    now rewrite (RendererProps.as_index_integer r k Hr) by lia. }
  split; [|split; [|split]].
  - intros HeD.
    assert (Hrun : jge (elapsed_of rnd env now) (duration env) = false).
    { rewrite He, HD. cbn. now apply Qle_bool_false. }
    exists k. subst tick. rewrite drawFrame_scene, drawFrame_completion, Hrun.
    fold index. rewrite Hget.
    destruct (nth_error (assets env) (Z.to_nat k)) as [a|] eqn:Ea.
    2:{ apply nth_error_None in Ea. fold n in Ea. lia. }
    split; [reflexivity|]. split; [rewrite Hidx, E; exact Hr|].
    split; [exact Hk|]. split; [reflexivity|]. split; [eauto|]. split; [reflexivity|].
    rewrite Hquot. split.
    + intros x Ex. destruct Hcase as [[-> [Ei|(x' & Ex' & Hle)]]|(x' & Ex' & ->)].
      * rewrite Ei in Ex. discriminate.
      * rewrite Ex' in Ex. injection Ex as ->. lia.
      * rewrite Ex' in Ex. injection Ex as ->. lia.
    + intros Ei. destruct Hcase as [[-> _]|(x' & Ex' & _)]; [reflexivity|].
      rewrite Ex' in Ei. discriminate.
  - intros HeD. subst tick.
    assert (Hfin : jge (elapsed_of rnd env now) (duration env) = true).
    { rewrite He, HD. cbn. now apply Qle_bool_iff. }
    rewrite (drawFrame_end rnd env now v Hfin). repeat split.
  - intros HeD Esd Hrep. rewrite Hidx, E. cbn. rewrite Hr.
    assert (NN : 0 < inject_Z (Z.of_nat n)) by (rewrite <- (Zlt_Qlt 0); lia).
    assert (Nsd : ~ sd == 0) by (intros Z0; rewrite Z0 in Hsdpos; discriminate).
    unfold representable in Hrep.
    assert (Hq : Machine.div rnd (Fin e) (Fin sd) = round64 (e / sd)).
    { unfold Machine.div. now rewrite jdiv_fin. }
    destruct (round64 (e / sd)) as [x| | |] eqn:Ex; try contradiction.
    cbn in Hrep.
    assert (Hf : Qfloor x = Qfloor (e / (D / inject_Z (Z.of_nat n)))).
    { rewrite Hrep. now rewrite Esd. }
    assert (Hx0 : (0 <= Qfloor x)%Z).
    { apply Qfloor_nonneg. rewrite Hrep. now apply Qdiv_nonneg. }
    assert (Ek : k = Z.min (Qfloor x) (Z.of_nat n - 1)).
    { destruct Hcase as [[-> [Ei|(x' & Ex' & Hle)]]|(x' & Ex' & ->)].
      - rewrite Hq in Ei. discriminate.
      - rewrite Hq in Ex'. injection Ex' as ->. lia.
      - rewrite Hq in Ex'. injection Ex' as ->. lia. }
    unfold spec_scene_index, clampZ. rewrite <- Hf. rewrite Ek.
    rewrite Z.max_r by lia. reflexivity.
  - intros EeD Hscene Hlo Hhi.
    assert (Hsd' : Machine.div rnd (Fin D) (of_nat n) = Fin sd).
    { rewrite <- Hsd, Hscene. unfold Machine.scene_duration. now rewrite HD. }
    pose proof (safeIndex_at_end n D sd Hn Hb Hlo Hhi Hsd') as Hend.
    rewrite Hidx.
    assert (Eq : Machine.div rnd (Fin e) (Fin sd) = Machine.div rnd (Fin D) (Fin sd)).
    { assert (Nsd : ~ sd == 0) by (intros Z0; rewrite Z0 in Hsdpos; discriminate).
      unfold Machine.div. rewrite !jdiv_fin by exact Nsd. cbn [rnd].
      apply round64_comp. now rewrite EeD. }
    now rewrite Eq.
Qed.

Lemma scene_index_binary64_witness :
  (let env := Samples64.render_env 7 5 in
   let now := Fin Samples64.just_before_7 in
   let tick := Machine.drawFrame rnd env now (Samples.ready_video 0) in
   let index := safeIndex_of rnd env now in
   quotient_of rnd env now = Fin 5
   /\ exists k : Z,
        scene tick = Some index
        /\ num_eq index (of_Z k) /\ (0 <= k <= Z.of_nat (List.length (assets env)) - 1)%Z
        /\ get (assets env) index = nth_error (assets env) (Z.to_nat k)
        /\ (exists asset, get (assets env) index = Some asset)
        /\ completion tick = Rescheduled
        /\ (forall x, quotient_of rnd env now = Fin x ->
                      k = Z.min (Qfloor x) (Z.of_nat (List.length (assets env)) - 1))
        /\ (quotient_of rnd env now = PInf ->
            k = (Z.of_nat (List.length (assets env)) - 1)%Z))
  /\ (let tick := Machine.drawFrame rnd (Samples64.render_env 7 5) (Fin 7)
                                    (Samples.ready_video 0) in
      scene tick = None /\ completion tick = Returned
      /\ actions tick = [onProgress (progress_of rnd (Samples64.render_env 7 5) (Fin 7));
                         setTimeout_stop 500])
  /\ num_eq (safeIndex_of rnd (Samples64.render_env 30 3) (Fin 15))
            (of_Z (spec_scene_index 30 3 15))
  /\ num_eq (safeIndex_of rnd (Samples64.render_env 7 5) (Fin 7)) (of_Z 4).
Proof.
  cbv zeta. split; [split; [vm_compute; reflexivity|]|split; [|split]].
  - refine (proj1 (scene_index_binary64 (Samples64.render_env 7 5)
                     (Fin Samples64.just_before_7) (Samples.ready_video 0)
                     (finite (elapsed_of rnd (Samples64.render_env 7 5)
                                         (Fin Samples64.just_before_7)))
                     7
                     (finite (sceneDuration (Samples64.render_env 7 5)))
                     _ _ _ _ _ _ _) _).
    + vm_compute. discriminate.
    + vm_compute. discriminate.
    + reflexivity.
    + vm_compute. reflexivity.
    + vm_compute. reflexivity.
    + vm_compute. reflexivity.
    + vm_compute. discriminate.
    + vm_compute. reflexivity.
  - refine (proj1 (proj2 (scene_index_binary64 (Samples64.render_env 7 5)
                     (Fin 7) (Samples.ready_video 0) 7 7
                     (finite (sceneDuration (Samples64.render_env 7 5)))
                     _ _ _ _ _ _ _)) _).
    + vm_compute. discriminate.
    + vm_compute. discriminate.
    + reflexivity.
    + vm_compute. reflexivity.
    + vm_compute. reflexivity.
    + vm_compute. reflexivity.
    + vm_compute. discriminate.
    + vm_compute. discriminate.
  - refine (proj1 (proj2 (proj2 (scene_index_binary64 (Samples64.render_env 30 3)
                     (Fin 15) (Samples.ready_video 0) 15 30 10
                     _ _ _ _ _ _ _))) _ _ _).
    + vm_compute. discriminate.
    + vm_compute. discriminate.
    + reflexivity.
    + vm_compute. reflexivity.
    + vm_compute. reflexivity.
    + vm_compute. reflexivity.
    + vm_compute. discriminate.
    + vm_compute. reflexivity.
    + vm_compute. reflexivity.
    + vm_compute. reflexivity.
  - refine (proj2 (proj2 (proj2 (scene_index_binary64 (Samples64.render_env 7 5)
                     (Fin 7) (Samples.ready_video 0) 7 7
                     (finite (sceneDuration (Samples64.render_env 7 5)))
                     _ _ _ _ _ _ _))) _ _ _ _).
    + vm_compute. discriminate.
    + vm_compute. discriminate.
    + reflexivity.
    + vm_compute. reflexivity.
    + vm_compute. reflexivity.
    + vm_compute. reflexivity.
    + vm_compute. discriminate.
    + vm_compute. reflexivity.
    + reflexivity.
    + vm_compute. discriminate.
    + vm_compute. reflexivity.
Defined.

(** C1 as stated fails twice.  At [t = totalDuration] the tick selects
    no scene: for a 30 second render of three stills the tick at [t = 30]
    reports 100, arms the stop timer and returns.  And inside the
    narration the selected scene is the floor of a rounded quotient, not
    of the exact one: for a 7 second render of ten stills the tick at
    3.4999999999999996 s selects scene 5, where
    [clamp(floor(t / (D / n)), 0, n - 1)] is 4. *)
Lemma scene_index_counterexample :
  (let tick := Machine.drawFrame rnd (Samples64.render_env 30 3) (Fin 30)
                                 (Samples.ready_video 0) in
   scene tick = None
   /\ completion tick = Returned
   /\ actions tick = [onProgress (Fin 100); setTimeout_stop 500])
  /\ (let tick := Machine.drawFrame rnd (Samples64.render_env 7 10)
                                    (Fin Samples64.just_before_3_5)
                                    (Samples.ready_video 0) in
      scene tick = Some (Fin 5)
      /\ Samples64.just_before_3_5 < 35 # 10
      /\ spec_scene_index 7 10 Samples64.just_before_3_5 = 4%Z).
Proof.
  cbv zeta. repeat split; vm_compute; reflexivity.
Qed.

(** The clamp at work: in a 7 second render of five stills the last
    clock reading before second 7 gives the quotient 5, one past the
    list, and the tick shows scene 4. *)
Example clamp_absorbs_overshoot :
  let env := Samples64.render_env 7 5 in
  let now := Fin Samples64.just_before_7 in
  Samples64.just_before_7 < 7
  /\ jfloor (quotient_of rnd env now) = Fin 5
  /\ scene (Machine.drawFrame rnd env now (Samples.ready_video 0)) = Some (Fin 4).
Proof. cbv zeta. repeat split; vm_compute; reflexivity. Qed.

End SceneIndex.
(* ===================================================================== *)
(** * The cover fit in binary64                                           *)
(* ===================================================================== *)

Module CoverFit.

Import Types VideoUtils JsNumFacts Design Views Binary64 Binary64Facts MachineViews.

(** The tick of an image asset whose image is loaded. *)
Lemma image_tick env now v asset img :
  jge (elapsed_of rnd env now) (duration env) = false ->
  get (assets env) (safeIndex_of rnd env now) = Some asset ->
  is_image asset = true ->
  get (imgs env) (safeIndex_of rnd env now) = Some (Some img) ->
  let '(x, y, w, h) :=
    cover_fit rnd (canvas_width env) (canvas_height env) (width img) (height img) in
  actions (Machine.drawFrame rnd env now v)
  = [onProgress (progress_of rnd env now);
     fillRect (of_Z 0) (of_Z 0) (canvas_width env) (canvas_height env);
     drawImage (ImageSource img) x y w h;
     requestAnimationFrame].
Proof.
  intros Hrun Ha Hi Himg.
  unfold safeIndex_of, quotient_of, last_index, elapsed_of in *.
  unfold cover_fit, Machine.drawFrame, progress_of, elapsed_of.
  rewrite Hrun, Ha, Hi, Himg. reflexivity.
Qed.

(** The tick of a video asset whose element has a frame to show. *)
Lemma video_tick env now v asset :
  jge (elapsed_of rnd env now) (duration env) = false ->
  get (assets env) (safeIndex_of rnd env now) = Some asset ->
  is_video asset = true ->
  (2 <= readyState v)%Z ->
  jgt (videoWidth v) (of_Z 0) = true -> jgt (videoHeight v) (of_Z 0) = true ->
  let '(x, y, w, h) :=
    cover_fit rnd (canvas_width env) (canvas_height env) (videoWidth v) (videoHeight v) in
  exists sync,
    actions (Machine.drawFrame rnd env now v)
    = [onProgress (progress_of rnd env now);
       fillRect (of_Z 0) (of_Z 0) (canvas_width env) (canvas_height env)]
      ++ sync ++ [drawImage (VideoSource v) x y w h; requestAnimationFrame]
    /\ (List.length sync <= 1)%nat /\ forallb is_seek sync = true.
Proof.
  intros Hrun Ha Hv Hready Hw Hh.
  unfold safeIndex_of, quotient_of, last_index, elapsed_of in *.
  unfold cover_fit, Machine.drawFrame, progress_of, elapsed_of.
  rewrite Hrun, Ha.
  assert (Hi : is_image asset = false).
  { unfold is_image, is_video in *. destruct (type asset); [discriminate | reflexivity]. }
  rewrite Hi, Hv, Hw, Hh. apply Z.leb_le in Hready. rewrite Hready.
  cbn [andb actions].
  match goal with
  | |- context [if ?c then [seek ?t] else []] =>
      exists (if c then [seek t] else []); split;
      [now rewrite <- app_assoc | destruct c; split; cbn; (lia || reflexivity)]
  end.
Qed.

(** Where the two quotients and the two products are exact, the drawn
    size covers the surface and fits it on one axis. *)
Lemma cover_exact (cw ch sw sh : Q) :
  0 < cw -> 0 < ch -> 0 < sw -> 0 < sh ->
  let scale := Qmax (cw / sw) (ch / sh) in
  representable (cw / sw) -> representable (ch / sh) ->
  representable (sw * scale) -> representable (sh * scale) ->
  exists dw dh,
    snd (fst (cover_fit rnd (Fin cw) (Fin ch) (Fin sw) (Fin sh))) = Fin dw
    /\ snd (cover_fit rnd (Fin cw) (Fin ch) (Fin sw) (Fin sh)) = Fin dh
    /\ dw == sw * scale /\ dh == sh * scale
    /\ cw <= dw /\ ch <= dh /\ (dw == cw \/ dh == ch).
Proof.
  intros Hcw Hch Hsw Hsh scale Ra Rb Rw Rh.
  unfold cover_fit. cbn [fst snd].
  rewrite !div_value by assumption.
  destruct (representable_value _ Ra) as (a & -> & Ea).
  destruct (representable_value _ Rb) as (b & -> & Eb).
  destruct (jmax_fin a b) as (m & -> & Em).
  assert (Es : m == scale) by (unfold scale; now rewrite Em, Ea, Eb).
  unfold Machine.mul. cbn [jmul rnd].
  assert (Ew : sw * m == sw * scale) by (now rewrite Es).
  assert (Eh : sh * m == sh * scale) by (now rewrite Es).
  rewrite (round64_comp _ _ Ew), (round64_comp _ _ Eh).
  destruct (representable_value _ Rw) as (dw & -> & Edw).
  destruct (representable_value _ Rh) as (dh & -> & Edh).
  exists dw, dh. do 4 (split; [reflexivity || assumption|]).
  assert (Nw : ~ sw == 0) by (intros E; rewrite E in Hsw; discriminate).
  assert (Nh : ~ sh == 0) by (intros E; rewrite E in Hsh; discriminate).
  assert (Qw : sw * (cw / sw) == cw) by (field; exact Nw).
  assert (Qh : sh * (ch / sh) == ch) by (field; exact Nh).
  rewrite Edw, Edh.
  pose proof (Q.le_max_l (cw / sw) (ch / sh)) as L1.
  pose proof (Q.le_max_r (cw / sw) (ch / sh)) as L2.
  fold scale in L1, L2.
  split; [rewrite <- Qw; apply Qmult_le_l; assumption|].
  split; [rewrite <- Qh; apply Qmult_le_l; assumption|].
  unfold scale. destruct (Q.max_spec (cw / sw) (ch / sh)) as [[_ ->]|[_ ->]].
  - right. exact Qh.
  - left. exact Qw.
Qed.

Lemma below_twice (c s a0 a m w0 dw : Q) :
  0 < s -> 0 <= a0 -> s * a0 == c ->
  a0 * (1 - u) <= a -> a <= m -> w0 == s * m -> w0 * (1 - u) <= dw ->
  c * (1 - u) * (1 - u) <= dw.
Proof.
  intros Hs Ha0 Ec La Lm Ew Ld. destruct u_small as [U0 U1].
  assert (H1 : s * (a0 * (1 - u)) <= s * m) by (apply Qmult_le_l; [exact Hs | lra]).
  assert (H2 : s * (a0 * (1 - u)) * (1 - u) <= s * m * (1 - u))
    by (apply Qmult_le_compat_r; [exact H1 | lra]).
  setoid_replace (c * (1 - u) * (1 - u)) with (s * (a0 * (1 - u)) * (1 - u))
    by (rewrite <- Ec; ring).
  rewrite Ew in Ld. lra.
Qed.

Lemma above_twice (c s a0 a w0 dw : Q) :
  0 < s -> 0 <= a0 -> s * a0 == c ->
  a <= a0 * (1 + u) -> w0 == s * a -> dw <= w0 * (1 + u) ->
  dw <= c * (1 + u) * (1 + u).
Proof.
  intros Hs Ha0 Ec Ua Ew Ud. destruct u_small as [U0 U1].
  assert (H1 : s * a <= s * (a0 * (1 + u))) by (apply Qmult_le_l; [exact Hs | lra]).
  assert (H2 : s * a * (1 + u) <= s * (a0 * (1 + u)) * (1 + u))
    by (apply Qmult_le_compat_r; [exact H1 | lra]).
  setoid_replace (c * (1 + u) * (1 + u)) with (s * (a0 * (1 + u)) * (1 + u))
    by (rewrite <- Ec; ring).
  rewrite Ew in Ud. lra.
Qed.

(** In general the drawn size covers the surface up to two roundings,
    and fits it on one axis up to two roundings. *)
Lemma cover_near (cw ch sw sh : Q) :
  2 ^ (-300) <= cw -> cw <= 2 ^ 300 -> 2 ^ (-300) <= ch -> ch <= 2 ^ 300 ->
  2 ^ (-300) <= sw -> sw <= 2 ^ 300 -> 2 ^ (-300) <= sh -> sh <= 2 ^ 300 ->
  exists dw dh,
    snd (fst (cover_fit rnd (Fin cw) (Fin ch) (Fin sw) (Fin sh))) = Fin dw
    /\ snd (cover_fit rnd (Fin cw) (Fin ch) (Fin sw) (Fin sh)) = Fin dh
    /\ cw * (1 - u) * (1 - u) <= dw /\ ch * (1 - u) * (1 - u) <= dh
    /\ (dw <= cw * (1 + u) * (1 + u) \/ dh <= ch * (1 + u) * (1 + u)).
Proof.
  intros Lcw Ucw Lch Uch Lsw Usw Lsh Ush.
  pose proof (pow2_pos (-300)) as P.
  assert (Hsw : 0 < sw) by lra. assert (Hsh : 0 < sh) by lra.
  assert (Nw : ~ sw == 0) by (intros E; rewrite E in Hsw; discriminate).
  assert (Nh : ~ sh == 0) by (intros E; rewrite E in Hsh; discriminate).
  assert (Qw : sw * (cw / sw) == cw) by (field; exact Nw).
  assert (Qh : sh * (ch / sh) == ch) by (field; exact Nh).
  destruct (pow2_range_div _ _ _ _ cw sw Lcw Ucw Lsw Usw) as [La0 Ua0].
  destruct (pow2_range_div _ _ _ _ ch sh Lch Uch Lsh Ush) as [Lb0 Ub0].
  change (-300 - 300)%Z with (-600)%Z in *. change (300 - -300)%Z with 600%Z in *.
  pose proof (pow2_le (-1022) (-600) ltac:(lia)) as R1.
  pose proof (pow2_lt 600 1023 ltac:(lia)) as R2.
  pose proof (pow2_pos (-600)) as P6.
  destruct (round64_relative (cw / sw) ltac:(lra) ltac:(lra)) as (a & Ea & La & Ua).
  destruct (round64_relative (ch / sh) ltac:(lra) ltac:(lra)) as (b & Eb & Lb & Ub).
  destruct (relative_range _ _ _ _ La0 Ua0 La Ua) as [Ra1 Ra2].
  destruct (relative_range _ _ _ _ Lb0 Ub0 Lb Ub) as [Rb1 Rb2].
  change (-600 - 1)%Z with (-601)%Z in *. change (600 + 1)%Z with 601%Z in *.
  unfold cover_fit. cbn [fst snd]. rewrite !div_value by assumption.
  rewrite Ea, Eb.
  destruct (jmax_fin a b) as (m & -> & Em).
  assert (Hm : a <= m /\ b <= m /\ (m == a \/ m == b)).
  { rewrite Em. split; [apply Q.le_max_l|]. split; [apply Q.le_max_r|].
    destruct (Q.max_spec a b) as [[_ ->]|[_ ->]]; [now right | now left]. }
  destruct Hm as (Ham & Hbm & Hmab).
  assert (Rm : 2 ^ (-601) <= m /\ m <= 2 ^ 601).
  { destruct Hmab as [->| ->]; now split. }
  destruct Rm as [Rm1 Rm2].
  destruct (pow2_range_mul _ _ _ _ sw m Lsw Usw Rm1 Rm2) as [Lw0 Uw0].
  destruct (pow2_range_mul _ _ _ _ sh m Lsh Ush Rm1 Rm2) as [Lh0 Uh0].
  change (-300 + -601)%Z with (-901)%Z in *. change (300 + 601)%Z with 901%Z in *.
  pose proof (pow2_le (-1022) (-901) ltac:(lia)) as R3.
  pose proof (pow2_lt 901 1023 ltac:(lia)) as R4.
  unfold Machine.mul. cbn [jmul rnd].
  destruct (round64_relative (sw * m) ltac:(lra) ltac:(lra)) as (dw & -> & Ldw & Udw).
  destruct (round64_relative (sh * m) ltac:(lra) ltac:(lra)) as (dh & -> & Ldh & Udh).
  exists dw, dh. split; [reflexivity|]. split; [reflexivity|].
  assert (A0 : 0 <= cw / sw) by lra. assert (B0 : 0 <= ch / sh) by lra.
  split; [exact (below_twice cw sw (cw / sw) a m (sw * m) dw Hsw A0 Qw La Ham
                   ltac:(reflexivity) Ldw)|].
  split; [exact (below_twice ch sh (ch / sh) b m (sh * m) dh Hsh B0 Qh Lb Hbm
                   ltac:(reflexivity) Ldh)|].
  destruct Hmab as [E|E].
  - left. apply (above_twice cw sw (cw / sw) a (sw * m) dw Hsw A0 Qw Ua); [|exact Udw].
    now rewrite E.
  - right. apply (above_twice ch sh (ch / sh) b (sh * m) dh Hsh B0 Qh Ub); [|exact Udh].
    now rewrite E.
Qed.

(** C2, as the program computes it.  A tick that shows a loaded image,
    and a tick that shows a video frame, draw the source with the
    arguments of the cover fit: [scale = max(cw / sw, ch / sh)], size
    [(sw * scale, sh * scale)], centred by [cw / 2 - (sw / 2) * scale] and
    [ch / 2 - (sh / 2) * scale], each operation rounded to binary64.  Where
    the two quotients and the two products are exact, the drawn size
    covers the surface and equals it on one axis.  In general it does so
    up to two roundings: each side reaches the surface's side times
    [(1 - u)^2], and one side is at most the surface's side times
    [(1 + u)^2], where [u = 2^-53]. *)
Theorem cover_fit_binary64 :
  (forall env now v asset img,
      jge (elapsed_of rnd env now) (duration env) = false ->
      get (assets env) (safeIndex_of rnd env now) = Some asset ->
      is_image asset = true ->
      get (imgs env) (safeIndex_of rnd env now) = Some (Some img) ->
      let '(x, y, w, h) :=
        cover_fit rnd (canvas_width env) (canvas_height env) (width img) (height img) in
      actions (Machine.drawFrame rnd env now v)
      = [onProgress (progress_of rnd env now);
         fillRect (of_Z 0) (of_Z 0) (canvas_width env) (canvas_height env);
         drawImage (ImageSource img) x y w h;
         requestAnimationFrame])
  /\ (forall env now v asset,
        jge (elapsed_of rnd env now) (duration env) = false ->
        get (assets env) (safeIndex_of rnd env now) = Some asset ->
        is_video asset = true ->
        (2 <= readyState v)%Z ->
        jgt (videoWidth v) (of_Z 0) = true -> jgt (videoHeight v) (of_Z 0) = true ->
        let '(x, y, w, h) :=
          cover_fit rnd (canvas_width env) (canvas_height env)
                    (videoWidth v) (videoHeight v) in
        exists sync,
          actions (Machine.drawFrame rnd env now v)
          = [onProgress (progress_of rnd env now);
             fillRect (of_Z 0) (of_Z 0) (canvas_width env) (canvas_height env)]
            ++ sync ++ [drawImage (VideoSource v) x y w h; requestAnimationFrame]
          /\ (List.length sync <= 1)%nat /\ forallb is_seek sync = true)
  /\ (forall cw ch sw sh : Q,
        0 < cw -> 0 < ch -> 0 < sw -> 0 < sh ->
        let scale := Qmax (cw / sw) (ch / sh) in
        representable (cw / sw) -> representable (ch / sh) ->
        representable (sw * scale) -> representable (sh * scale) ->
        exists dw dh,
          snd (fst (cover_fit rnd (Fin cw) (Fin ch) (Fin sw) (Fin sh))) = Fin dw
          /\ snd (cover_fit rnd (Fin cw) (Fin ch) (Fin sw) (Fin sh)) = Fin dh
          /\ dw == sw * scale /\ dh == sh * scale
          /\ cw <= dw /\ ch <= dh /\ (dw == cw \/ dh == ch))
  /\ (forall cw ch sw sh : Q,
        2 ^ (-300) <= cw -> cw <= 2 ^ 300 -> 2 ^ (-300) <= ch -> ch <= 2 ^ 300 ->
        2 ^ (-300) <= sw -> sw <= 2 ^ 300 -> 2 ^ (-300) <= sh -> sh <= 2 ^ 300 ->
        exists dw dh,
          snd (fst (cover_fit rnd (Fin cw) (Fin ch) (Fin sw) (Fin sh))) = Fin dw
          /\ snd (cover_fit rnd (Fin cw) (Fin ch) (Fin sw) (Fin sh)) = Fin dh
          /\ cw * (1 - u) * (1 - u) <= dw /\ ch * (1 - u) * (1 - u) <= dh
          /\ (dw <= cw * (1 + u) * (1 + u) \/ dh <= ch * (1 + u) * (1 + u))).
Proof.
  split; [exact image_tick|]. split; [exact video_tick|].
  split; [exact cover_exact | exact cover_near].
Qed.

Lemma cover_fit_binary64_witness :
  (let env := Samples64.render_env 7 5 in
   let now := Fin 1 in
   let '(x, y, w, h) :=
     cover_fit rnd (canvas_width env) (canvas_height env)
               (width Samples.photo) (height Samples.photo) in
   actions (Machine.drawFrame rnd env now Samples.cold_video)
   = [onProgress (progress_of rnd env now);
      fillRect (of_Z 0) (of_Z 0) (canvas_width env) (canvas_height env);
      drawImage (ImageSource Samples.photo) x y w h;
      requestAnimationFrame])
  /\ (let env := Samples64.clip_env in
      let now := Fin 1 in
      let v := Samples.ready_video 3 in
      let '(x, y, w, h) :=
        cover_fit rnd (canvas_width env) (canvas_height env)
                  (videoWidth v) (videoHeight v) in
      exists sync,
        actions (Machine.drawFrame rnd env now v)
        = [onProgress (progress_of rnd env now);
           fillRect (of_Z 0) (of_Z 0) (canvas_width env) (canvas_height env)]
          ++ sync ++ [drawImage (VideoSource v) x y w h; requestAnimationFrame]
        /\ (List.length sync <= 1)%nat /\ forallb is_seek sync = true)
  /\ (exists dw dh,
        snd (fst (cover_fit rnd (Fin 1920) (Fin 1080) (Fin 640) (Fin 480))) = Fin dw
        /\ snd (cover_fit rnd (Fin 1920) (Fin 1080) (Fin 640) (Fin 480)) = Fin dh
        /\ dw == 640 * Qmax (1920 / 640) (1080 / 480)
        /\ dh == 480 * Qmax (1920 / 640) (1080 / 480)
        /\ 1920 <= dw /\ 1080 <= dh /\ (dw == 1920 \/ dh == 1080))
  /\ (exists dw dh,
        snd (fst (cover_fit rnd (Fin 1920) (Fin 1080) (Fin 832) (Fin 1216))) = Fin dw
        /\ snd (cover_fit rnd (Fin 1920) (Fin 1080) (Fin 832) (Fin 1216)) = Fin dh
        /\ 1920 * (1 - u) * (1 - u) <= dw /\ 1080 * (1 - u) * (1 - u) <= dh
        /\ (dw <= 1920 * (1 + u) * (1 + u) \/ dh <= 1080 * (1 + u) * (1 + u))).
Proof.
  destruct cover_fit_binary64 as (Himage & Hvideo & Hexact & Hnear).
  split; [|split; [|split]].
  - apply (Himage (Samples64.render_env 7 5) (Fin 1) Samples.cold_video
                  (Samples.still_image "a") Samples.photo);
      vm_compute; reflexivity.
  - apply (Hvideo Samples64.clip_env (Fin 1) (Samples.ready_video 3)
                  (Samples.open_clip 2));
      vm_compute; (reflexivity || discriminate).
  - apply (Hexact 1920 1080 640 480); vm_compute; reflexivity.
  - apply (Hnear 1920 1080 832 1216); vm_compute; discriminate.
Defined.

(** C2 as stated fails by a rounding: an 832 by 1216 image on the 1920 by
    1080 surface is drawn [1920 - 2^-42] wide (1919.9999999999998) and
    higher than the surface, so it neither covers the width nor equals
    the surface on an axis. *)
Lemma cover_fit_counterexample :
  exists x y w h : Q,
    actions (Machine.drawFrame rnd Samples64.tall_env (Fin 1) Samples.cold_video)
    = [onProgress (progress_of rnd Samples64.tall_env (Fin 1));
       fillRect (of_Z 0) (of_Z 0) (of_Z 1920) (of_Z 1080);
       drawImage (ImageSource Samples64.tall_photo) (Fin x) (Fin y) (Fin w) (Fin h);
       requestAnimationFrame]
    /\ w == 1920 - 2 ^ (-42) /\ w < 1920 /\ 1080 < h.
Proof.
  do 4 eexists. split; [vm_compute; reflexivity|].
  repeat split; vm_compute; reflexivity.
Qed.

End CoverFit.


(* ===================================================================== *)
(** * The position shown inside a clip                                    *)
(* ===================================================================== *)

Module ClipTime.

Import Types VideoUtils JsNumFacts Design.

Lemma Qmod_comp : Proper (Qeq ==> Qeq ==> Qeq) Qmod.
Proof.
  intros a a' Ea b b' Eb. unfold Qmod.
  assert (F : Qfloor (a / b) = Qfloor (a' / b')) by (now rewrite Ea, Eb).
  now rewrite F, Ea, Eb.
Qed.

#[local] Existing Instance Qmod_comp.

Lemma Qmod_bounds (a b : Q) : 0 < b -> 0 <= Qmod a b /\ Qmod a b < b.
Proof.
  intros Hb. unfold Qmod.
  assert (Nb : ~ b == 0) by (intros E; rewrite E in Hb; discriminate).
  pose proof (Qfloor_le (a / b)) as Lo.
  pose proof (Qlt_floor (a / b)) as Hi.
  rewrite inject_Z_plus in Hi.
  pose proof (Qdiv_cancel a b Nb) as E.
  set (x := a / b) in *. set (k := inject_Z (Qfloor x)) in *.
  change (inject_Z 1) with 1 in Hi.
  split; nra.
Qed.

Lemma jrem_mod (a b : Q) :
  0 <= a -> 0 < b -> jrem (Fin a) (Fin b) = Fin (Qmod a b).
Proof.
  intros Ha Hb. unfold jrem, Qmod.
  assert (Nb : Qeq_bool b 0 = false).
  { apply Qeq_bool_false. intros E. rewrite E in Hb. discriminate. }
  rewrite Nb, Qtrunc_nonneg by (apply Qdiv_nonneg; assumption).
  reflexivity.
Qed.

(** [o || d] on a field that holds a finite number or nothing. *)
Lemma or_default_fin (o : option Q) (d : Q) :
  (forall q, o = Some q -> q == 0 -> d == 0) ->
  exists r, or_default (option_map Fin o) (Fin d) = Fin r /\ r == from_option d o.
Proof.
  intros Hz. destruct o as [q|]; cbn.
  - destruct (Qeq_bool q 0) eqn:E; cbn.
    + exists d. split; [reflexivity|]. apply Qeq_bool_iff in E.
      rewrite E. apply (Hz q); [reflexivity | exact E].
    + exists q. split; reflexivity.
  - exists d. split; reflexivity.
Qed.

Section Windows.

Variable asset : VisualAsset.
Variables vs ve : option Q.
Variables elapsed sceneDuration : Q.

Hypothesis Hstart : videoStart asset = option_map Fin vs.
Hypothesis Hend : videoEnd asset = option_map Fin ve.

Hypothesis Hstart_nonneg : 0 <= (from_option 0 vs).
Hypothesis Hwindow : forall e, ve = Some e -> (from_option 0 vs) < e.
Hypothesis Helapsed : 0 <= elapsed.
Hypothesis Hscene : 0 < sceneDuration.

(** The recorder computes the documented target position. *)
Lemma recorder_targetTime_spec :
  exists q,
    clip_targetTime asset (Fin elapsed) (Fin sceneDuration) = Fin q
    /\ q == spec_targetTime (from_option 0 vs) ve elapsed sceneDuration.
Proof.
  unfold clip_targetTime. rewrite Hstart, Hend.
  change (of_Z 0) with (Fin 0).
  destruct (or_default_fin vs 0) as (s & -> & Es); [reflexivity|].
  change (jadd (Fin s) (of_Z 5)) with (Fin (s + 5)).
  destruct (or_default_fin ve (s + 5)) as (e & -> & Ee).
  { intros q Eq Hq. pose proof (Hwindow q Eq) as Hlt. rewrite Hq in Hlt.
    exfalso. apply (Qlt_not_le _ _ Hlt Hstart_nonneg). }
  assert (Hlen : 0 < e - s).
  { destruct ve as [x|]; cbn in Ee.
    - pose proof (Hwindow x eq_refl). lra.
    - lra. }
  rewrite (jrem_mod elapsed sceneDuration Helapsed Hscene).
  change (jsub (Fin e) (Fin s)) with (Fin (e - s)).
  rewrite jrem_mod by (assumption || apply Qmod_bounds, Hscene).
  eexists. split; [reflexivity|].
  unfold spec_targetTime.
  assert (Ee' : e == match ve with Some x => x | None => (from_option 0 vs) + 5 end).
  { rewrite Ee. destruct ve; cbn; [reflexivity | now rewrite Es]. }
  clear Ee.
  now rewrite Ee', Es.
Qed.

(** The preview computes it when the asset sets [videoEnd]. *)
Lemma preview_targetTime_spec :
  ve <> None ->
  exists q,
    App.preview_targetTime asset (Fin elapsed) (Fin sceneDuration) = Fin q
    /\ q == spec_targetTime (from_option 0 vs) ve elapsed sceneDuration.
Proof.
  intros Hset. destruct ve as [x|] eqn:Eve; [clear Hset | congruence].
  unfold App.preview_targetTime. rewrite Hstart, Hend.
  change (of_Z 0) with (Fin 0).
  destruct (or_default_fin vs 0) as (s & -> & Es); [reflexivity|].
  pose proof (Hwindow x eq_refl) as Hx.
  change (of_Z 10) with (Fin 10).
  destruct (or_default_fin (Some x) 10) as (e & -> & Ee).
  { intros q [= <-] Hq. rewrite Hq in Hx.
    exfalso. apply (Qlt_not_le _ _ Hx Hstart_nonneg). }
  cbn in Ee.
  assert (Hlen : 0 < e - s) by lra.
  rewrite (jrem_mod elapsed sceneDuration Helapsed Hscene).
  change (jsub (Fin e) (Fin s)) with (Fin (e - s)).
  rewrite jrem_mod by (assumption || apply Qmod_bounds, Hscene).
  eexists. split; [reflexivity|].
  unfold spec_targetTime. now rewrite Ee, Es.
Qed.

(** Without [videoEnd] the preview takes the window to end at 10 seconds. *)
Lemma preview_targetTime_unset :
  ve = None -> (from_option 0 vs) < 10 ->
  exists q,
    App.preview_targetTime asset (Fin elapsed) (Fin sceneDuration) = Fin q
    /\ q == (from_option 0 vs) + Qmod (Qmod elapsed sceneDuration) (10 - (from_option 0 vs)).
Proof.
  intros Eve H10.
  unfold App.preview_targetTime. rewrite Hstart, Hend, Eve.
  change (of_Z 0) with (Fin 0).
  destruct (or_default_fin vs 0) as (s & -> & Es); [reflexivity|].
  cbn [option_map or_default].
  change (of_Z 10) with (Fin 10).
  assert (Hlen : 0 < 10 - s) by lra.
  rewrite (jrem_mod elapsed sceneDuration Helapsed Hscene).
  change (jsub (Fin 10) (Fin s)) with (Fin (10 - s)).
  rewrite jrem_mod by (assumption || apply Qmod_bounds, Hscene).
  eexists. split; [reflexivity|]. now rewrite Es.
Qed.

End Windows.

(** C3 at a clip that does not set [videoEnd]: a 20 second narration over
    the single asset [{type: 'video', videoStart: 2}], read 6 seconds in
    with the video element at position 0.  The documented target is
    [2 + ((6 mod 20) mod 5) = 3]; the recorder seeks to 3, the preview
    seeks to [2 + ((6 mod 20) mod (10 - 2)) = 8]. *)
Theorem preview_clip_end_default_diverges :
  let asset := Samples.open_clip 2 in
  let env := Samples.env_clip in
  spec_targetTime 2 None 6 20 == 3
  /\ (exists t, In (VideoUtils.seek t)
                   (actions (drawFrame env (of_Z 6) (Samples.ready_video 0)))
                /\ num_eq t (of_Z 3))
  /\ (exists t, In (App.seek t)
                   (App.updateSlideshow (Some (of_Z 6)) (Some (mkAudioBuffer 20))
                      [asset] (of_Z 0) (of_Z 0)
                      (Some (App.mkPreviewVideo (of_Z 0) false)) true)
                /\ num_eq t (of_Z 8)).
Proof.
  cbv zeta. split; [reflexivity|]. split.
  - eexists. split; [vm_compute; right; right; left; reflexivity | reflexivity].
  - eexists. split; [vm_compute; left; reflexivity | reflexivity].
Qed.

(** Scenario B of the design document: a clip window of 2 to 5 seconds in
    a 9 second scene is walked three times. *)
Example clip_loops_three_times :
  map (fun t => spec_targetTime 2 (Some 5) t 9) [0; 1; 2; 3; 4; 5; 6; 7; 8]
  = map inject_Z [2; 3; 4; 2; 3; 4; 2; 3; 4]%Z
  /\ forall t, In t [0; 1; 2; 3; 4; 5; 6; 7; 8] ->
       num_eq (clip_targetTime (Samples.clip 2 5) (Fin t) (of_Z 9))
              (Fin (spec_targetTime 2 (Some 5) t 9)).
Proof.
  split; [vm_compute; reflexivity|].
  intros t Ht. cbn in Ht.
  repeat (destruct Ht as [<-|Ht]; [vm_compute; reflexivity|]). destruct Ht.
Qed.

End ClipTime.

(* ===================================================================== *)
(** * Re-seeking the shared clip                                          *)
(* ===================================================================== *)

Module SeekTolerance.

Import Types VideoUtils JsNumFacts Design.







End SeekTolerance.

(* ===================================================================== *)
(** * The frame sampler                                                   *)
(* ===================================================================== *)

Module SamplerProps.

Import MediaProcessing JsNumFacts Design.

(** Without a context the loop captures nothing. *)
Lemma sample_loop_blind (f : VideoFile) (step : num) (fuel : nat) :
  forall (c : num) (frames : list VideoFrame) (o : Outcome),
    sample_loop fuel false f step c frames = Some o -> o = Resolved frames.
Proof.
  induction fuel as [|fuel IH]; intros c frames o Hrun; [discriminate|].
  cbn [sample_loop] in Hrun.
  destruct (jlt c (duration f)); [eauto | congruence].
Qed.

Section Loop.

Variable f : VideoFile.
Variables d s : Q.
Hypothesis Hduration : duration f = Fin d.
Hypothesis Hstep : 0 < s.

Lemma before_end (k : nat) :
  inject_Z (Z.of_nat k) * s < d -> (k < spec_frame_count d s)%nat.
Proof.
  intros H. unfold spec_frame_count.
  assert (Ns : ~ s == 0) by (intros E; rewrite E in Hstep; discriminate).
  assert (L : inject_Z (Z.of_nat k) < d / s).
  { apply Qlt_shift_div_l; assumption. }
  pose proof (Qle_ceiling (d / s)) as C.
  assert (Z.of_nat k < Qceiling (d / s))%Z.
  { rewrite Zlt_Qlt. eapply Qlt_le_trans; eassumption. }
  lia.
Qed.

Lemma past_end (k : nat) :
  ~ inject_Z (Z.of_nat k) * s < d -> (spec_frame_count d s <= k)%nat.
Proof.
  intros H. apply Qnot_lt_le in H. unfold spec_frame_count.
  assert (L : d / s <= inject_Z (Z.of_nat k)).
  { apply Qle_shift_div_r; assumption. }
  apply Qceiling_resp_le in L. rewrite Qceiling_Z in L. lia.
Qed.

Lemma next_position (c : Q) (k : nat) :
  c == inject_Z (Z.of_nat k) * s -> c + s == inject_Z (Z.of_nat (S k)) * s.
Proof.
  intros E. rewrite Nat2Z.inj_succ. unfold Z.succ. rewrite inject_Z_plus, E.
  change (inject_Z 1) with 1. ring.
Qed.

Lemma jround_position (c : Q) (k : nat) :
  c == inject_Z (Z.of_nat k) * s -> jround (Fin c) = spec_timestamp s k.
Proof.
  intros E. unfold jround, spec_timestamp, of_Z.
  assert (F : Qfloor (c + (1 # 2)) = Qfloor (inject_Z (Z.of_nat k) * s + (1 # 2)))
    by (now rewrite E).
  now rewrite F.
Qed.

Lemma jlt_position (c : Q) (k : nat) :
  c == inject_Z (Z.of_nat k) * s ->
  jlt (Fin c) (duration f) = true <-> inject_Z (Z.of_nat k) * s < d.
Proof.
  intros E. rewrite Hduration. cbn [jlt]. rewrite Qlt_bool_iff, E. reflexivity.
Qed.


End Loop.

End SamplerProps.

(* ===================================================================== *)
(** * The frame sampler in binary64                                       *)
(* ===================================================================== *)

Module Sampler64.

Import MediaProcessing JsNumFacts Design Views Binary64 Binary64Facts MachineViews.

Local Open Scope nat_scope.

Section AnyRounding.

Variable r : num -> num.
Variable f : VideoFile.
Variable step : num.

(** Without a context the loop captures nothing. *)
Lemma loop_blind (fuel : nat) :
  forall (c : num) (frames : list VideoFrame) (o : Outcome),
    Machine.sample_loop r fuel false f step c frames = Some o -> o = Resolved frames.
Proof.
  induction fuel as [|fuel IH]; intros c frames o Hrun; [discriminate|].
  cbn [Machine.sample_loop] in Hrun.
  destruct (jlt c (duration f)); [eauto | congruence].
Qed.

(** A loop with a context that resolves has captured at each position it
    visited, in order, and stopped at the first position that is not
    before the end. *)
Lemma loop_trace (fuel : nat) :
  forall (k : nat) (frames out : list VideoFrame),
    Machine.sample_loop r fuel true f step (position r step k) frames
    = Some (Resolved out) ->
    exists extra,
      out = frames ++ extra
      /\ map timestamp extra
         = map (fun j => jround (position r step j)) (seq k (List.length extra))
      /\ map (fun fr => Some (base64 fr)) extra
         = map (fun j => still f (position r step j)) (seq k (List.length extra))
      /\ (forall j, k <= j < k + List.length extra ->
                    jlt (position r step j) (duration f) = true)
      /\ jlt (position r step (k + List.length extra)) (duration f) = false.
Proof.
  induction fuel as [|fuel IH]; intros k frames out Hrun; [discriminate|].
  cbn [Machine.sample_loop] in Hrun.
  destruct (jlt (position r step k) (duration f)) eqn:Hlt.
  - destruct (still f (position r step k)) as [data|] eqn:Hs; [|discriminate].
    change (Machine.add r (position r step k) step) with (position r step (S k)) in Hrun.
    destruct (IH (S k) _ out Hrun) as (extra & Eout & Hts & Hdata & Hbefore & Hend).
    exists (mkVideoFrame (jround (position r step k)) data :: extra).
    split; [rewrite Eout; now rewrite <- app_assoc|].
    cbn [List.length seq map timestamp base64]. rewrite Hts, Hdata, Hs.
    split; [reflexivity|]. split; [reflexivity|]. split.
    + intros j Hj. destruct (Nat.eq_dec j k) as [->|N]; [exact Hlt|].
      apply Hbefore. lia.
    + now replace (k + S (List.length extra)) with (S k + List.length extra) by lia.
  - injection Hrun as <-. exists [].
    split; [now rewrite app_nil_r|]. split; [reflexivity|]. split; [reflexivity|].
    cbn [List.length]. rewrite Nat.add_0_r. split; [|exact Hlt].
    intros j Hj. lia.
Qed.

(** A capture that throws at a visited position rejects the run. *)
Lemma loop_rejects (m : nat) :
  forall (k : nat) (frames : list VideoFrame) (fuel : nat),
    (forall j, k <= j <= k + m -> jlt (position r step j) (duration f) = true) ->
    still f (position r step (k + m)) = None ->
    m < fuel ->
    Machine.sample_loop r fuel true f step (position r step k) frames
    = Some (Rejected CaptureError).
Proof.
  induction m as [|m IH]; intros k frames fuel Hbefore Hs Hfuel;
    (destruct fuel as [|fuel]; [lia|]); cbn [Machine.sample_loop].
  - rewrite Nat.add_0_r in Hs. rewrite (Hbefore k ltac:(lia)), Hs. reflexivity.
  - rewrite (Hbefore k ltac:(lia)).
    destruct (still f (position r step k)) as [data|]; [|reflexivity].
    change (Machine.add r (position r step k) step) with (position r step (S k)).
    apply IH; [|now replace (S k + m) with (k + S m) by lia | lia].
    intros j Hj. apply Hbefore. lia.
Qed.

(** It resolves when no capture throws. *)
Lemma loop_resolves (ctx : bool) (fuel : nat) :
  (forall t, still f t <> None) ->
  forall (c : num) (frames : list VideoFrame) (o : Outcome),
    Machine.sample_loop r fuel ctx f step c frames = Some o ->
    exists out, o = Resolved out.
Proof.
  intros Hstill. induction fuel as [|fuel IH]; intros c frames o Hrun; [discriminate|].
  cbn [Machine.sample_loop] in Hrun.
  destruct (jlt c (duration f)).
  - destruct ctx.
    + destruct (still f c) eqn:E; [eauto | elim (Hstill c E)].
    + eauto.
  - injection Hrun as <-. eauto.
Qed.

(** The loop goes on as long as the positions stay before the end and no
    capture throws. *)
Lemma loop_goes_on (ctx : bool) (fuel : nat) :
  (ctx = false \/ forall t, still f t <> None) ->
  (forall j, jlt (position r step j) (duration f) = true) ->
  forall (k : nat) (frames : list VideoFrame),
    Machine.sample_loop r fuel ctx f step (position r step k) frames = None.
Proof.
  intros Hquiet Hbefore. induction fuel as [|fuel IH]; intros k frames; [reflexivity|].
  cbn [Machine.sample_loop]. rewrite (Hbefore k).
  change (Machine.add r (position r step k) step) with (position r step (S k)).
  destruct ctx.
  - destruct Hquiet as [Hq|Hq]; [discriminate|].
    destruct (still f (position r step k)) eqn:E; [apply IH | elim (Hq _ E)].
  - apply IH.
Qed.

End AnyRounding.

Local Open Scope Q_scope.

Section Exact.

Variable f : VideoFile.
Variables d s : Q.
Hypothesis Hduration : duration f = Fin d.
Hypothesis Hstep : 0 < s.
Hypothesis Hexact :
  forall k, (k <= spec_frame_count d s)%nat -> representable (inject_Z (Z.of_nat k) * s).

(** While the multiples of the step are binary64 numbers the accumulated
    position is the multiple. *)
Lemma exact_position (k : nat) :
  (k <= spec_frame_count d s)%nat ->
  exists c, position rnd (Fin s) k = Fin c /\ c == inject_Z (Z.of_nat k) * s.
Proof.
  induction k as [|k IH]; intros Hk.
  - exists (inject_Z 0). split; [reflexivity|]. cbn. ring.
  - destruct (IH ltac:(lia)) as (c & Ec & Hc).
    cbn [position]. rewrite Ec. unfold Machine.add. cbn [jadd rnd].
    rewrite (round64_comp _ _ (SamplerProps.next_position s c k Hc)).
    apply representable_value, Hexact, Hk.
Qed.

Lemma exact_before (k : nat) :
  (k <= spec_frame_count d s)%nat ->
  jlt (position rnd (Fin s) k) (duration f) = true <-> (k < spec_frame_count d s)%nat.
Proof.
  intros Hk. destruct (exact_position k Hk) as (c & -> & Hc).
  rewrite (SamplerProps.jlt_position f d s Hduration c k Hc). split.
  - apply SamplerProps.before_end, Hstep.
  - intros H. destruct (Qlt_le_dec (inject_Z (Z.of_nat k) * s) d) as [L|L]; [exact L|].
    assert (N : ~ inject_Z (Z.of_nat k) * s < d) by lra.
    apply (SamplerProps.past_end d s Hstep) in N. lia.
Qed.

Lemma exact_timestamp (k : nat) :
  (k <= spec_frame_count d s)%nat ->
  jround (position rnd (Fin s) k) = spec_timestamp s k.
Proof.
  intros Hk. destruct (exact_position k Hk) as (c & -> & Hc).
  exact (SamplerProps.jround_position s c k Hc).
Qed.

(** The loop ends after [ceil(d / s)] positions, with or without a
    context. *)
Lemma exact_ends (ctx : bool) (m : nat) :
  forall (k : nat) (frames : list VideoFrame),
    (k <= spec_frame_count d s)%nat ->
    (spec_frame_count d s <= k + m)%nat ->
    Machine.sample_loop rnd (S m) ctx f (Fin s) (position rnd (Fin s) k) frames <> None.
Proof.
  induction m as [|m IH]; intros k frames Hk Hm.
  - cbn [Machine.sample_loop].
    destruct (jlt _ (duration f)) eqn:Hlt; [|discriminate].
    apply (exact_before k Hk) in Hlt. lia.
  - remember (S m) as fuel. cbn [Machine.sample_loop].
    destruct (jlt _ (duration f)) eqn:Hlt; [|discriminate].
    apply (exact_before k Hk) in Hlt.
    change (Machine.add rnd (position rnd (Fin s) k) (Fin s))
      with (position rnd (Fin s) (S k)).
    destruct ctx.
    + destruct (still f _); [|discriminate].
      subst fuel. apply IH; lia.
    + subst fuel. apply IH; lia.
Qed.

End Exact.

Lemma extract_unfold (ctx : bool) (f : VideoFile) (step : option Q) (fuel : nat) :
  loads f = true ->
  Machine.extractFramesFromVideo rnd fuel ctx f (option_map Fin step)
  = Machine.sample_loop rnd fuel ctx f (Fin (from_option 3 step))
      (position rnd (Fin (from_option 3 step)) 0) [].
Proof.
  intros Hloads. unfold Machine.extractFramesFromVideo. rewrite Hloads.
  destruct step; reflexivity.
Qed.

(** C5, as the program computes it.  With a drawing context, a run that
    resolves has captured at the accumulated positions [0], [0 + step],
    [(0 + step) + step], ..., each sum rounded to binary64, as long as the
    position is before the end; frame [k] is stamped with that position
    rounded to the nearest integer.  When the multiples [k * step] up to
    the end are binary64 numbers (as for whole seconds), the run ends,
    and a run that resolves returns exactly [ceil(duration / step)]
    frames, frame [k] stamped [round(k * step)]. *)
Theorem sampler_binary64 (f : VideoFile) (d : Q) (step : option Q) :
  loads f = true -> duration f = Fin d -> 0 < from_option 3 step ->
  let s := from_option 3 step in
  let sample fuel := Machine.extractFramesFromVideo rnd fuel true f (option_map Fin step) in
  (forall fuel frames,
      sample fuel = Some (Resolved frames) ->
      map timestamp frames
      = map (fun k => jround (position rnd (Fin s) k)) (seq 0 (List.length frames))
      /\ (forall k, (k < List.length frames)%nat ->
                    jlt (position rnd (Fin s) k) (Fin d) = true)
      /\ jlt (position rnd (Fin s) (List.length frames)) (Fin d) = false)
  /\ ((forall k, (k <= spec_frame_count d s)%nat ->
                 representable (inject_Z (Z.of_nat k) * s)) ->
      (exists fuel, sample fuel <> None)
      /\ ((forall t, still f t <> None) ->
          exists fuel frames, sample fuel = Some (Resolved frames))
      /\ (forall fuel frames,
            sample fuel = Some (Resolved frames) ->
            List.length frames = Z.to_nat (Qceiling (d / s))
            /\ map timestamp frames = spec_timestamps d s)).
Proof.
  intros Hloads Hd Hs s sample.
  assert (Htrace : forall fuel frames,
             sample fuel = Some (Resolved frames) ->
             map timestamp frames
             = map (fun k => jround (position rnd (Fin s) k)) (seq 0 (List.length frames))
             /\ (forall k, (k < List.length frames)%nat ->
                           jlt (position rnd (Fin s) k) (Fin d) = true)
             /\ jlt (position rnd (Fin s) (List.length frames)) (Fin d) = false).
  { intros fuel frames Hrun. subst sample. cbv beta in Hrun.
    rewrite extract_unfold in Hrun by exact Hloads. fold s in Hrun.
    destruct (loop_trace rnd f (Fin s) fuel 0%nat [] frames Hrun)
      as (extra & -> & Hts & _ & Hbefore & Hend).
    cbn [app]. rewrite <- Hd. split; [exact Hts|]. split; [|exact Hend].
    intros k Hk. apply Hbefore. lia. }
  split; [exact Htrace|]. intros Hexact.
  assert (Hend : sample (S (spec_frame_count d s)) <> None).
  { subst sample. cbv beta. rewrite extract_unfold by exact Hloads. fold s.
    apply (exact_ends f d s Hd Hs Hexact true); lia. }
  split; [eauto|]. split.
  - intros Hstill.
    destruct (sample (S (spec_frame_count d s))) as [o|] eqn:E; [|congruence].
    subst sample. cbv beta in E. pose proof E as E'.
    rewrite extract_unfold in E' by exact Hloads.
    destruct (loop_resolves rnd f _ true _ Hstill _ _ _ E') as (out & ->).
    eauto.
  - intros fuel frames Hrun.
    destruct (Htrace fuel frames Hrun) as (Hts & Hbefore & Hstop).
    assert (Hlen : List.length frames = spec_frame_count d s).
    { destruct (Nat.lt_trichotomy (List.length frames) (spec_frame_count d s))
        as [L|[E|G]]; [|exact E|].
      - exfalso.
        apply (proj2 (exact_before f d s Hd Hs Hexact (List.length frames) ltac:(lia))) in L.
        rewrite Hd in L. congruence.
      - exfalso.
        pose proof (Hbefore (spec_frame_count d s) G) as B.
        rewrite <- Hd in B.
        apply (proj1 (exact_before f d s Hd Hs Hexact (spec_frame_count d s) ltac:(lia))) in B.
        lia. }
    split; [exact Hlen|]. rewrite Hts, Hlen. unfold spec_timestamps.
    apply map_ext_in. intros k Hk. apply in_seq in Hk.
    apply (exact_timestamp d s Hexact). lia.
Qed.

Lemma sampler_binary64_witness :
  let sample fuel :=
    Machine.extractFramesFromVideo rnd fuel true Samples.upload10 (option_map Fin (Some 4)) in
  (exists fuel, sample fuel <> None)
  /\ ((forall t, still Samples.upload10 t <> None) ->
      exists fuel frames, sample fuel = Some (Resolved frames))
  /\ (forall fuel frames,
        sample fuel = Some (Resolved frames) ->
        List.length frames = Z.to_nat (Qceiling (10 / from_option 3 (Some 4)))
        /\ map timestamp frames = spec_timestamps 10 (from_option 3 (Some 4))).
Proof.
  apply (proj2 (sampler_binary64 Samples.upload10 10 (Some 4) eq_refl eq_refl eq_refl)).
  intros k Hk.
  assert (Hk' : (k <= 3)%nat) by exact Hk.
  destruct k as [|[|[|[|k]]]]; [vm_compute; reflexivity .. | lia].
Defined.

(** The design document's scenario: a 10 second source sampled every 4
    seconds gives the frames 0, 4 and 8. *)
Example sampler_ten_seconds_step_four_binary64 :
  Machine.extractFramesFromVideo rnd 4 true Samples.upload10 (Some (of_Z 4))
  = Some (Resolved [mkVideoFrame (of_Z 0) "jpeg"; mkVideoFrame (of_Z 4) "jpeg";
                    mkVideoFrame (of_Z 8) "jpeg"]).
Proof. vm_compute. reflexivity. Qed.

(** C5 as stated fails where the sums round: a one second source sampled
    every 0.1 seconds gives 11 frames, stamped 0 five times and 1 six
    times, where [ceil(1 / 0.1)] is 10; the last frame is taken at
    0.9999999999999999. *)
Lemma sampler_rounding_counterexample :
  let step := MachineViews.double (1 # 10) in
  map timestamp
      (match Machine.extractFramesFromVideo rnd 12 true Samples64.upload1 (Some (Fin step))
       with Some (Resolved frames) => frames | _ => [] end)
  = map of_Z [0; 0; 0; 0; 0; 1; 1; 1; 1; 1; 1]%Z
  /\ Z.to_nat (Qceiling (1 / step)) = 10%nat
  /\ jlt (position rnd (Fin step) 10) (of_Z 1) = true.
Proof.
  cbv zeta. split; [vm_compute; reflexivity|]. split; vm_compute; reflexivity.
Qed.

End Sampler64.

(* ===================================================================== *)
(** * The render session                                                  *)
(* ===================================================================== *)

Module SessionProps.

Import Types VideoUtils JsNumFacts Design.

(** A tick either arms the stop timer and nothing else, or only draws. *)
Lemma drawFrame_shape env now v :
  let tick := drawFrame env now v in
  (jge (elapsed_of env now) (duration env) = true
   /\ completion tick = Returned
   /\ actions tick = [onProgress (progress_of env now); setTimeout_stop 500])
  \/ (jge (elapsed_of env now) (duration env) = false
      /\ completion tick <> Returned
      /\ exists rest, actions tick = onProgress (progress_of env now) :: rest
                      /\ forallb draws rest = true
                      /\ forall t, reports (stamp t rest) = []).
Proof.
  cbv zeta. unfold drawFrame, progress_of. fold (elapsed_of env now).
  destruct (jge (elapsed_of env now) (duration env)).
  - left. cbn. eauto.
  - right. split; [reflexivity|].
    destruct (get (assets env) _) as [asset|]; cbn [completion actions].
    + split; [discriminate|]. eexists. split; [reflexivity|].
      destruct (is_image asset); cbn [app];
        repeat match goal with
               | |- context [match ?c with _ => _ end] => destruct c; cbn
               end; split; reflexivity.
    + split; [discriminate|]. eexists. split; [reflexivity|].
      split; reflexivity.
Qed.

Lemma timers_app (a b : list (Z * Action)) : timers (a ++ b) = timers a ++ timers b.
Proof.
  induction a as [|[t x] a IH]; [reflexivity|].
  destruct x; cbn; rewrite IH; reflexivity.
Qed.

Lemma stops_app (a b : list (Z * Action)) : stops (a ++ b) = stops a ++ stops b.
Proof.
  induction a as [|[t x] a IH]; [reflexivity|].
  destruct x; cbn; rewrite IH; reflexivity.
Qed.

Lemma blobs_app (a b : list (Z * Action)) : blobs (a ++ b) = blobs a ++ blobs b.
Proof.
  induction a as [|[t x] a IH]; [reflexivity|].
  destruct x; cbn; rewrite IH; reflexivity.
Qed.


Lemma reports_stamp (t u : Z) (acts : list Action) :
  reports (stamp t acts) = reports (stamp u acts).
Proof.
  unfold stamp. induction acts as [|x acts IH]; [reflexivity|].
  destruct x; cbn; rewrite ?IH; reflexivity.
Qed.

Lemma draws_only (t : Z) (acts : list Action) :
  forallb draws acts = true ->
  timers (stamp t acts) = [] /\ stops (stamp t acts) = [] /\ blobs (stamp t acts) = [].
Proof.
  induction acts as [|x acts IH]; [now repeat split|].
  cbn [forallb]. intros H. apply andb_true_iff in H. destruct H as [Hx H].
  destruct x; try discriminate Hx; cbn; exact (IH H).
Qed.

(** What a tick adds to the log, and the phase it leaves. *)
Lemma tick_effect env now v (t : Z) :
  let tick := drawFrame env now v in
  (jge (elapsed_of env now) (duration env) = true
   /\ after_tick t tick = Settling (t + 500)
   /\ timers (stamp t (actions tick)) = [(t, 500%Z)]
   /\ stops (stamp t (actions tick)) = []
   /\ blobs (stamp t (actions tick)) = [])
  \/ (jge (elapsed_of env now) (duration env) = false
      /\ (after_tick t tick = Recording \/ after_tick t tick = Crashed)
      /\ timers (stamp t (actions tick)) = []
      /\ stops (stamp t (actions tick)) = []
      /\ blobs (stamp t (actions tick)) = []).
Proof.
  cbv zeta. unfold after_tick.
  destruct (drawFrame_shape env now v) as [(Hge & Hc & Ha)|(Hge & Hc & rest & Ha & Hd & _)].
  - left. rewrite Hc, Ha. cbn. now repeat split.
  - right. split; [exact Hge|].
    split; [destruct (completion (drawFrame env now v)); tauto|].
    rewrite Ha. destruct (draws_only t rest Hd) as (T & S & B).
    cbn. now repeat split.
Qed.

Lemma finalizes_in_order_init host t0 c0 ab assets platform :
  finalizes_in_order (renderVideo host t0 c0 ab assets platform).
Proof.
  unfold renderVideo. destruct (context2d host); cbn; now repeat split.
Qed.

Lemma finalizes_in_order_step (s s' : Session) (o : Occurrence) :
  finalizes_in_order s -> step s o = Some s' -> finalizes_in_order s'.
Proof.
  intros Inv Hstep. unfold step in Hstep.
  destruct (negb _) eqn:Hclk; [discriminate|].
  apply negb_false_iff, andb_true_iff in Hclk. destruct Hclk as [Hwall _].
  apply Z.leb_le in Hwall.
  unfold finalizes_in_order in Inv.
  destruct (phase s) eqn:Hp; destruct (what o) eqn:Hw; try discriminate Hstep.
  - (* the preloads settle *)
    destruct (preload_ok _ _); [|discriminate].
    injection Hstep as <-. destruct Inv as (T & S & B).
    unfold finalizes_in_order, advance. cbn [phase log].
    rewrite !timers_app, !stops_app, !blobs_app, T, S, B.
    set (e := mkEnv _ _ _ _ _ _ _).
    assert (Hpre : forall acts,
               timers (stamp (at_wall o)
                 (recorder_start :: source_start
                  :: match videoAsset s with Some _ => [video_play] | None => [] end
                  ++ acts)) = timers (stamp (at_wall o) acts)
               /\ stops (stamp (at_wall o)
                 (recorder_start :: source_start
                  :: match videoAsset s with Some _ => [video_play] | None => [] end
                  ++ acts)) = stops (stamp (at_wall o) acts)
               /\ blobs (stamp (at_wall o)
                 (recorder_start :: source_start
                  :: match videoAsset s with Some _ => [video_play] | None => [] end
                  ++ acts)) = blobs (stamp (at_wall o) acts)).
    { intros acts. destruct (videoAsset s); cbn; now repeat split. }
    destruct (Hpre (actions (drawFrame e (Fin (at_clock o)) videoEl))) as (-> & -> & ->).
    destruct (tick_effect e (Fin (at_clock o)) videoEl (at_wall o))
      as [(_ & -> & -> & -> & ->)|(_ & [-> | ->] & -> & -> & ->)]; cbn; eauto 10.
  - (* an animation frame *)
    injection Hstep as <-. destruct Inv as (T & S & B).
    unfold finalizes_in_order, advance. cbn [phase log].
    rewrite !timers_app, !stops_app, !blobs_app, T, S, B.
    destruct (tick_effect (env s) (Fin (at_clock o)) videoEl (at_wall o))
      as [(_ & -> & -> & -> & ->)|(_ & [-> | ->] & -> & -> & ->)]; cbn; eauto 10.
  - (* data while recording *)
    injection Hstep as <-. unfold finalizes_in_order, advance. cbn [phase log stamp map].
    rewrite app_nil_r. exact Inv.
  - (* data while settling *)
    injection Hstep as <-. unfold finalizes_in_order, advance. cbn [phase log stamp map].
    rewrite app_nil_r. exact Inv.
  - (* the timer fires *)
    destruct (due <=? at_wall o)%Z eqn:Hdue; [|discriminate].
    apply Z.leb_le in Hdue. injection Hstep as <-.
    destruct Inv as (tf & T & -> & S & B).
    unfold finalizes_in_order, advance. cbn [phase log wall].
    rewrite !timers_app, !stops_app, !blobs_app, T, S, B. cbn.
    exists tf, (at_wall o). repeat split; (reflexivity || lia).
  - (* data while finalizing *)
    injection Hstep as <-. unfold finalizes_in_order, advance. cbn [phase log wall stamp map].
    rewrite app_nil_r.
    destruct Inv as (tf & ts & T & S & L1 & L2 & B).
    exists tf, ts. repeat split; (assumption || lia).
  - (* the recorder has stopped *)
    injection Hstep as <-.
    destruct Inv as (tf & ts & T & S & L1 & L2 & B).
    unfold finalizes_in_order, advance. cbn [phase log chunks mimeType].
    rewrite !timers_app, !stops_app, !blobs_app, T, S, B. cbn.
    exists tf, ts, (at_wall o). repeat split; (reflexivity || lia).
  - (* data after a crash *)
    injection Hstep as <-. unfold finalizes_in_order, advance. cbn [phase log stamp map].
    rewrite app_nil_r. exact Inv.
Qed.

Lemma finalizes_in_order_run (os : list Occurrence) :
  forall s s', finalizes_in_order s -> run s os = Some s' -> finalizes_in_order s'.
Proof.
  induction os as [|o os IH]; intros s s' Inv Hrun; cbn in Hrun.
  - now injection Hrun as <-.
  - destruct (step s o) as [s1|] eqn:E; [|discriminate].
    eapply IH; [eapply finalizes_in_order_step; eassumption | exact Hrun].
Qed.

(** The closed-over variables are those of the call, throughout a run. *)
Lemma render_env_run host t0 c0 ab assets platform (os : list Occurrence) :
  forall s,
    run (renderVideo host t0 c0 ab assets platform) os = Some s ->
    render_env ab assets platform (env s).
Proof.
  assert (Hstep : forall s s' o,
             render_env ab assets platform (env s) -> step s o = Some s' ->
             render_env ab assets platform (env s')).
  { intros s s' o Inv H. unfold step in H.
    destruct (negb _); [discriminate|].
    destruct (phase s); destruct (what o); try discriminate H;
      repeat match type of H with
             | (if ?c then _ else _) = _ => destruct c; try discriminate H
             end;
      injection H as <-; unfold advance; cbn [env]; try exact Inv.
    destruct Inv as (W & Hh & A & Du & Sd & _).
    unfold render_env. cbn. eauto 10. }
  assert (Hrun : forall s s',
             render_env ab assets platform (env s) -> run s os = Some s' ->
             render_env ab assets platform (env s')).
  { induction os as [|o os IH]; intros s s' Inv H; cbn in H.
    - now injection H as <-.
    - destruct (step s o) as [s1|] eqn:E; [|discriminate].
      eapply IH; [eapply Hstep; eassumption | exact H]. }
  intros s. apply Hrun.
  unfold renderVideo, render_env.
  destruct (context2d host); cbn; repeat split; now exists 0.
Qed.



End SessionProps.

(* ===================================================================== *)
(** * Progress reporting                                                  *)
(* ===================================================================== *)

Module ProgressProps.

Import Types VideoUtils JsNumFacts Design SessionProps.






Section Bounds.

Variable D : Q.
Hypothesis HD : 0 < D.






End Bounds.



End ProgressProps.

(* ===================================================================== *)
(** * Missing drawing context, empty asset list                           *)
(* ===================================================================== *)

Module FailureProps.

Import Types VideoUtils JsNumFacts Design Binary64 MachineViews.

(** C8, as the code has it.  Without a 2d context the renderer rejects at
    once with an error, before anything is started, and no event of the
    host moves the session again.  The sampler does not fail for lack of
    a context: a source whose metadata does not load is rejected with or
    without one, and a source whose metadata loads is never rejected and
    never captured without one; whenever the loop ends the promise
    resolves with the empty list, and the loop does end for a finite
    duration and a positive step whose multiples up to the end are
    binary64 numbers. *)
Theorem no_context_outcomes :
  (forall host t0 c0 ab assets platform,
      context2d host = false ->
      let s := renderVideo host t0 c0 ab assets platform in
      phase s = Failed "Could not get canvas context"
      /\ log s = [(t0, reject "Could not get canvas context")]
      /\ forall o, step s o = None)
  /\ (forall f step fuel ctx,
        MediaProcessing.loads f = false ->
        Machine.extractFramesFromVideo rnd fuel ctx f step
        = Some (MediaProcessing.Rejected MediaProcessing.LoadError))
  /\ (forall f step fuel o,
        MediaProcessing.loads f = true ->
        Machine.extractFramesFromVideo rnd fuel false f step = Some o ->
        o = MediaProcessing.Resolved [])
  /\ (forall f d step,
        MediaProcessing.loads f = true ->
        MediaProcessing.duration f = Fin d ->
        0 < from_option 3 step ->
        (forall k, (k <= spec_frame_count d (from_option 3 step))%nat ->
                   representable (inject_Z (Z.of_nat k) * from_option 3 step)) ->
        exists fuel,
          Machine.extractFramesFromVideo rnd fuel false f (option_map Fin step)
          = Some (MediaProcessing.Resolved [])).
Proof.
  split; [|split; [|split]].
  - intros host t0 c0 ab assets platform Hctx s. subst s.
    unfold renderVideo. rewrite Hctx. cbn [phase log].
    repeat split. intros o. unfold step. cbn [phase wall clock].
    destruct (negb _); [reflexivity|]. destruct (what o); reflexivity.
  - intros f step fuel ctx Hloads. unfold Machine.extractFramesFromVideo.
    now rewrite Hloads.
  - intros f step fuel o Hloads Hrun. unfold Machine.extractFramesFromVideo in Hrun.
    rewrite Hloads in Hrun. eapply Sampler64.loop_blind. exact Hrun.
  - intros f d step Hloads Hd Hs Hexact.
    set (s := from_option 3 step) in *.
    exists (S (spec_frame_count d s)).
    rewrite (Sampler64.extract_unfold false f step _ Hloads). fold s.
    destruct (Machine.sample_loop rnd (S (spec_frame_count d s)) false f (Fin s)
                (position rnd (Fin s) 0) []) as [o|] eqn:R.
    + now rewrite (Sampler64.loop_blind _ _ _ _ _ _ _ R).
    + exfalso. revert R.
      apply (Sampler64.exact_ends f d s Hd Hs Hexact false); lia.
Qed.

Lemma no_context_outcomes_witness :
  (let s := renderVideo Samples.headless_host 0 0 (mkAudioBuffer 30)
                        Samples.three_stills YOUTUBE in
   phase s = Failed "Could not get canvas context"
   /\ log s = [(0%Z, reject "Could not get canvas context")]
   /\ forall o, step s o = None)
  /\ (exists fuel,
        Machine.extractFramesFromVideo rnd fuel false Samples.upload10
          (option_map Fin (Some 4))
        = Some (MediaProcessing.Resolved [])).
Proof.
  split.
  - apply (proj1 no_context_outcomes). reflexivity.
  - apply (proj2 (proj2 (proj2 no_context_outcomes)) Samples.upload10 10 (Some 4));
      try reflexivity.
    intros k Hk.
    assert (Hk' : (k <= 3)%nat) by exact Hk.
    destruct k as [|[|[|[|k]]]]; [vm_compute; reflexivity .. | lia].
Defined.

(** C8 as stated fails for the sampler: without a context the 10 second
    upload, sampled at the default step, is neither rejected nor sampled;
    the caller receives an empty list. *)
Lemma sampler_no_context_counterexample :
  Machine.extractFramesFromVideo rnd 5 false Samples.upload10 None
  = Some (MediaProcessing.Resolved [])
  /\ (forall fuel e,
        Machine.extractFramesFromVideo rnd fuel false Samples.upload10 None
        <> Some (MediaProcessing.Rejected e)).
Proof.
  split; [vm_compute; reflexivity|].
  intros fuel e H. unfold Machine.extractFramesFromVideo in H. cbn [MediaProcessing.loads Samples.upload10] in H.
  apply Sampler64.loop_blind in H. discriminate.
Qed.

(** C9, as the code has it.  The download handler returns at once, doing
    nothing and raising nothing, when the asset list is empty; a render
    that it starts is a render of a non-empty asset list. *)
Theorem download_guard :
  (forall host t0 c0 ab platform isPlaying,
      App.handleDownloadVideo host t0 c0 ab [] platform isPlaying = App.Ignored)
  /\ (forall host t0 c0 ab assets platform isPlaying ui s,
        App.handleDownloadVideo host t0 c0 ab assets platform isPlaying
        = App.Started ui s ->
        assets <> []
        /\ exists buffer, ab = Some buffer
                          /\ s = renderVideo host t0 c0 buffer assets platform).
Proof.
  split.
  - intros host t0 c0 [ab|] platform isPlaying; reflexivity.
  - intros host t0 c0 [ab|] assets platform isPlaying ui s H; [|discriminate].
    unfold App.handleDownloadVideo in H.
    destruct assets as [|a assets]; [discriminate|].
    cbn in H. injection H as _ <-. split; [discriminate|]. eauto.
Qed.

Lemma download_guard_witness :
  App.handleDownloadVideo Samples.any_host 0 0 (Some (mkAudioBuffer 30))
                          Samples.three_stills YOUTUBE false
  = App.Started [App.setIsRendering true; App.setRenderProgress (of_Z 0)]
                Samples.render30_start
  /\ Samples.three_stills <> []
  /\ exists buffer, Some (mkAudioBuffer 30) = Some buffer
                    /\ Samples.render30_start
                       = renderVideo Samples.any_host 0 0 buffer
                                     Samples.three_stills YOUTUBE.
Proof.
  split; [reflexivity|].
  apply (proj2 download_guard Samples.any_host 0%Z 0 (Some (mkAudioBuffer 30))
               Samples.three_stills YOUTUBE false
               [App.setIsRendering true; App.setRenderProgress (of_Z 0)]
               Samples.render30_start).
  reflexivity.
Defined.

(** C9 as stated fails.  With an empty asset list the handler returns
    without any error; and [renderVideo] itself, called with an empty
    list, does not reject: it starts the recorder and the audio, and its
    first tick throws while reading [assets[-1].type], which leaves the
    promise pending. *)
Lemma empty_asset_list_counterexample :
  App.handleDownloadVideo Samples.any_host 0 0 (Some (mkAudioBuffer 30)) [] YOUTUBE false
  = App.Ignored
  /\ (let s := renderVideo Samples.any_host 0 0 (mkAudioBuffer 30) [] YOUTUBE in
      phase s = Loading
      /\ option_map (fun s' => (phase s', map snd (log s')))
                    (run s [mkOccurrence 100 1 (ImagesSettled [] (Samples.ready_video 0))])
         = Some (Crashed,
                 [recorder_start; source_start; onProgress (Fin (0 # 30));
                  fillRect (of_Z 0) (of_Z 0) (of_Z 1920) (of_Z 1080)])).
Proof. split; [reflexivity|]. split; vm_compute; reflexivity. Qed.

End FailureProps.

(* ===================================================================== *)
(** * The listener registry                                               *)
(* ===================================================================== *)

Module LoggerProps.

Import Logger Design Views.

Local Open Scope nat_scope.

Lemma unsubscribe_eq (l : Listener) (st : Registry) :
  unsubscribe l st = set_listeners (remove_first l (listeners st)) st.
Proof.
  unfold unsubscribe.
  assert (H : forall ls,
             match indexOf ls l with Some i => splice1 ls i | None => ls end
             = remove_first l ls).
  { induction ls as [|x r IH]; [reflexivity|]. cbn.
    destruct (Nat.eqb x l); [reflexivity|].
    destruct (indexOf r l); cbn; now rewrite <- IH. }
  specialize (H (listeners st)).
  destruct (indexOf (listeners st) l); rewrite <- H; [reflexivity|].
  destruct st; reflexivity.
Qed.

Lemma remove_first_absent (l : Listener) (ls : list Listener) :
  registrations ls l = 0%nat -> remove_first l ls = ls.
Proof.
  unfold registrations. induction ls as [|x r IH]; [reflexivity|]. cbn.
  destruct (Nat.eq_dec x l) as [->|N]; [discriminate|].
  apply Nat.eqb_neq in N. rewrite N. intros H. now rewrite IH.
Qed.

Lemma remove_first_registrations (l l' : Listener) (ls : list Listener) :
  registrations (remove_first l ls) l' =
  if Nat.eqb l' l then Nat.pred (registrations ls l) else registrations ls l'.
Proof.
  unfold registrations. induction ls as [|x r IH]; cbn.
  - now destruct (Nat.eqb l' l).
  - destruct (Nat.eqb x l) eqn:Exl.
    + apply Nat.eqb_eq in Exl. subst x.
      destruct (Nat.eq_dec l l) as [_|N]; [|congruence].
      destruct (Nat.eqb l' l) eqn:E.
      * apply Nat.eqb_eq in E. now subst l'.
      * apply Nat.eqb_neq in E.
        destruct (Nat.eq_dec l l'); [congruence | reflexivity].
    + apply Nat.eqb_neq in Exl. cbn. rewrite IH.
      destruct (Nat.eq_dec x l) as [|_]; [congruence|].
      destruct (Nat.eqb l' l) eqn:E.
      * apply Nat.eqb_eq in E. subst l'.
        destruct (Nat.eq_dec x l); [congruence | reflexivity].
      * destruct (Nat.eq_dec x l'); reflexivity.
Qed.

Lemma remove_first_last (l : Listener) (ls : list Listener) :
  registrations ls l = 0%nat -> remove_first l (ls ++ [l]) = ls.
Proof.
  unfold registrations. induction ls as [|x r IH]; cbn.
  - now rewrite Nat.eqb_refl.
  - destruct (Nat.eq_dec x l) as [->|N]; [discriminate|].
    apply Nat.eqb_neq in N. rewrite N. intros H. now rewrite IH.
Qed.

Lemma skipn_nth (A : Type) (ls : list A) (k : nat) (x : A) :
  nth_error ls k = Some x -> skipn k ls = x :: skipn (S k) ls.
Proof.
  revert k. induction ls as [|y r IH]; intros [|k] H; try discriminate.
  - now injection H as ->.
  - cbn in H. cbn [skipn]. now apply IH.
Qed.

Lemma run_ops_subscriptions (os : list RegOp) (st : Registry) :
  forallb (fun o => match o with DoSubscribe _ => true | DoUnsubscribe _ => false end) os
  = true ->
  run_ops os st
  = mkRegistry (listeners st ++ subscribed os) (console st) (delivered st).
Proof.
  revert st. induction os as [|o os IH]; intros st H.
  - cbn. rewrite app_nil_r. now destruct st.
  - destruct o as [l|l]; [|discriminate]. cbn [forallb] in H.
    change (run_ops (DoSubscribe l :: os) st) with (run_ops os (subscribeToLogs l st)).
    rewrite IH by exact H. unfold subscribeToLogs, set_listeners.
    cbn [listeners console delivered subscribed].
    now rewrite <- app_assoc.
Qed.

(** Delivery when the callbacks neither throw nor unsubscribe: the
    listeners present at the start are called in order, the ones
    subscribed meanwhile are appended and not called. *)
Lemma forEach_subscribers react (entry : LogEntry) (base : list Listener) (todo : nat) :
  (forall l, In l base -> keeps_registrations (react l entry) = true) ->
  forall (k : nat) (st : Registry) (extra : list Listener),
    listeners st = base ++ extra ->
    (todo + k = List.length base)%nat ->
    forEach_from react todo k entry st
    = (mkRegistry (listeners st
                   ++ flat_map (fun l => subscribed (ops (react l entry))) (skipn k base))
                  (console st)
                  (delivered st ++ map (fun l => (l, entry)) (skipn k base)),
       false).
Proof.
  intros Hreact. induction todo as [|todo IH]; intros k st extra Hls Hlen;
    cbn [forEach_from].
  - cbn in Hlen. subst k. rewrite skipn_all. cbn. rewrite !app_nil_r. now destruct st.
  - assert (Hk : k < List.length base) by lia.
    destruct (nth_error base k) as [l|] eqn:E.
    2:{ apply nth_error_None in E. lia. }
    assert (E' : nth_error (listeners st) k = Some l).
    { rewrite Hls, nth_error_app1 by exact Hk. exact E. }
    rewrite E'.
    pose proof (Hreact l (nth_error_In _ _ E)) as Hq.
    unfold keeps_registrations in Hq. apply andb_true_iff in Hq.
    destruct Hq as [Hthrow Hops]. apply negb_true_iff in Hthrow. rewrite Hthrow.
    rewrite (run_ops_subscriptions _ _ Hops).
    cbn [listeners console delivered].
    rewrite (IH (S k) _ (extra ++ subscribed (ops (react l entry))));
      cbn [listeners console delivered]; [|now rewrite Hls, <- app_assoc|lia].
    rewrite (skipn_nth _ _ _ _ E). cbn [map flat_map].
    now rewrite <- !app_assoc.
Qed.

(** C10, as the code has it.  Subscribing appends the listener.  The
    returned handle removes the earliest registration of its listener and
    nothing else: that listener has one registration less, every other
    listener as many as before; for a listener that was not registered
    before, it undoes exactly its own subscription.  A second call of the
    handle changes nothing when the listener was registered at most once.
    [addLog] writes the console line and hands the entry to every listener
    registered at that moment, once and in subscription order, when no
    callback throws or calls an unsubscribe handle while it runs; the
    listeners that callbacks subscribe meanwhile are appended and do not
    receive this entry. *)
Theorem registry_contract :
  (forall l st, listeners (subscribeToLogs l st) = listeners st ++ [l])
  /\ (forall l st,
        listeners (unsubscribe l st) = remove_first l (listeners st)
        /\ forall l',
             registrations (listeners (unsubscribe l st)) l' =
             if Nat.eqb l' l then Nat.pred (registrations (listeners st) l)
             else registrations (listeners st) l')
  /\ (forall l st,
        registrations (listeners st) l = 0%nat ->
        unsubscribe l (subscribeToLogs l st) = st)
  /\ (forall l st,
        (registrations (listeners st) l <= 1)%nat ->
        unsubscribe l (unsubscribe l st) = unsubscribe l st)
  /\ (forall react rnd now msg ty st,
        let entry := mkLogEntry rnd now msg (match ty with Some t => t | None => info end) in
        (forall l, In l (listeners st) -> keeps_registrations (react l entry) = true) ->
        exists line,
          addLog react rnd now msg ty st
          = (mkRegistry (listeners st
                         ++ flat_map (fun l => subscribed (ops (react l entry)))
                                     (listeners st))
                        (console st ++ [line])
                        (delivered st ++ map (fun l => (l, entry)) (listeners st)),
             false)).
Proof.
  split; [reflexivity|]. split; [|split; [|split]].
  - intros l st. rewrite unsubscribe_eq. cbn [set_listeners listeners].
    split; [reflexivity|]. intros l'. apply remove_first_registrations.
  - intros l st H. rewrite unsubscribe_eq. unfold subscribeToLogs.
    cbn [set_listeners listeners console delivered].
    rewrite (remove_first_last l _ H). now destruct st.
  - intros l st H. rewrite !unsubscribe_eq.
    cbn [set_listeners listeners console delivered].
    rewrite (remove_first_absent l (remove_first l (listeners st))); [reflexivity|].
    rewrite remove_first_registrations, Nat.eqb_refl. lia.
  - intros react rnd now msg ty st entry Hreact. unfold addLog.
    fold entry. eexists.
    rewrite (forEach_subscribers react entry (listeners st) _ Hreact 0 _ []);
      cbn [listeners console delivered skipn];
      [reflexivity | now rewrite app_nil_r | lia].
Qed.

Lemma registry_contract_witness :
  let st := subscribeToLogs 2 (subscribeToLogs 1 empty) in
  let entry := mkLogEntry "k3x" 1700000000000%Z "ready" success in
  unsubscribe 2 (unsubscribe 2 st) = unsubscribe 2 st
  /\ exists line,
       addLog Samples2.invites_on_first_log "k3x" 1700000000000%Z "ready" (Some success) st
       = (mkRegistry [1; 2; 9]%nat [line] [(1%nat, entry); (2%nat, entry)], false).
Proof.
  cbv zeta. split.
  - apply (proj1 (proj2 (proj2 (proj2 registry_contract)))). cbn. lia.
  - apply (proj2 (proj2 (proj2 (proj2 registry_contract))) Samples2.invites_on_first_log
                 "k3x"%string 1700000000000%Z "ready"%string (Some success)
                 (subscribeToLogs 2 (subscribeToLogs 1 empty))).
    intros l [<-|[<-|[]]]; reflexivity.
Defined.

(** The console line of the entry above. *)
Example addLog_console_line :
  console (fst (addLog Samples.readers "k3x" 1700000000000%Z "ready" (Some success) empty))
  = ["[SUCCESS] ready"%string].
Proof. reflexivity. Qed.

(** C10 as stated fails twice.  A listener subscribed twice: the second
    call of one of its handles is not a no-op, it removes the other
    registration.  A listener that unsubscribes itself while it is handed
    an entry: the listener registered after it is skipped for that entry. *)
Lemma registry_counterexample :
  (let st := subscribeToLogs 7 (subscribeToLogs 7 empty) in
   listeners (unsubscribe 7 st) = [7%nat]
   /\ listeners (unsubscribe 7 (unsubscribe 7 st)) = [])
  /\ (let st := subscribeToLogs 2 (subscribeToLogs 1 empty) in
      listeners st = [1; 2]%nat
      /\ map fst (delivered (fst (addLog Samples.leaves_on_first_log "k3x" 0%Z "ready"
                                         None st)))
         = [1%nat]).
Proof. cbv zeta. repeat split. Qed.

End LoggerProps.

(* ===================================================================== *)
(** * Further properties of the renderer                                  *)
(* ===================================================================== *)

Module RenderMore.

Import Types VideoUtils JsNumFacts Design Views.

Lemma find_first {A : Type} (p : A -> bool) (l : list A) (x : A) :
  find p l = Some x ->
  p x = true
  /\ exists pre post, l = pre ++ x :: post /\ forallb (fun y => negb (p y)) pre = true.
Proof.
  induction l as [|a l IH]; [discriminate|]. cbn.
  destruct (p a) eqn:E.
  - intros [= <-]. split; [exact E|]. exists [], l. now split.
  - intros H. destruct (IH H) as (Hx & pre & post & -> & Hpre).
    split; [exact Hx|]. exists (a :: pre), post. split; [reflexivity|].
    cbn. now rewrite E.
Qed.

Lemma find_absent {A : Type} (p : A -> bool) (l : list A) :
  (forall y, In y l -> p y = false) -> find p l = None.
Proof.
  induction l as [|a l IH]; [reflexivity|]. intros H. cbn.
  rewrite (H a (or_introl eq_refl)). apply IH. intros y Hy. apply H. now right.
Qed.

(** The recording format is the first supported entry of the priority
    list [video/mp4, video/webm;codecs=h264, video/webm;codecs=vp9,
    video/webm]: it is supported and no entry before it is; when the host
    supports none of them the format is still [video/webm]. *)
Theorem mime_negotiation (host : Host) :
  In (selectedMimeType host) mimeTypes
  /\ ((exists t, In t mimeTypes /\ isTypeSupported host t = true) ->
      isTypeSupported host (selectedMimeType host) = true
      /\ exists pre post,
           mimeTypes = pre ++ selectedMimeType host :: post
           /\ forallb (fun t => negb (isTypeSupported host t)) pre = true)
  /\ ((forall t, In t mimeTypes -> isTypeSupported host t = false) ->
      selectedMimeType host = "video/webm"%string).
Proof.
  unfold selectedMimeType.
  destruct (find (isTypeSupported host) mimeTypes) as [t|] eqn:F.
  - destruct (find_first _ _ _ F) as (Ht & pre & post & E & Hpre).
    split; [rewrite E; apply in_or_app; right; now left|].
    split; [intros _; split; [exact Ht | eauto]|].
    intros Hnone. rewrite find_absent in F by exact Hnone. discriminate.
  - split; [cbn; tauto|]. split; [|reflexivity].
    intros (t & Hin & Ht).
    pose proof (List.find_none _ _ F t Hin). congruence.
Qed.

Lemma mime_negotiation_witness :
  selectedMimeType Samples2.vp9_host = "video/webm;codecs=vp9"%string
  /\ isTypeSupported Samples2.vp9_host (selectedMimeType Samples2.vp9_host) = true
  /\ exists pre post,
       mimeTypes = pre ++ selectedMimeType Samples2.vp9_host :: post
       /\ forallb (fun t => negb (isTypeSupported Samples2.vp9_host t)) pre = true.
Proof.
  split; [reflexivity|].
  apply (proj1 (proj2 (mime_negotiation Samples2.vp9_host))).
  exists "video/webm"%string. split; [cbn; tauto | reflexivity].
Defined.

End RenderMore.

(* ===================================================================== *)
(** * Further properties of the render session                            *)
(* ===================================================================== *)

Module SessionMore.

Import Types VideoUtils JsNumFacts Design Views RendererProps SessionProps.

(** A property kept by every event is kept by every run. *)
Lemma run_invariant (P : Session -> Prop) :
  (forall s s' o, P s -> step s o = Some s' -> P s') ->
  forall os s s', P s -> run s os = Some s' -> P s'.
Proof.
  intros Hstep. induction os as [|o os IH]; intros s s' HP Hrun; cbn in Hrun.
  - now injection Hrun as <-.
  - destruct (step s o) as [s1|] eqn:E; [|discriminate].
    eapply IH; [eapply Hstep; eassumption | exact Hrun].
Qed.

Lemma render_env_step ab assets platform (s s' : Session) (o : Occurrence) :
  render_env ab assets platform (env s) -> step s o = Some s' ->
  render_env ab assets platform (env s').
Proof.
  intros Inv H. unfold step in H.
  destruct (negb _); [discriminate|].
  destruct (phase s); destruct (what o); try discriminate H;
    repeat match type of H with
           | (if ?c then _ else _) = _ => destruct c; try discriminate H
           end;
    injection H as <-; unfold advance; cbn [env]; try exact Inv.
  destruct Inv as (W & Hh & A & Du & Sd & _).
  unfold render_env. cbn. eauto 10.
Qed.

(** With a non-empty asset list and a positive duration a tick finds its
    asset: it does not throw. *)
Lemma get_nil {A : Type} (x : num) : get (@nil A) x = None.
Proof. unfold get. destruct (as_index x) as [[|i]|]; reflexivity. Qed.

Lemma settlements_app (a b : list (Z * Action)) :
  settlements (a ++ b) = settlements a ++ settlements b.
Proof.
  induction a as [|[t x] a IH]; [reflexivity|].
  destruct x; cbn; rewrite IH; reflexivity.
Qed.

(** Called with an empty asset list (and a context, and a narration of
    positive duration) [renderVideo] never settles its promise: once the
    preloads settle it starts the recorder and the audio, reports 0,
    clears the surface and throws; the recorder is never stopped. *)
Theorem empty_render_never_settles host t0 c0 ab platform events s :
  context2d host = true ->
  0 < buffer_duration ab ->
  run (renderVideo host t0 c0 ab [] platform) events = Some s ->
  (phase s = Loading /\ log s = []
   \/ phase s = Crashed
      /\ exists t p,
           num_eq p (of_Z 0)
           /\ log s = [(t, recorder_start); (t, source_start); (t, onProgress p);
                       (t, fillRect (of_Z 0) (of_Z 0) (canvas_width (env s))
                                    (canvas_height (env s)))])
  /\ settlements (log s) = []
  /\ stops (log s) = [].
Proof.
  intros Hctx HD Hrun.
  set (P := fun s : Session =>
              render_env ab [] platform (env s)
              /\ videoAsset s = None
              /\ (phase s = Loading /\ log s = []
                  \/ phase s = Crashed
                     /\ exists t p,
                          num_eq p (of_Z 0)
                          /\ log s = [(t, recorder_start); (t, source_start);
                                      (t, onProgress p);
                                      (t, fillRect (of_Z 0) (of_Z 0)
                                                   (canvas_width (env s))
                                                   (canvas_height (env s)))])).
  assert (Hstep : forall s s' o, P s -> step s o = Some s' -> P s').
  { clear Hrun. intros s1 s' o (Henv & Hv & Hcases) Hstep.
    split; [eapply render_env_step; eassumption|].
    unfold step in Hstep. destruct (negb _); [discriminate|].
    destruct Hcases as [[Hp Hlog]|[Hp Hlog]]; rewrite Hp in Hstep.
    - destruct (what o) as [loaded v| | | |]; try discriminate Hstep.
      destruct (preload_ok _ _); [|discriminate].
      injection Hstep as <-. unfold advance. cbn [videoAsset phase log env].
      split; [exact Hv|]. right.
      destruct Henv as (W & Hh & A & Du & Sd & _).
      set (e := mkEnv _ _ _ _ _ _ _).
      assert (Ht : drawFrame e (Fin (at_clock o)) v
                   = mkTick [onProgress (progress_of e (Fin (at_clock o)));
                             fillRect (of_Z 0) (of_Z 0) (canvas_width e) (canvas_height e)]
                            (Some (safeIndex_of e (Fin (at_clock o)))) Threw).
      { unfold drawFrame. fold (elapsed_of e (Fin (at_clock o))).
        fold (progress_of e (Fin (at_clock o))).
        assert (G : jge (elapsed_of e (Fin (at_clock o))) (duration e) = false).
        { unfold elapsed_of, e. cbn [startTime duration]. rewrite Du. cbn.
          apply Qle_bool_false. lra. }
        rewrite G. fold (safeIndex_of e (Fin (at_clock o))).
        unfold e at 1. cbn [VideoUtils.assets]. rewrite A, get_nil. reflexivity. }
      rewrite Ht, Hv, Hlog. unfold after_tick. cbn [completion actions].
      split; [reflexivity|].
      exists (at_wall o), (progress_of e (Fin (at_clock o))). split; [|reflexivity].
      unfold progress_of, elapsed_of, e. cbn [startTime duration]. rewrite Du.
      change (jsub (Fin (at_clock o)) (Fin (at_clock o)))
        with (Fin (at_clock o - at_clock o)).
      rewrite jdiv_fin by (intros E; rewrite E in HD; discriminate).
      unfold of_Z. cbn [jmul jmin jle].
      assert (Z0 : (at_clock o - at_clock o) / buffer_duration ab * inject_Z 100 == 0).
      { assert (E0 : at_clock o - at_clock o == 0) by ring. rewrite E0.
        unfold Qdiv. ring. }
      assert (L : Qle_bool (inject_Z 100)
                    ((at_clock o - at_clock o) / buffer_duration ab * inject_Z 100) = false).
      { apply Qle_bool_false. rewrite Z0. reflexivity. }
      rewrite L. exact Z0.
    - destruct (what o); try discriminate Hstep.
      injection Hstep as <-. unfold advance. cbn [videoAsset phase log env stamp map].
      rewrite app_nil_r. split; [exact Hv|]. right. split; [reflexivity | exact Hlog]. }
  assert (Inv : P s).
  { apply (run_invariant P Hstep events (renderVideo host t0 c0 ab [] platform) s);
      [|exact Hrun].
    unfold P, renderVideo. rewrite Hctx. cbn.
    split; [unfold render_env; cbn; repeat split; now exists 0|].
    split; [reflexivity|]. left. now split. }
  destruct Inv as (_ & _ & [[Hp Hlog]|[Hp (t & p & Hpz & Hlog)]]).
  - split; [left; now split|]. rewrite Hlog. now split.
  - split; [right; split; [exact Hp | eauto]|]. rewrite Hlog. now split.
Qed.

Lemma empty_render_never_settles_witness :
  phase Samples2.empty_render_end = Crashed
  /\ settlements (log Samples2.empty_render_end) = []
  /\ stops (log Samples2.empty_render_end) = [].
Proof.
  split; [vm_compute; reflexivity|].
  apply (empty_render_never_settles Samples.any_host 0 0 (mkAudioBuffer 30) TIKTOK
           Samples2.empty_render_events Samples2.empty_render_end).
  - reflexivity.
  - reflexivity.
  - vm_compute. reflexivity.
Defined.


Lemma kept_data_cons (o : Occurrence) (os : list Occurrence) :
  kept_data (o :: os) = kept_data [o] ++ kept_data os.
Proof.
  cbn. destruct (what o); try reflexivity. now destruct (0 <? size)%Z.
Qed.

Lemma step_chunks (s s' : Session) (o : Occurrence) :
  step s o = Some s' ->
  chunks s' = chunks s ++ kept_data [o] /\ mimeType s' = mimeType s.
Proof.
  intros H. unfold step in H. destruct (negb _); [discriminate|].
  destruct (phase s); destruct (what o) eqn:Hw; try discriminate H;
    repeat match type of H with
           | (if ?c then _ else _) = _ => destruct c; try discriminate H
           end;
    injection H as <-; unfold advance; cbn [chunks mimeType kept_data];
    rewrite Hw; rewrite ?app_nil_r; try (split; reflexivity);
    destruct (0 <? size)%Z; rewrite ?app_nil_r; split; reflexivity.
Qed.

Lemma run_chunks (os : list Occurrence) :
  forall s s', run s os = Some s' ->
               chunks s' = chunks s ++ kept_data os /\ mimeType s' = mimeType s.
Proof.
  induction os as [|o os IH]; intros s s' H; cbn [run] in H.
  - injection H as <-. cbn. now rewrite app_nil_r.
  - destruct (step s o) as [s1|] eqn:E; [|discriminate].
    destruct (step_chunks _ _ _ E) as [C1 M1]. destruct (IH _ _ H) as [C2 M2].
    rewrite kept_data_cons, C2, C1, M2, M1, app_assoc. now split.
Qed.

(** The recording that a render resolves with is made of exactly the
    non-empty chunks the recorder delivered, in the order of delivery
    (whether they came before or after the stop was requested), and is
    typed with the negotiated format. *)
Theorem blob_is_kept_data host t0 c0 ab assets platform events s :
  run (renderVideo host t0 c0 ab assets platform) events = Some s ->
  chunks s = kept_data events
  /\ Forall (fun size => (0 < size)%Z) (chunks s)
  /\ forall b, phase s = Done b ->
               b = mkBlob (kept_data events) (selectedMimeType host).
Proof.
  intros Hrun. destruct (run_chunks _ _ _ Hrun) as [C M].
  assert (C' : chunks s = kept_data events).
  { rewrite C. unfold renderVideo. now destruct (context2d host). }
  assert (M' : mimeType s = selectedMimeType host).
  { rewrite M. unfold renderVideo. now destruct (context2d host). }
  split; [exact C'|]. split.
  - rewrite C'. clear. induction events as [|o os IH]; [constructor|].
    cbn. destruct (what o); try exact IH.
    destruct (0 <? size)%Z eqn:E; [|exact IH].
    constructor; [now apply Z.ltb_lt | exact IH].
  - intros b Hp.
    pose proof (finalizes_in_order_run events _ s
                  (finalizes_in_order_init host t0 c0 ab assets platform) Hrun) as Inv.
    unfold finalizes_in_order in Inv. rewrite Hp in Inv.
    destruct Inv as (_ & _ & _ & _ & _ & _ & _ & _ & ->). now rewrite C', M'.
Qed.

Lemma blob_is_kept_data_witness :
  chunks Samples.render30_end = kept_data Samples.render30_events
  /\ Forall (fun size => (0 < size)%Z) (chunks Samples.render30_end)
  /\ mkBlob [4096%Z] "video/webm"
     = mkBlob (kept_data Samples.render30_events) (selectedMimeType Samples.any_host).
Proof.
  destruct (blob_is_kept_data Samples.any_host 0 0 (mkAudioBuffer 30)
              Samples.three_stills YOUTUBE Samples.render30_events
              Samples.render30_end) as (H1 & H2 & H3).
  - vm_compute. reflexivity.
  - split; [exact H1|]. split; [exact H2|]. apply H3. vm_compute. reflexivity.
Defined.

Lemma draws_settle (t : Z) (acts : list Action) :
  forallb draws acts = true -> settlements (stamp t acts) = [].
Proof.
  induction acts as [|x acts IH]; [reflexivity|].
  cbn [forallb]. intros H. apply andb_true_iff in H. destruct H as [Hx H].
  destruct x; try discriminate Hx; cbn; exact (IH H).
Qed.

Lemma tick_settles_nothing env now v (t : Z) :
  settlements (stamp t (actions (drawFrame env now v))) = [].
Proof.
  destruct (drawFrame_shape env now v) as [(_ & _ & ->)|(_ & _ & rest & -> & Hd & _)].
  - reflexivity.
  - cbn. exact (draws_settle t rest Hd).
Qed.

Lemma settlements_of_run host t0 c0 ab assets platform events s :
  run (renderVideo host t0 c0 ab assets platform) events = Some s ->
  settlements (log s) = settled_as (phase s).
Proof.
  intros Hrun.
  apply (run_invariant (fun s => settlements (log s) = settled_as (phase s)))
    with (os := events) (s := renderVideo host t0 c0 ab assets platform);
    [|unfold renderVideo; now destruct (context2d host)|exact Hrun].
  clear. intros s s' o Inv H. unfold step in H.
  destruct (negb _); [discriminate|].
  destruct (phase s) eqn:Hp; destruct (what o); try discriminate H;
    repeat match type of H with
           | (if ?c then _ else _) = _ => destruct c; try discriminate H
           end;
    injection H as <-; unfold advance; cbn [log phase];
    rewrite settlements_app, Inv; cbn [settled_as app].
  - set (e := mkEnv _ _ _ _ _ _ _).
    assert (E : settled_as (after_tick (at_wall o) (drawFrame e (Fin (at_clock o)) videoEl))
                = []).
    { unfold after_tick. destruct (completion _); try reflexivity.
      destruct (armed _); reflexivity. }
    rewrite E. unfold stamp. cbn [map settlements].
    rewrite map_app, settlements_app.
    fold (stamp (at_wall o) (actions (drawFrame e (Fin (at_clock o)) videoEl))).
    rewrite tick_settles_nothing. destruct (videoAsset s); reflexivity.
  - rewrite tick_settles_nothing.
    unfold after_tick. destruct (completion _); try reflexivity.
    destruct (armed _); reflexivity.
  - reflexivity.
  - reflexivity.
  - reflexivity.
  - reflexivity.
  - reflexivity.
  - reflexivity.
Qed.

Lemma done_blob host t0 c0 ab assets platform events s b :
  run (renderVideo host t0 c0 ab assets platform) events = Some s ->
  phase s = Done b ->
  b = mkBlob (chunks s) (selectedMimeType host).
Proof.
  intros Hrun Hp. destruct (run_chunks _ _ _ Hrun) as [_ M].
  assert (M' : mimeType s = selectedMimeType host).
  { rewrite M. unfold renderVideo. now destruct (context2d host). }
  pose proof (finalizes_in_order_run events _ s
                (finalizes_in_order_init host t0 c0 ab assets platform) Hrun) as Inv.
  unfold finalizes_in_order in Inv. rewrite Hp in Inv.
  destruct Inv as (_ & _ & _ & _ & _ & _ & _ & _ & ->). now rewrite M'.
Qed.

(** The promise of a render is settled at most once: the calls made in
    any run contain one [reject] exactly when the session has failed, one
    [resolve] exactly when it is done, and none otherwise; and a session
    that has failed or is done reacts to no further event. *)
Theorem settles_at_most_once host t0 c0 ab assets platform events s :
  run (renderVideo host t0 c0 ab assets platform) events = Some s ->
  settlements (log s) = settled_as (phase s)
  /\ (settled_as (phase s) <> [] -> forall o, step s o = None).
Proof.
  intros Hrun. split.
  - exact (settlements_of_run _ _ _ _ _ _ _ _ Hrun).
  - intros Hset o. unfold step. destruct (negb _); [reflexivity|].
    destruct (phase s); try (exfalso; apply Hset; reflexivity);
      destruct (what o); reflexivity.
Qed.

Lemma settles_at_most_once_witness :
  settlements (log Samples.render30_end)
  = [resolve (mkBlob [4096%Z] "video/webm")]
  /\ forall o, step Samples.render30_end o = None.
Proof.
  split; [vm_compute; reflexivity|].
  apply (proj2 (settles_at_most_once Samples.any_host 0 0 (mkAudioBuffer 30)
                  Samples.three_stills YOUTUBE Samples.render30_events
                  Samples.render30_end ltac:(vm_compute; reflexivity))).
  vm_compute. discriminate.
Defined.

End SessionMore.

(* ===================================================================== *)
(** * Further properties of the timeline and of the clip window           *)
(* ===================================================================== *)

Module TimelineMore.

Import Types VideoUtils JsNumFacts Design Views RendererProps ClipTime.

Lemma Qmod_integers (k n : Z) :
  (0 < n)%Z -> Qmod (inject_Z k) (inject_Z n) == inject_Z (k mod n).
Proof.
  intros Hn. unfold Qmod. rewrite <- Zdiv_Qdiv.
  rewrite Z.mod_eq by lia.
  unfold Qminus. rewrite <- inject_Z_mult, <- inject_Z_opp, <- inject_Z_plus.
  reflexivity.
Qed.

Section PreviewIndex.

Variable assets : list VisualAsset.
Variable ab : AudioBuffer.
Hypothesis Hassets : assets <> [].
Hypothesis Hduration : 0 < buffer_duration ab.

Lemma preview_index_value (t : Q) :
  0 <= t ->
  let n := Z.of_nat (List.length assets) in
  exists q,
    preview_index assets ab (Fin t) = Fin q
    /\ q == inject_Z (Qfloor (t / (buffer_duration ab / inject_Z n)) mod n)
    /\ (0 < n)%Z.
Proof.
  intros Ht n.
  assert (HnZ : (0 < n)%Z) by (subst n; destruct assets; [congruence | cbn; lia]).
  assert (HnQ : 0 < inject_Z n) by (now rewrite (Zlt_Qlt 0) in HnZ).
  assert (Hsd : 0 < buffer_duration ab / inject_Z n) by (apply Qdiv_pos; assumption).
  unfold preview_index, of_nat. fold n.
  rewrite (jdiv_fin (buffer_duration ab)) by (intros E; rewrite E in HnQ; discriminate).
  rewrite (jdiv_fin t) by (intros E; rewrite E in Hsd; discriminate).
  cbn [jfloor].
  rewrite jrem_mod; [|rewrite <- (Zle_Qle 0); apply Qfloor_nonneg, Qdiv_nonneg; assumption
                     |exact HnQ].
  eexists. split; [reflexivity|]. split; [apply Qmod_integers; exact HnZ | exact HnZ].
Qed.

End PreviewIndex.

(** For a clip asset that sets its end, the preview and the recorder
    seek to the same position. *)
Theorem preview_mirrors_recorder_target asset (vs : option Q) (e elapsed sceneDuration : Q) :
  videoStart asset = option_map Fin vs ->
  videoEnd asset = Some (Fin e) ->
  0 <= from_option 0 vs -> from_option 0 vs < e ->
  0 <= elapsed -> 0 < sceneDuration ->
  num_eq (App.preview_targetTime asset (Fin elapsed) (Fin sceneDuration))
         (clip_targetTime asset (Fin elapsed) (Fin sceneDuration)).
Proof.
  intros Hs He H0 Hlt Hel Hsd.
  assert (Hw : forall x, Some e = Some x -> from_option 0 vs < x) by (intros x [= <-]; exact Hlt).
  destruct (recorder_targetTime_spec asset vs (Some e) elapsed sceneDuration
              Hs He H0 Hw Hel Hsd) as (q & -> & Hq).
  destruct (preview_targetTime_spec asset vs (Some e) elapsed sceneDuration
              Hs He H0 Hw Hel Hsd) as (q' & -> & Hq'); [discriminate|].
  cbn. now rewrite Hq, Hq'.
Qed.

Lemma preview_mirrors_recorder_target_witness :
  num_eq (App.preview_targetTime (Samples.clip 2 5) (Fin 7) (Fin 9))
         (clip_targetTime (Samples.clip 2 5) (Fin 7) (Fin 9)).
Proof.
  apply (preview_mirrors_recorder_target (Samples.clip 2 5) (Some 2) 5 7 9);
    try reflexivity; discriminate.
Defined.

End TimelineMore.

(* ===================================================================== *)
(** * The calls of one tick                                               *)
(* ===================================================================== *)

Module TickMore.

Import Types VideoUtils JsNumFacts Design Views.




End TickMore.

Module SamplerMore64.

Import MediaProcessing JsNumFacts Design Views Binary64 Binary64Facts MachineViews Sampler64.

(** The sampler returns a complete sample set or none.  A run that
    resolves returns, frame by frame, the still captured at each position
    it visited: the accumulated positions [0], [0 + step], ..., each sum
    rounded, up to the first one that is not before the end.  And if the
    capture throws at a visited position, every run long enough to reach
    it rejects, and no frame is returned. *)
Theorem sampler_all_or_nothing (f : VideoFile) (step : option Q) :
  loads f = true ->
  let s := Fin (from_option 3 step) in
  let sample fuel := Machine.extractFramesFromVideo rnd fuel true f (option_map Fin step) in
  (forall fuel frames,
      sample fuel = Some (Resolved frames) ->
      map (fun fr => Some (base64 fr)) frames
      = map (fun k => still f (position rnd s k)) (seq 0 (List.length frames))
      /\ (forall k, (k < List.length frames)%nat ->
                    jlt (position rnd s k) (duration f) = true)
      /\ jlt (position rnd s (List.length frames)) (duration f) = false)
  /\ (forall k fuel,
        (forall j, (j <= k)%nat -> jlt (position rnd s j) (duration f) = true) ->
        still f (position rnd s k) = None ->
        (k < fuel)%nat ->
        sample fuel = Some (Rejected CaptureError)).
Proof.
  intros Hloads s sample. split.
  - intros fuel frames Hrun. subst sample. cbv beta in Hrun.
    rewrite extract_unfold in Hrun by exact Hloads.
    destruct (loop_trace rnd f _ fuel 0%nat [] frames Hrun)
      as (extra & -> & _ & Hdata & Hbefore & Hend).
    cbn [app]. split; [exact Hdata|]. split; [|exact Hend].
    intros k Hk. apply Hbefore. lia.
  - intros k fuel Hbefore Hs Hfuel. subst sample. cbv beta.
    rewrite extract_unfold by exact Hloads.
    apply (loop_rejects rnd f _ k 0%nat [] fuel); [|exact Hs|exact Hfuel].
    intros j Hj. apply Hbefore. lia.
Qed.

Lemma sampler_all_or_nothing_witness :
  Machine.extractFramesFromVideo rnd 5 true Samples2.flaky10 (option_map Fin (Some 4))
  = Some (Rejected CaptureError)
  /\ (let frames := [mkVideoFrame (of_Z 0) "jpeg"; mkVideoFrame (of_Z 4) "jpeg";
                     mkVideoFrame (of_Z 8) "jpeg"] in
      map (fun fr => Some (base64 fr)) frames
      = map (fun k => still Samples.upload10 (position rnd (Fin 4) k)) (seq 0 3)
      /\ (forall k, (k < 3)%nat ->
                    jlt (position rnd (Fin 4) k) (duration Samples.upload10) = true)
      /\ jlt (position rnd (Fin 4) 3) (duration Samples.upload10) = false).
Proof.
  split.
  - apply (proj2 (sampler_all_or_nothing Samples2.flaky10 (Some 4) eq_refl) 1%nat 5%nat).
    + intros j Hj. destruct j as [|[|j]]; [vm_compute; reflexivity .. | lia].
    + vm_compute. reflexivity.
    + lia.
  - apply (proj1 (sampler_all_or_nothing Samples.upload10 (Some 4) eq_refl) 4%nat).
    vm_compute. reflexivity.
Defined.

Lemma position_nonpositive (sq : Q) (k : nat) :
  sq <= 0 ->
  position rnd (Fin sq) k = NInf
  \/ exists q, position rnd (Fin sq) k = Fin q /\ q <= 0.
Proof.
  intros Hs. induction k as [|k IH].
  - right. exists (inject_Z 0). split; [reflexivity|]. apply Qle_refl.
  - cbn [position]. destruct IH as [->|(q & -> & Hq)].
    + left. reflexivity.
    + unfold Machine.add. cbn [jadd rnd]. apply round64_nonpos. lra.
Qed.

(** With a step that is zero or negative the sampler makes no progress:
    the position never passes the start of a source of positive
    duration.  If the canvas has no context, or no capture throws, the
    loop runs on and the promise is neither resolved nor rejected; if
    the capture at the start throws, the run rejects at once. *)
Theorem sampler_never_ends_without_progress (f : VideoFile) (d sq : Q) (ctx : bool) :
  loads f = true ->
  duration f = Fin d -> 0 < d -> sq <= 0 ->
  (ctx = false \/ (forall t, still f t <> None) ->
   forall fuel, Machine.extractFramesFromVideo rnd fuel ctx f (Some (Fin sq)) = None)
  /\ (ctx = true -> still f (of_Z 0) = None ->
      forall fuel, (0 < fuel)%nat ->
                   Machine.extractFramesFromVideo rnd fuel ctx f (Some (Fin sq))
                   = Some (Rejected CaptureError))
  /\ (forall k, jle (position rnd (Fin sq) k) (of_Z 0) = true
                /\ jlt (position rnd (Fin sq) k) (duration f) = true).
Proof.
  intros Hloads Hd Hdpos Hs.
  assert (Hbefore : forall j, jlt (position rnd (Fin sq) j) (duration f) = true).
  { intros j. rewrite Hd.
    destruct (position_nonpositive sq j Hs) as [->|(q & -> & Hq)]; [reflexivity|].
    cbn [jlt]. apply Qlt_bool_iff. lra. }
  split; [|split].
  - intros Hquiet fuel.
    change (Some (Fin sq)) with (option_map Fin (Some sq)).
    rewrite (extract_unfold ctx f (Some sq) fuel Hloads). cbn [from_option].
    apply (loop_goes_on rnd f (Fin sq) ctx fuel Hquiet Hbefore 0%nat).
  - intros -> Hthrow fuel Hfuel.
    change (Some (Fin sq)) with (option_map Fin (Some sq)).
    rewrite (extract_unfold true f (Some sq) fuel Hloads). cbn [from_option].
    apply (loop_rejects rnd f (Fin sq) 0%nat 0%nat [] fuel); [|exact Hthrow|exact Hfuel].
    intros j _. apply Hbefore.
  - intros k. split; [|apply Hbefore].
    destruct (position_nonpositive sq k Hs) as [->|(q & -> & Hq)]; [reflexivity|].
    cbn [jle of_Z]. apply Qle_bool_iff. exact Hq.
Qed.

Lemma sampler_never_ends_without_progress_witness :
  Machine.extractFramesFromVideo rnd 50 true Samples.upload10 (Some (Fin 0)) = None
  /\ Machine.extractFramesFromVideo rnd 50 false Samples64.unreadable10 (Some (Fin 0))
     = None
  /\ Machine.extractFramesFromVideo rnd 1 true Samples64.unreadable10 (Some (Fin 0))
     = Some (Rejected CaptureError).
Proof.
  split; [|split].
  - apply (proj1 (sampler_never_ends_without_progress Samples.upload10 10 0 true
                    eq_refl eq_refl eq_refl ltac:(discriminate))).
    right. intros t. discriminate.
  - apply (proj1 (sampler_never_ends_without_progress Samples64.unreadable10 10 0 false
                    eq_refl eq_refl eq_refl ltac:(discriminate))).
    left. reflexivity.
  - apply (proj1 (proj2 (sampler_never_ends_without_progress Samples64.unreadable10
                           10 0 true eq_refl eq_refl eq_refl ltac:(discriminate))));
      [reflexivity|reflexivity|lia].
Defined.

End SamplerMore64.

(* ===================================================================== *)
(** * Further properties of the frame sampler                             *)
(* ===================================================================== *)

Module SamplerMore.

Import MediaProcessing JsNumFacts Design Views SamplerProps.






End SamplerMore.

(* ===================================================================== *)
(** * Further properties of the listener registry                         *)
(* ===================================================================== *)

Module LoggerMore.

Import Logger Design LoggerProps.

Local Open Scope nat_scope.

Lemma forEach_until_throw react (entry : LogEntry) (pre post : list Listener)
      (l : Listener) (m : nat) :
  (forall x, In x pre -> react x entry = passive) ->
  react l entry = mkReaction [] true ->
  forall (k todo : nat) (st : Registry),
    listeners st = pre ++ l :: post ->
    k + m = List.length pre ->
    m < todo ->
    forEach_from react todo k entry st
    = (mkRegistry (listeners st) (console st)
                  (delivered st ++ map (fun x => (x, entry)) (skipn k pre ++ [l])),
       true).
Proof.
  intros Hpre Hl. induction m as [|m IH]; intros k todo st Hls Hk Htodo;
    (destruct todo as [|todo]; [lia|]); cbn [forEach_from].
  - assert (E : nth_error (listeners st) k = Some l).
    { rewrite Hls, nth_error_app2 by lia.
      replace (k - List.length pre) with 0 by lia. reflexivity. }
    rewrite E, Hl. cbn [throws ops run_ops fold_left].
    rewrite skipn_all2 by lia. reflexivity.
  - assert (Hlt : k < List.length pre) by lia.
    destruct (nth_error pre k) as [x|] eqn:Ex; [|apply nth_error_None in Ex; lia].
    assert (E : nth_error (listeners st) k = Some x).
    { now rewrite Hls, nth_error_app1 by lia. }
    rewrite E, (Hpre x (nth_error_In _ _ Ex)).
    cbn [throws ops passive run_ops fold_left].
    rewrite (IH (S k) todo
               (mkRegistry (listeners st) (console st) (delivered st ++ [(x, entry)]))
               Hls ltac:(lia) ltac:(lia)).
    cbn [listeners console delivered].
    rewrite (skipn_nth _ pre k x Ex). cbn [map app]. now rewrite <- app_assoc.
Qed.

(** A listener that throws ends the delivery: the listeners registered
    before it have received the entry, it has been called, the listeners
    registered after it are not called for this entry, and the exception
    reaches the caller of [addLog]; the console line is written all the
    same, and the registry is unchanged. *)
Theorem delivery_stops_at_throw react rnd now msg ty (st : Registry)
        (pre post : list Listener) (l : Listener) :
  let entry := mkLogEntry rnd now msg (match ty with Some t => t | None => info end) in
  listeners st = pre ++ l :: post ->
  (forall x, In x pre -> react x entry = passive) ->
  react l entry = mkReaction [] true ->
  exists line,
    addLog react rnd now msg ty st
    = (mkRegistry (listeners st) (console st ++ [line])
                  (delivered st ++ map (fun x => (x, entry)) (pre ++ [l])),
       true).
Proof.
  intros entry Hls Hpre Hl. unfold addLog. fold entry. eexists.
  cbn [listeners]. rewrite Hls at 1.
  rewrite (forEach_until_throw react entry pre post l (List.length pre) Hpre Hl 0
             (List.length (pre ++ l :: post))
             (mkRegistry (listeners st) (console st ++ _) (delivered st)) Hls eq_refl);
    [reflexivity|].
  rewrite length_app. cbn. lia.
Qed.

Lemma delivery_stops_at_throw_witness :
  let entry := mkLogEntry "q7" 5%Z "boom" error in
  exists line,
    addLog Samples2.second_throws "q7" 5%Z "boom" (Some error) Samples2.three_listeners
    = (mkRegistry [1; 2; 3] [line] [(1, entry); (2, entry)], true).
Proof.
  cbv zeta.
  apply (delivery_stops_at_throw Samples2.second_throws "q7"%string 5%Z "boom"%string
           (Some error) Samples2.three_listeners [1] [3] 2).
  - reflexivity.
  - intros x [<-|[]]. reflexivity.
  - reflexivity.
Defined.

End LoggerMore.

(* ===================================================================== *)
(** * Properties of the placeholder image                                 *)
(* ===================================================================== *)

Module PlaceholderProps.

Import Placeholder.

Local Open Scope nat_scope.

Lemma length_append (a b : string) :
  String.length (a ++ b) = String.length a + String.length b.
Proof. induction a as [|c a IH]; cbn; [reflexivity | now rewrite IH]. Qed.

Lemma length_head (n : nat) (s : string) :
  n <= String.length s -> String.length (String.substring 0 n s) = n.
Proof.
  revert s. induction n as [|n IH]; intros [|c s] H; cbn in *; try reflexivity; try lia.
  rewrite IH; [reflexivity | lia].
Qed.

Lemma prefix_head (n : nat) (s : string) :
  String.prefix (String.substring 0 n s) s = true.
Proof.
  revert s. induction n as [|n IH]; intros [|c s]; cbn; try reflexivity.
  destruct (Ascii.ascii_dec c c) as [_|N]; [apply IH | congruence].
Qed.

(** The description written on a placeholder never exceeds 50 characters:
    an ASCII description of at most 50 characters is written as it is, a
    longer one as its first 47 characters followed by three dots.
    Without a 2d context nothing is drawn and the image data is the empty
    string. *)
Theorem caption_fits (text : string) :
  Views.ascii_only text = true ->
  String.length (displayText text) <= 50
  /\ (String.length text <= 50 -> displayText text = text)
  /\ (50 < String.length text ->
      String.length (displayText text) = 50
      /\ displayText text = (String.substring 0 47 text ++ "...")%string
      /\ String.length (String.substring 0 47 text) = 47
      /\ String.prefix (String.substring 0 47 text) text = true)
  /\ (forall encode width height,
        generatePlaceholderImage false encode text width height = EmptyString).
Proof.
  intros _. unfold displayText.
  destruct (50 <? String.length text) eqn:E.
  - apply Nat.ltb_lt in E.
    assert (L : String.length (String.substring 0 47 text) = 47) by (apply length_head; lia).
    assert (L50 : String.length (String.substring 0 47 text ++ "...") = 50).
    { rewrite length_append, L. reflexivity. }
    split; [lia|]. split; [lia|]. split; [|reflexivity].
    intros _. repeat split; try assumption. apply prefix_head.
  - apply Nat.ltb_ge in E. split; [exact E|]. split; [reflexivity|].
    split; [lia | reflexivity].
Qed.

Lemma caption_fits_witness :
  let text := "A dashboard that shows every order of the day at a glance"%string in
  String.length (displayText text) = 50
  /\ displayText text = "A dashboard that shows every order of the day a..."%string.
Proof.
  cbv zeta.
  destruct (proj1 (proj2 (proj2 (caption_fits
     "A dashboard that shows every order of the day at a glance" eq_refl))))
    as (H1 & H2 & _).
  - cbn. lia.
  - split; [exact H1 | exact H2].
Defined.

End PlaceholderProps.

(* ===================================================================== *)
(** * Properties of the asset assembly                                    *)
(* ===================================================================== *)

Module GenerationProps.

Import Types VideoUtils Generation Views.

Local Open Scope nat_scope.

Section Loop.

Variable generateAsset : PlanItem -> Platform -> option VisualAsset.
Variable makePlaceholder : string -> num -> num -> string.
Variable selectedPlatform : Platform.

Lemma generate_from_assets (total : nat) (plan : list PlanItem) :
  forall index,
    fst (generate_from generateAsset makePlaceholder selectedPlatform total index plan)
    = map (pushed generateAsset makePlaceholder selectedPlatform) plan.
Proof.
  induction plan as [|item rest IH]; intros index; cbn [generate_from map];
    [reflexivity|].
  specialize (IH (S index)).
  destruct (generate_from _ _ _ total (S index) rest) as [assets waits].
  cbn [fst] in *. now rewrite IH.
Qed.

Lemma generate_from_waits (plan : list PlanItem) :
  forall total index,
    index + List.length plan = total ->
    snd (generate_from generateAsset makePlaceholder selectedPlatform total index plan)
    = repeat 5000%Z (List.length plan - 1).
Proof.
  induction plan as [|item rest IH]; intros total index H; cbn [generate_from];
    [reflexivity|].
  cbn [List.length] in H. specialize (IH total (S index) ltac:(lia)).
  destruct (generate_from _ _ _ total (S index) rest) as [assets waits].
  cbn [snd] in *. rewrite IH. cbn [List.length].
  replace (S (List.length rest) - 1) with (List.length rest) by lia.
  destruct rest as [|item' rest].
  - cbn [List.length] in *.
    assert (E : (index <? total - 1) = false) by (apply Nat.ltb_ge; lia).
    rewrite E. reflexivity.
  - cbn [List.length] in *.
    assert (E : (index <? total - 1) = true) by (apply Nat.ltb_lt; lia).
    rewrite E. replace (S (List.length rest) - 1) with (List.length rest) by lia.
    reflexivity.
Qed.

End Loop.

Lemma attach_video_map (videoUrl : option string) (assets : list VisualAsset) :
  attach_video videoUrl assets = map (with_video videoUrl) assets.
Proof.
  unfold attach_video, with_video. destruct videoUrl; [reflexivity|].
  now rewrite map_id.
Qed.

Lemma with_video_type (videoUrl : option string) (a : VisualAsset) :
  type (with_video videoUrl a) = type a.
Proof.
  unfold with_video. destruct videoUrl; [|reflexivity]. now destruct (is_video a).
Qed.

Lemma find_map_video (url : string) (assets : list VisualAsset) :
  find is_video (map (with_video (Some url)) assets)
  = option_map (with_video (Some url)) (find is_video assets).
Proof.
  induction assets as [|a l IH]; [reflexivity|]. cbn [map find].
  assert (E : is_video (with_video (Some url) a) = is_video a)
    by (unfold is_video; now rewrite with_video_type).
  rewrite E. destruct (is_video a); [reflexivity | exact IH].
Qed.

(** The assets handed to [setAssets] follow the plan item by item: as
    many assets as items, in the order of the plan, each one the
    generated asset (with the uploaded video attached if it is a clip)
    or, when the generation failed, the image fallback for that item,
    which carries the placeholder in the size of the platform; a wait of
    5 seconds lies between two items and none after the last.  An empty
    plan is the one case that throws. *)
Theorem assets_follow_plan generateAsset makePlaceholder selectedPlatform
        (plan : list PlanItem) (videoUrl : option string) :
  let asset_of :=
    fun item => with_video videoUrl
                  (pushed generateAsset makePlaceholder selectedPlatform item) in
  (plan = [] ->
   assemble generateAsset makePlaceholder selectedPlatform plan videoUrl
   = inl "Failed to generate visuals."%string)
  /\ (plan <> [] ->
      assemble generateAsset makePlaceholder selectedPlatform plan videoUrl
      = inr (map asset_of plan, repeat 5000%Z (List.length plan - 1)))
  /\ (forall item,
        generateAsset item selectedPlatform = None ->
        asset_of item
        = fallback (makePlaceholder (description item)
                      (placeholder_width selectedPlatform)
                      (placeholder_height selectedPlatform)) item).
Proof.
  intros asset_of. split; [|split].
  - intros ->. unfold assemble. cbn. destruct videoUrl; reflexivity.
  - intros Hne. unfold assemble.
    pose proof (generate_from_assets generateAsset makePlaceholder selectedPlatform
                  (List.length plan) plan 0) as Ha.
    pose proof (generate_from_waits generateAsset makePlaceholder selectedPlatform
                  plan (List.length plan) 0 eq_refl) as Hw.
    destruct (generate_from _ _ _ (List.length plan) 0 plan) as [assets waits].
    cbn [fst snd] in *. subst assets waits.
    rewrite attach_video_map, map_map. fold asset_of.
    assert (Hlen : Nat.eqb (List.length (map asset_of plan)) 0 = false).
    { rewrite length_map. destruct plan; [congruence | reflexivity]. }
    now rewrite Hlen.
  - intros item Hnone. unfold asset_of, pushed. rewrite Hnone.
    unfold with_video. destruct videoUrl; reflexivity.
Qed.

Lemma assets_follow_plan_witness :
  assemble Samples2.only_demo Samples2.echo_placeholder TIKTOK Samples2.plan3
           (Some "blob:upload"%string)
  = inr (map (fun item =>
                with_video (Some "blob:upload"%string)
                  (pushed Samples2.only_demo Samples2.echo_placeholder TIKTOK item))
             Samples2.plan3,
         repeat 5000%Z (List.length Samples2.plan3 - 1)).
Proof.
  apply (proj1 (proj2 (assets_follow_plan Samples2.only_demo Samples2.echo_placeholder
                         TIKTOK Samples2.plan3 (Some "blob:upload"%string)))).
  discriminate.
Defined.

(** Attaching the uploaded video keeps the kinds of the assets, gives its
    URL to every clip, leaves the images as they are, and changes nothing
    when done again; the clip the renderer then picks for its video
    element is one that carries this URL, and the renderer picks none only
    if the list has no clip. *)
Theorem clips_carry_uploaded_video (url : string) (assets : list VisualAsset)
        host t0 c0 ab platform :
  let attached := attach_video (Some url) assets in
  map type attached = map type assets
  /\ (forall a, In a attached -> is_video a = true -> videoUrl a = Some url)
  /\ (forall a, In a assets -> is_video a = false -> In a attached)
  /\ attach_video (Some url) attached = attached
  /\ match videoAsset (renderVideo host t0 c0 ab attached platform) with
     | Some a => is_video a = true /\ videoUrl a = Some url
     | None => forall a, In a assets -> is_video a = false
     end.
Proof.
  intros attached. subst attached. rewrite !attach_video_map.
  assert (Hclip : forall a, In a (map (with_video (Some url)) assets) ->
                            is_video a = true -> videoUrl a = Some url).
  { intros a Hin Hv. apply in_map_iff in Hin. destruct Hin as (a0 & <- & _).
    unfold with_video in *. destruct (is_video a0) eqn:E; [reflexivity | congruence]. }
  split; [|split; [|split; [|split]]].
  - rewrite map_map. apply map_ext. intros a. apply with_video_type.
  - exact Hclip.
  - intros a Hin Hv. apply in_map_iff. exists a. split; [|exact Hin].
    unfold with_video. now rewrite Hv.
  - rewrite map_map. apply map_ext. intros a. unfold with_video.
    destruct (is_video a) eqn:E; [|now rewrite E].
    assert (E' : is_video (mkVisualAsset (type a) (base64 a) (Some url) (videoStart a)
                             (videoEnd a) (Types.description a) (prompt a)) = true)
      by exact E.
    now rewrite E'.
  - assert (Hv : videoAsset (renderVideo host t0 c0 ab
                               (map (with_video (Some url)) assets) platform)
                 = find is_video (map (with_video (Some url)) assets)).
    { unfold renderVideo. now destruct (context2d host). }
    rewrite Hv.
    destruct (find is_video (map (with_video (Some url)) assets)) as [a|] eqn:F.
    + apply find_some in F. destruct F as [Hin Ha]. split; [exact Ha|].
      now apply Hclip.
    + intros a Hin. rewrite find_map_video in F.
      destruct (find is_video assets) eqn:G; [discriminate|].
      exact (List.find_none _ _ G a Hin).
Qed.

End GenerationProps.

(* ===================================================================== *)
(** * Properties of the download                                          *)
(* ===================================================================== *)

Module DownloadProps.

Import Types VideoUtils JsNumFacts Design Views Download.

Local Open Scope string_scope.

Lemma string_app_assoc (a b c : string) : (a ++ b) ++ c = a ++ (b ++ c).
Proof.
  induction a as [|ch a IH]; [reflexivity|]. cbn. now rewrite IH.
Qed.

(** Once a render has been started, the page reacts to the promise and to
    nothing else: it does nothing while the promise is pending, offers
    exactly the resolved recording for download, and alerts exactly when
    the promise was rejected; in both settled cases the rendering flag is
    cleared last.  The file is always named [.webm], also when the
    recording was negotiated as MP4. *)
Theorem download_follows_settlement host t0 c0 ab assets platform (name : string)
        events s :
  run (renderVideo host t0 c0 ab assets platform) events = Some s ->
  let calls := afterRender name s in
  (settlements (log s) = [] -> calls = [])
  /\ (forall b, settlements (log s) = [resolve b] ->
                calls = [createObjectURL b; anchor_click (download_name name);
                         revokeObjectURL; setIsRendering false]
                /\ mime b = selectedMimeType host)
  /\ (forall m, settlements (log s) = [reject m] ->
                calls = [console_error; alert "Failed to render video.";
                         setIsRendering false])
  /\ (exists stem, download_name name = stem ++ ".webm")
  /\ (isTypeSupported host "video/mp4" = true ->
      forall b, In (createObjectURL b) calls -> mime b = "video/mp4").
Proof.
  intros Hrun calls. subst calls.
  pose proof (SessionMore.settlements_of_run _ _ _ _ _ _ _ _ Hrun) as Hs.
  assert (Hb : forall b, phase s = Done b -> mime b = selectedMimeType host).
  { intros b Hp. now rewrite (SessionMore.done_blob _ _ _ _ _ _ _ _ _ Hrun Hp). }
  unfold afterRender. rewrite Hs.
  split; [|split; [|split; [|split]]].
  - destruct (phase s); cbn; intros H; try reflexivity; discriminate H.
  - intros b. destruct (phase s) eqn:Hp; cbn; intros H; try discriminate H.
    injection H as ->. split; [reflexivity | now apply Hb].
  - intros m. destruct (phase s); cbn; intros H; try discriminate H. reflexivity.
  - exists ("voxhype-" ++ name ++ "-video"). unfold download_name.
    rewrite !string_app_assoc. reflexivity.
  - intros Hmp4 b. destruct (phase s) eqn:Hp; cbn; intros H;
      try (exfalso; intuition discriminate).
    destruct H as [H|H]; [|exfalso; intuition discriminate].
    injection H as ->. rewrite (Hb _ eq_refl).
    unfold selectedMimeType, mimeTypes. cbn [find]. now rewrite Hmp4.
Qed.

Lemma download_follows_settlement_witness :
  afterRender "youtube" Samples2.mp4_render_end
  = [createObjectURL (mkBlob [4096%Z] "video/mp4");
     anchor_click "voxhype-youtube-video.webm"; revokeObjectURL; setIsRendering false]
  /\ mime (mkBlob [4096%Z] "video/mp4") = selectedMimeType Samples2.mp4_host.
Proof.
  apply (proj1 (proj2 (download_follows_settlement Samples2.mp4_host 0 0
                         (mkAudioBuffer 30) Samples.three_stills YOUTUBE "youtube"
                         Samples.render30_events Samples2.mp4_render_end
                         ltac:(vm_compute; reflexivity)))).
  vm_compute. reflexivity.
Defined.

End DownloadProps.

(* ===================================================================== *)
(** * The fallback placeholder in the render                              *)
(* ===================================================================== *)

Module FallbackProps.

Import Types VideoUtils JsNumFacts Design Views Generation.

Lemma image_draw_args env now v img x y w h :
  In (drawImage (ImageSource img) x y w h) (actions (drawFrame env now v)) ->
  let scale := jmax (jdiv (canvas_width env) (width img))
                    (jdiv (canvas_height env) (height img)) in
  x = jsub (half (canvas_width env)) (jmul (half (width img)) scale)
  /\ y = jsub (half (canvas_height env)) (jmul (half (height img)) scale)
  /\ w = jmul (width img) scale /\ h = jmul (height img) scale.
Proof.
  intros Hin. unfold drawFrame in Hin.
  destruct (jge _ _).
  { cbn in Hin. destruct Hin as [H|[H|[]]]; discriminate H. }
  destruct (get (assets env) _) as [asset|].
  2:{ cbn in Hin. destruct Hin as [H|[H|[]]]; discriminate H. }
  cbn [actions] in Hin.
  apply in_app_or in Hin. destruct Hin as [Hin|Hin].
  { cbn in Hin. destruct Hin as [H|[H|[]]]; discriminate H. }
  apply in_app_or in Hin. destruct Hin as [Hin|Hin].
  2:{ cbn in Hin. destruct Hin as [H|[]]; discriminate H. }
  assert (Hvideo :
    In (drawImage (ImageSource img) x y w h)
       (if is_video asset && (2 <=? readyState v)%Z
        then
          (if jgt (jabs (jsub (currentTime v)
                     (clip_targetTime asset (jsub now (startTime env)) (sceneDuration env))))
                  (Fin (2 # 10))
           then [seek (clip_targetTime asset (jsub now (startTime env)) (sceneDuration env))]
           else [])
          ++ (if jgt (videoWidth v) (of_Z 0) && jgt (videoHeight v) (of_Z 0)
              then
                let scale := jmax (jdiv (canvas_width env) (videoWidth v))
                                  (jdiv (canvas_height env) (videoHeight v)) in
                [drawImage (VideoSource v)
                   (jsub (half (canvas_width env)) (jmul (half (videoWidth v)) scale))
                   (jsub (half (canvas_height env)) (jmul (half (videoHeight v)) scale))
                   (jmul (videoWidth v) scale) (jmul (videoHeight v) scale)]
              else [])
        else []) ->
    False).
  { clear Hin. intros Hin.
    destruct (is_video asset && (2 <=? readyState v)%Z); [|destruct Hin].
    apply in_app_or in Hin. destruct Hin as [Hin|Hin].
    { destruct (jgt _ _); [destruct Hin as [H|[]]; discriminate H | destruct Hin]. }
    destruct (jgt (videoWidth v) (of_Z 0) && jgt (videoHeight v) (of_Z 0));
      [|destruct Hin].
    destruct Hin as [H|[]]. discriminate H. }
  destruct (is_image asset); [|destruct (Hvideo Hin)].
  destruct (get (imgs env) _) as [[img'|]|]; try destruct (Hvideo Hin).
  destruct Hin as [H|[]]. injection H as <- <- <- <- <-.
  repeat split.
Qed.

(** A fallback placeholder is made in the size the renderer gives its
    surface for the same platform, so the cover fit leaves it as it is:
    in every tick of a render that draws an image of the placeholder's
    size, the image is drawn at the origin and in the size of the
    surface, neither scaled nor cropped. *)
Theorem placeholder_fills_frame host t0 c0 ab assets platform events s
        now v img x y w h :
  run (renderVideo host t0 c0 ab assets platform) events = Some s ->
  width img = placeholder_width platform ->
  height img = placeholder_height platform ->
  In (drawImage (ImageSource img) x y w h) (actions (drawFrame (env s) now v)) ->
  canvas_width (env s) = placeholder_width platform
  /\ canvas_height (env s) = placeholder_height platform
  /\ num_eq x (of_Z 0) /\ num_eq y (of_Z 0)
  /\ num_eq w (canvas_width (env s)) /\ num_eq h (canvas_height (env s)).
Proof.
  intros Hrun Hw Hh Hin.
  destruct (SessionProps.render_env_run _ _ _ _ _ _ _ _ Hrun) as (Ecw & Ech & _).
  destruct (image_draw_args _ _ _ _ _ _ _ _ Hin) as (-> & -> & -> & ->).
  rewrite Ecw, Ech, Hw, Hh.
  destruct platform; vm_compute; repeat split; reflexivity.
Qed.

Lemma placeholder_fills_frame_witness :
  exists x y w h,
    In (drawImage (ImageSource Samples2.portrait_placeholder) x y w h)
       (actions (drawFrame (env Samples2.fallback_render) (Fin 10) Samples.cold_video))
    /\ num_eq x (of_Z 0) /\ num_eq y (of_Z 0)
    /\ num_eq w (canvas_width (env Samples2.fallback_render))
    /\ num_eq h (canvas_height (env Samples2.fallback_render)).
Proof.
  assert (Hin : exists x y w h,
             In (drawImage (ImageSource Samples2.portrait_placeholder) x y w h)
                (actions (drawFrame (env Samples2.fallback_render) (Fin 10)
                            Samples.cold_video))).
  { do 4 eexists. vm_compute. right. right. left. reflexivity. }
  destruct Hin as (x & y & w & h & Hin).
  exists x, y, w, h. split; [exact Hin|].
  apply (placeholder_fills_frame Samples.any_host 0 0 (mkAudioBuffer 30)
           [Generation.fallback "data" (Generation.mkPlanItem "intro")] TIKTOK
           [mkOccurrence 100 1 (ImagesSettled [Some Samples2.portrait_placeholder]
                                               Samples.cold_video)]
           Samples2.fallback_render (Fin 10) Samples.cold_video
           Samples2.portrait_placeholder x y w h
           ltac:(vm_compute; reflexivity) eq_refl eq_refl Hin).
Defined.

End FallbackProps.

(* ===================================================================== *)
(** * The layout of the placeholder and the start of the preview          *)
(* ===================================================================== *)

Module LayoutProps.

Import Types VideoUtils JsNumFacts Design Views ClipTime Placeholder Player.

#[local] Existing Instance Qmod_comp.

Lemma jmin_fin (a b : Q) : exists m, jmin (Fin a) (Fin b) = Fin m /\ m == Qmin a b.
Proof.
  unfold jmin, jle. destruct (Qle_bool a b) eqn:E.
  - exists a. split; [reflexivity|]. apply Qle_bool_iff in E.
    symmetry. now apply Q.min_l.
  - exists b. split; [reflexivity|].
    assert (H : b <= a).
    { destruct (Qlt_le_dec b a) as [H|H]; [now apply Qlt_le_weak|].
      apply Qle_bool_iff in H. congruence. }
    symmetry. now apply Q.min_r.
Qed.

Lemma Qfloor_scaled (s : Z) (c : Q) :
  (0 <= s)%Z -> 0 <= c -> c <= 1 ->
  (0 <= Qfloor (inject_Z s * c) <= s)%Z.
Proof.
  intros Hs H0 H1.
  assert (HsQ : 0 <= inject_Z s) by (now rewrite <- (Zle_Qle 0)).
  split.
  - apply Qfloor_nonneg. nra.
  - rewrite <- (Qfloor_Z s) at 2. apply Qfloor_resp_le. nra.
Qed.

(** The placeholder is laid out around the centre of the surface: on a
    surface of at least 20 by 20 the font size is a positive integer, the
    twentieth of the shorter side rounded down; the three lines are
    centred horizontally, the label two font sizes above the description
    and the notice two font sizes below it, so they are drawn in this
    order from top to bottom; and the label is set no larger than the
    description, the notice no larger than the label. *)
Theorem placeholder_layout (text : string) (w h : Q) :
  20 <= w -> 20 <= h ->
  exists (size label_px notice_px : Z) (x y_label y_text y_notice : Q),
    placeholder_calls text (Fin w) (Fin h)
    = [fillGradient (of_Z 0) (of_Z 0) (Fin w) (Fin h);
       fillText "SCENE VISUAL" (of_Z label_px) (Fin x) (Fin y_label);
       fillText (displayText text) (of_Z size) (Fin x) (Fin y_text);
       fillText "(AI Generation Quota Reached)" (of_Z notice_px) (Fin x) (Fin y_notice)]
    /\ size = Qfloor (Qmin w h * (5 # 100)) /\ (1 <= size)%Z
    /\ x == w / 2 /\ y_text == h / 2
    /\ y_text - y_label == 2 * inject_Z size
    /\ y_notice - y_text == 2 * inject_Z size
    /\ y_label < y_text /\ y_text < y_notice
    /\ (0 <= notice_px <= label_px)%Z /\ (label_px <= size)%Z.
Proof.
  intros Hw Hh.
  destruct (jmin_fin w h) as (m & Em & Hm).
  assert (Hm20 : 20 <= m).
  { rewrite Hm. destruct (Q.min_spec w h) as [[_ ->]|[_ ->]]; assumption. }
  set (size := Qfloor (m * (5 # 100))).
  assert (Hsize : (1 <= size)%Z).
  { change 1%Z with (Qfloor 1). apply Qfloor_resp_le. lra. }
  assert (HsQ : 1 <= inject_Z size) by (now rewrite <- (Zle_Qle 1)).
  exists size, (Qfloor (inject_Z size * (8 # 10))), (Qfloor (inject_Z size * (6 # 10))),
         (w / inject_Z 2),
         (h / inject_Z 2 + - (inject_Z size * inject_Z 2)),
         (h / inject_Z 2),
         (h / inject_Z 2 + inject_Z size * inject_Z 2).
  split.
  { unfold placeholder_calls, fontSize. rewrite Em. reflexivity. }
  split; [unfold size; now rewrite Hm|]. split; [exact Hsize|].
  change (inject_Z 2) with 2.
  split; [reflexivity|]. split; [reflexivity|].
  split; [ring|]. split; [ring|]. split; [lra|]. split; [lra|].
  pose proof (Qfloor_scaled size (8 # 10) ltac:(lia) ltac:(discriminate) ltac:(discriminate)).
  pose proof (Qfloor_scaled size (6 # 10) ltac:(lia) ltac:(discriminate) ltac:(discriminate)).
  assert (Qfloor (inject_Z size * (6 # 10)) <= Qfloor (inject_Z size * (8 # 10)))%Z
    by (apply Qfloor_resp_le; nra).
  lia.
Qed.

Lemma placeholder_layout_witness :
  exists (size label_px notice_px : Z) (x y_label y_text y_notice : Q),
    placeholder_calls "intro" (Fin 1080) (Fin 1920)
    = [fillGradient (of_Z 0) (of_Z 0) (Fin 1080) (Fin 1920);
       fillText "SCENE VISUAL" (of_Z label_px) (Fin x) (Fin y_label);
       fillText (displayText "intro") (of_Z size) (Fin x) (Fin y_text);
       fillText "(AI Generation Quota Reached)" (of_Z notice_px) (Fin x) (Fin y_notice)]
    /\ size = Qfloor (Qmin 1080 1920 * (5 # 100)) /\ (1 <= size)%Z
    /\ x == 1080 / 2 /\ y_text == 1920 / 2
    /\ y_text - y_label == 2 * inject_Z size
    /\ y_notice - y_text == 2 * inject_Z size
    /\ y_label < y_text /\ y_text < y_notice
    /\ (0 <= notice_px <= label_px)%Z /\ (label_px <= size)%Z.
Proof.
  apply (placeholder_layout "intro" 1080 1920); discriminate.
Defined.

Lemma play_from_start (r : Refs) (ab : AudioBuffer) (assets : list VisualAsset)
      (c d : Q) (suspended : bool) :
  pauseTimeRef r = of_Z 0 ->
  assets <> [] -> 0 < buffer_duration ab -> 0 <= d ->
  let started := playAudio (Some (Fin c, suspended)) (Some ab) r in
  exists offset,
    In (source_start (Fin offset)) (snd started) /\ offset == 0
    /\ num_eq (startTimeRef (fst started)) (Fin c)
    /\ num_eq (preview_index assets ab (jsub (Fin (c + d)) (startTimeRef (fst started))))
              (preview_index assets ab (Fin d)).
Proof.
  intros Hp Hne HD Hd started. subst started. unfold playAudio. rewrite Hp.
  cbn [fst snd startTimeRef]. unfold of_Z.
  rewrite (jrem_mod (inject_Z 0) _ ltac:(discriminate) HD).
  assert (E0 : Qmod (inject_Z 0) (buffer_duration ab) == 0).
  { unfold Qmod.
    assert (F : Qfloor (inject_Z 0 / buffer_duration ab) = 0%Z).
    { assert (E : inject_Z 0 / buffer_duration ab == 0) by (unfold Qdiv; ring).
      now rewrite E. }
    rewrite F. change (inject_Z 0) with 0. ring. }
  exists (Qmod (inject_Z 0) (buffer_duration ab)).
  split; [apply in_or_app; right; now left|]. split; [exact E0|].
  change (jsub (Fin c) (Fin (Qmod (inject_Z 0) (buffer_duration ab))))
    with (Fin (c - Qmod (inject_Z 0) (buffer_duration ab))).
  split; [cbn; rewrite E0; ring|].
  change (jsub (Fin (c + d)) (Fin (c - Qmod (inject_Z 0) (buffer_duration ab))))
    with (Fin (c + d - (c - Qmod (inject_Z 0) (buffer_duration ab)))).
  assert (E : c + d - (c - Qmod (inject_Z 0) (buffer_duration ab)) == d)
    by (rewrite E0; ring).
  assert (H0 : 0 <= c + d - (c - Qmod (inject_Z 0) (buffer_duration ab)))
    by (rewrite E; exact Hd).
  destruct (TimelineMore.preview_index_value assets ab Hne HD _ H0) as (q0 & -> & Hq0 & _).
  destruct (TimelineMore.preview_index_value assets ab Hne HD _ Hd) as (q1 & -> & Hq1 & _).
  change (q0 == q1). rewrite Hq0, Hq1.
  assert (F : Qfloor ((c + d - (c - Qmod (inject_Z 0) (buffer_duration ab)))
                      / (buffer_duration ab / inject_Z (Z.of_nat (List.length assets))))
              = Qfloor (d / (buffer_duration ab / inject_Z (Z.of_nat (List.length assets)))))
    by (now rewrite E).
  now rewrite F.
Qed.

(** The preview starts from the beginning both the first time and after a
    reset, whatever had been played and paused before: the audio is
    started at offset 0, the start time is the clock reading of the call,
    and [d] seconds later the slideshow shows the scene of elapsed time
    [d]. *)
Theorem reset_restarts_preview (r : Refs) (ab : AudioBuffer) (assets : list VisualAsset)
        (c d : Q) (suspended : bool) :
  assets <> [] -> 0 < buffer_duration ab -> 0 <= d ->
  forall r0, r0 = initial \/ r0 = reset r ->
    let started := playAudio (Some (Fin c, suspended)) (Some ab) r0 in
    exists offset,
      In (source_start (Fin offset)) (snd started) /\ offset == 0
      /\ num_eq (startTimeRef (fst started)) (Fin c)
      /\ num_eq (preview_index assets ab (jsub (Fin (c + d)) (startTimeRef (fst started))))
                (preview_index assets ab (Fin d)).
Proof.
  intros Hne HD Hd r0 [-> | ->]; apply play_from_start; try assumption; reflexivity.
Qed.

Lemma reset_restarts_preview_witness :
  let paused := fst (pauseAudio (Some (Fin 40)) true Samples2.playing_since_3) in
  let started := playAudio (Some (Fin 100, false)) (Some (mkAudioBuffer 30)) (reset paused) in
  exists offset,
    In (source_start (Fin offset)) (snd started) /\ offset == 0
    /\ num_eq (startTimeRef (fst started)) (Fin 100)
    /\ num_eq (preview_index Samples.three_stills (mkAudioBuffer 30)
                 (jsub (Fin (100 + 12)) (startTimeRef (fst started))))
              (preview_index Samples.three_stills (mkAudioBuffer 30) (Fin 12)).
Proof.
  apply (reset_restarts_preview
           (fst (pauseAudio (Some (Fin 40)) true Samples2.playing_since_3))
           (mkAudioBuffer 30) Samples.three_stills 100 12 false
           ltac:(discriminate) eq_refl ltac:(discriminate)).
  right. reflexivity.
Defined.

End LayoutProps.
